(** * Bermudan swaption pricer: hybrid calibration and risk engine

    A shallow embedding of [src/pricer.py] (closed-form basket prices, the
    volatility interpolator, curve validation in [setup], the three
    calibration procedures, [calibrate] and [compute_greeks]) together with
    the properties the specification states about them.

    Modelling conventions.
    - A Python [float] is idealised as a real number ([R]): rounding,
      overflow, infinities and NaN are outside the model.  Comparisons are
      the boolean tests [Rleb], [Rltb], [Reqb] below.
    - A [ql.Date] is its serial number ([Z]); [Actual365Fixed.yearFraction]
      is the day count divided by 365.
    - A Python exception is a value of [exn]; a computation that may raise
      returns a [result]; a float division raises [ZeroDivisionError] on a
      zero divisor where the divisor is not known to be non-zero.  Methods
      of [BermudanPricer] run in the monad [M] over a [state] holding
      QuantLib's global evaluation date, the warnings written to standard
      output, the trace of calls made to SciPy's solvers and the
      attributes of [self].
    - QuantLib and SciPy are external libraries: their operations are the
      fields of the interfaces [QuantLib] and [SciPy].  A solver is a
      finite strategy tree that can only observe the objective through
      the values it returns. *)

From Stdlib Require Import String.
From Stdlib Require Import Reals Lra Lia Factorial Arith ZArith List Bool.
From Stdlib Require Import Sorting.Sorted.
Import ListNotations.
Open Scope R_scope.

(* ================================================================= *)
(** * Part I: the model *)
(* ================================================================= *)

(** ** Floats, dates, exceptions *)

Definition Rleb (x y : R) : bool := if Rle_dec x y then true else false.
Definition Rltb (x y : R) : bool := if Rlt_dec x y then true else false.
Definition Reqb (x y : R) : bool := if Req_dec_T x y then true else false.

Definition date := Z.

(** [self.dc = ql.Actual365Fixed()]. *)
Definition yearFraction (d1 d2 : date) : R := IZR (d2 - d1) / 365.

Inductive exn : Type :=
| ValueError (msg : string)
| IndexError
| AttributeError (attr : string)
| ZeroDivisionError
| LibraryError (code : nat).

Inductive result (A : Type) : Type :=
| Ok (a : A)
| Raise (e : exn).
Arguments Ok {A} a.
Arguments Raise {A} e.

Definition rbind {A B} (r : result A) (k : A -> result B) : result B :=
  match r with
  | Ok a => k a
  | Raise e => Raise e
  end.

Declare Scope result_scope.
Delimit Scope result_scope with result.
Notation "x <- r ;; k" := (rbind r (fun x => k))
  (at level 61, r at next level, right associativity) : result_scope.

(** [l[i]] for [i >= 0], and [l[-1]]. *)
Definition item {A} (l : list A) (i : nat) : result A :=
  match nth_error l i with
  | Some v => Ok v
  | None => Raise IndexError
  end.

Definition item_last {A} (l : list A) : result A :=
  match l with
  | [] => Raise IndexError
  | _ :: _ => item l (length l - 1)
  end.

(** [m[i, j]] on a two-dimensional array. *)
Definition mat_item (m : list (list R)) (i j : nat) : result R :=
  (row <- item m i ;; item row j)%result.

(** ** Closed-form basket prices (pricer.py, lines 139-156) *)

Module Bachelier.

(** [math.erf] is the error function, taken here as the sum of its
    Maclaurin series
    [erf x = 2/sqrt(pi) * sum_n (-1)^n x^(2n+1) / (n! (2n+1))]. *)
Definition erf_coeff (n : nat) : R :=
  (-1) ^ n / (INR (fact n) * INR (2 * n + 1)).

Lemma erf_coeff_neq_0 : forall n, erf_coeff n <> 0.
Proof.
  intro n. unfold erf_coeff.
  assert (H1 : (-1) ^ n <> 0) by (apply pow_nonzero; lra).
  assert (H2 : INR (fact n) <> 0) by apply INR_fact_neq_0.
  assert (H3 : INR (2 * n + 1) <> 0) by (apply not_0_INR; lia).
  unfold Rdiv. apply Rmult_integral_contrapositive_currified; auto.
  apply Rinv_neq_0_compat. apply Rmult_integral_contrapositive_currified; auto.
Qed.

Lemma erf_coeff_ratio n :
  Rabs (erf_coeff (S n) / erf_coeff n)
  = INR (2 * n + 1) / (INR (S n) * INR (2 * n + 3)).
Proof.
  unfold erf_coeff.
  assert (H2 : INR (fact n) <> 0) by apply INR_fact_neq_0.
  assert (H3 : INR (2 * n + 1) <> 0) by (apply not_0_INR; lia).
  assert (H4 : INR (2 * n + 3) <> 0) by (apply not_0_INR; lia).
  assert (H5 : INR (S n) <> 0) by (apply not_0_INR; lia).
  assert (H1 : (-1) ^ n <> 0) by (apply pow_nonzero; lra).
  replace (2 * S n + 1)%nat with (2 * n + 3)%nat by lia.
  rewrite fact_simpl, mult_INR. simpl pow.
  replace (-1 * (-1) ^ n / (INR (S n) * INR (fact n) * INR (2 * n + 3)) /
            ((-1) ^ n / (INR (fact n) * INR (2 * n + 1))))
    with (- (INR (2 * n + 1) / (INR (S n) * INR (2 * n + 3)))) by (field; auto).
  rewrite Rabs_Ropp. apply Rabs_pos_eq.
  apply Rlt_le. apply Rdiv_lt_0_compat.
  - apply lt_0_INR; lia.
  - apply Rmult_lt_0_compat; apply lt_0_INR; lia.
Qed.

(** The ratio of consecutive coefficients tends to 0, so the series
    converges everywhere (d'Alembert). *)
Lemma Alembert_erf : Un_cv (fun n => Rabs (erf_coeff (S n) / erf_coeff n)) 0.
Proof.
  intros eps Heps.
  destruct (archimed (/ eps)) as [Hup _].
  assert (Hpos : 0 < / eps) by (apply Rinv_0_lt_compat; lra).
  assert (Hz : (0 <= up (/ eps))%Z) by (apply le_IZR; lra).
  exists (Z.to_nat (up (/ eps))). intros n Hn.
  unfold Rdist. rewrite Rminus_0_r, Rabs_Rabsolu, erf_coeff_ratio.
  assert (Hn' : / eps < INR (S n)).
  { eapply Rlt_le_trans; [exact Hup|].
    rewrite <- (Z2Nat.id _ Hz), <- INR_IZR_INZ. apply le_INR. lia. }
  assert (H1 : 0 < INR (2 * n + 1)) by (apply lt_0_INR; lia).
  assert (H3 : INR (2 * n + 3) = INR (2 * n + 1) + 2).
  { replace (2 * n + 3)%nat with ((2 * n + 1) + 2)%nat by lia.
    rewrite plus_INR. simpl. lra. }
  assert (H5 : 0 < INR (S n)) by (apply lt_0_INR; lia).
  rewrite H3.
  apply Rle_lt_trans with (/ INR (S n)).
  - apply Rmult_le_reg_r with (INR (S n) * (INR (2 * n + 1) + 2)); [nra|].
    field_simplify; nra.
  - rewrite <- (Rinv_inv eps). apply Rinv_lt_contravar; nra.
Qed.

Definition erf_series (y : R) : R :=
  proj1_sig (Alembert_C3 erf_coeff y erf_coeff_neq_0 Alembert_erf).

Definition erf (x : R) : R := 2 / sqrt PI * (x * erf_series (x * x)).

Definition bachelier_receiver (F K sigma T annuity : R) : R :=
  if Rleb sigma 0 || Rleb T 0 then annuity * Rmax (K - F) 0
  else
    let std := sigma * sqrt T in
    let d := (F - K) / std in
    let phi := exp (- 0.5 * d * d) / sqrt (2 * PI) in
    let Phi_m := 0.5 * (1 + erf (- d / sqrt 2)) in
    annuity * ((K - F) * Phi_m + std * phi).

Definition bachelier_payer (F K sigma T annuity : R) : R :=
  if Rleb sigma 0 || Rleb T 0 then annuity * Rmax (F - K) 0
  else
    let std := sigma * sqrt T in
    let d := (F - K) / std in
    let phi := exp (- 0.5 * d * d) / sqrt (2 * PI) in
    let Phi := 0.5 * (1 + erf (d / sqrt 2)) in
    annuity * ((F - K) * Phi + std * phi).

End Bachelier.

(** ** Volatility surface interpolator (pricer.py, lines 159-168) *)

Module VolInterp.

(** [np.clip(x, lo, hi)] is [minimum(maximum(x, lo), hi)]. *)
Definition clip (x lo hi : R) : R := Rmin (Rmax x lo) hi.

(** [np.searchsorted(g, x)] (side left) on a sorted array: the first index
    whose entry is not below [x], [len(g)] when there is none. *)
Fixpoint searchsorted (g : list R) (x : R) : nat :=
  match g with
  | [] => 0
  | y :: g' => if Rltb y x then S (searchsorted g' x) else 0
  end.

Definition vol_interp (T tenor : R) (vol_mat : list (list R))
    (expiry_grid tenor_grid : list R) : result R :=
  (e_lo <- item expiry_grid 0 ;;
   e_hi <- item_last expiry_grid ;;
   let xc := clip T e_lo e_hi in
   t_lo <- item tenor_grid 0 ;;
   t_hi <- item_last tenor_grid ;;
   let yc := clip tenor t_lo t_hi in
   let i1 := Nat.min (searchsorted expiry_grid xc) (length expiry_grid - 1) in
   let j1 := Nat.min (searchsorted tenor_grid yc) (length tenor_grid - 1) in
   let i0 := Nat.max (i1 - 1) 0 in
   let j0 := Nat.max (j1 - 1) 0 in
   e1 <- item expiry_grid i1 ;;
   e0 <- item expiry_grid i0 ;;
   let wx := if Reqb e1 e0 then 0 else (xc - e0) / (e1 - e0) in
   t1 <- item tenor_grid j1 ;;
   t0 <- item tenor_grid j0 ;;
   let wy := if Reqb t1 t0 then 0 else (yc - t0) / (t1 - t0) in
   v00 <- mat_item vol_mat i0 j0 ;;
   v10 <- mat_item vol_mat i1 j0 ;;
   v01 <- mat_item vol_mat i0 j1 ;;
   v11 <- mat_item vol_mat i1 j1 ;;
   Ok ((1 - wy) * ((1 - wx) * v00 + wx * v10)
       + wy * ((1 - wx) * v01 + wx * v11)))%result.

(** The grids are strictly increasing, and the matrix has one row per
    expiry and one column per tenor. *)
Definition strictly_increasing (g : list R) : Prop := Sorted Rlt g.

Definition shaped (m : list (list R)) (rows cols : nat) : Prop :=
  length m = rows /\ Forall (fun row => length row = cols) m.

End VolInterp.

(** ** External libraries *)

(** QuantLib.  Every call may read the global evaluation date (its first
    argument) and may raise.  The deal's conventions (notional, direction,
    frequency, day count, payment lag, calendar, currency) are fixed for a
    pricer and belong to the instance. *)
Record QuantLib : Type := {
  Handle : Type;    (* a DiscountCurve behind its YieldTermStructureHandle *)
  Index : Type;
  Schedule : Type;
  Swap : Type;
  Engine : Type;    (* FdHullWhiteSwaptionEngine over a HullWhite model *)
  Swaption : Type;
  (* build_curve(ref_date, dates, dfs, cal, dc) *)
  build_curve : date -> date -> list date -> list R -> result Handle;
  (* curve.discount(d) *)
  discount : date -> Handle -> date -> result R;
  (* get_index(handle, ccy) *)
  get_index : date -> Handle -> result Index;
  (* make_schedule(start, end, tenor, cal, bdc) *)
  make_schedule : date -> date -> date -> result Schedule;
  (* ql.Schedule(dates, cal, bdc) *)
  schedule_of_dates : date -> list date -> result Schedule;
  (* list(schedule) *)
  schedule_dates : Schedule -> list date;
  (* make_ois(direction, nom, schedule, rate, index, ...) *)
  make_ois : date -> Schedule -> R -> Index -> result Swap;
  (* s.setPricingEngine(ql.DiscountingSwapEngine(h)) *)
  set_discounting_engine : date -> Swap -> Handle -> result Swap;
  fairRate : date -> Swap -> result R;
  swap_NPV : date -> Swap -> result R;
  fixedLegBPS : date -> Swap -> result R;
  (* make_swaption(s, ql.BermudanExercise(dates)) *)
  make_swaption : date -> Swap -> list date -> result Swaption;
  (* ql.Swaption(s, ql.EuropeanExercise(d)) *)
  european_swaption : date -> Swap -> date -> result Swaption;
  (* ql.FdHullWhiteSwaptionEngine(ql.HullWhite(h, a, sigma), fdm_t, fdm_x) *)
  hw_engine : date -> Handle -> R -> R -> Z -> Z -> result Engine;
  (* swpt.setPricingEngine(eng); swpt.NPV() *)
  swaption_NPV : date -> Engine -> Swaption -> result R
}.

(** SciPy.  [minimize(..., method="Nelder-Mead")] asks for the objective
    at trial points and finally returns a point with its [success] flag;
    [brentq] does the same and may also raise (no sign change over the
    bracket, no convergence).  Neither catches what the objective raises. *)
Inductive optimizer (X : Type) : Type :=
| Done (x : X) (success : bool)
| Ask (x : X) (k : R -> optimizer X).
Arguments Done {X} x success.
Arguments Ask {X} x k.

Inductive rootfinder : Type :=
| Root (x : R)
| Probe (x : R) (k : R -> rootfinder)
| Fails (e : exn).

Record nm_options : Type := {
  maxiter : nat;
  xatol : option R;
  fatol : option R
}.

Record SciPy : Type := {
  minimize1 : R -> nm_options -> optimizer R;
  minimize2 : R * R -> nm_options -> optimizer (R * R);
  (* brentq(f, a, b, xtol=...) *)
  brentq : R -> R -> R -> rootfinder
}.

Inductive solver_call : Type :=
| CallMinimize (opts : nm_options)
| CallBrentq (lo hi : R).

(** Lines written by [print]: the warnings.  Progress banners and the
    formatted values they carry are not modelled. *)
Inductive line : Type :=
| WarnDfAbove (dt : date) (df : R)
| WarnNonMonotone (d0 : date) (df0 : R) (d1 : date) (df1 : R)
| WarnAtmNotConverged
| WarnJointNotConverged.

(** ** Configuration as [__init__] reads it *)

(** An entry of [mkt["curve"]]: what [parse_date(d)] and [float(df)] give,
    [None] when the call raises. *)
Record raw_node : Type := {
  raw_date : option date;
  raw_df : option R
}.

Record config : Type := {
  val_date : date;
  strike : R;
  is_receiver : bool;
  swap_start : date;
  swap_end : date;
  mean_reversion : R;
  calib_a : bool;
  fdm_t : Z;
  fdm_x : Z;
  dv01_bp : R;
  gamma_bp : R;
  vega_bp : R;
  do_theta : bool;
  bbg_npv : R;                         (* float(market_data["bbg_npv"]) *)
  vol_mat : list (list R);
  exp_grid : list R;
  tnr_grid : list R;
  curve : list raw_node;               (* mkt["curve"] *)
  custom_dates : option (list (option date))
    (* cfg["exercise"]["custom_dates"] when the mode is custom, each entry
       as parse_date gives it *)
}.


Record greek_set : Type := {
  dv01 : R;
  gamma_1bp : R;
  vega_1bp : R;
  theta_1d : R;
  delta_hedge : R;
  underlying_dv01 : R
}.

(** ** The pricer *)

Section Pricer.

Variable ql : QuantLib.
Variable sp : SciPy.

(** An entry of the calibration basket (the dict built by [_build_basket]). *)
Record basket_entry : Type := {
  fwd : R;
  vol : R;
  expiry : R;                    (* key T *)
  ann : R;
  swpt : Swaption ql;
  mkt : R
}.

(** The attributes [setup] assigns.  They are committed together when
    [setup] returns; [yts_h] stands for both [self.yts_h] and
    [self.yts_c], the handle and the curve behind it. *)
Record market : Type := {
  node_dates : list date;
  node_dfs : list R;
  yts_h : Handle ql;
  index : Index ql;
  schedule : Schedule ql;
  ex_dates : list date;
  swap : Swap ql;
  fair_rate : R;
  underlying_npv : R
}.

(** [self].  An attribute that is assigned after [__init__] is [None]
    until then, and reading it raises [AttributeError]. *)
Record pricer : Type := {
  cfg : config;
  a : R;
  mkt_attrs : option market;
  basket : option (list basket_entry);
  sigma_atm : option R;
  sigma_inv : option R;
  delta_spread : option R;
  sigma_total : option R;
  berm : option (Swaption ql);
  npv : option R;
  greeks : option greek_set
}.

Definition __init__ (c : config) : pricer :=
  {| cfg := c; a := mean_reversion c; mkt_attrs := None; basket := None;
     sigma_atm := None; sigma_inv := None; delta_spread := None;
     sigma_total := None; berm := None; npv := None; greeks := None |}.

Definition with_a (v : R) (p : pricer) : pricer :=
  {| cfg := cfg p; a := v; mkt_attrs := mkt_attrs p; basket := basket p;
     sigma_atm := sigma_atm p; sigma_inv := sigma_inv p;
     delta_spread := delta_spread p; sigma_total := sigma_total p;
     berm := berm p; npv := npv p; greeks := greeks p |}.

Definition with_mkt_attrs (v : market) (p : pricer) : pricer :=
  {| cfg := cfg p; a := a p; mkt_attrs := Some v; basket := basket p;
     sigma_atm := sigma_atm p; sigma_inv := sigma_inv p;
     delta_spread := delta_spread p; sigma_total := sigma_total p;
     berm := berm p; npv := npv p; greeks := greeks p |}.

Definition with_basket (v : list basket_entry) (p : pricer) : pricer :=
  {| cfg := cfg p; a := a p; mkt_attrs := mkt_attrs p; basket := Some v;
     sigma_atm := sigma_atm p; sigma_inv := sigma_inv p;
     delta_spread := delta_spread p; sigma_total := sigma_total p;
     berm := berm p; npv := npv p; greeks := greeks p |}.

Definition with_sigma_atm (v : R) (p : pricer) : pricer :=
  {| cfg := cfg p; a := a p; mkt_attrs := mkt_attrs p; basket := basket p;
     sigma_atm := Some v; sigma_inv := sigma_inv p;
     delta_spread := delta_spread p; sigma_total := sigma_total p;
     berm := berm p; npv := npv p; greeks := greeks p |}.

Definition with_sigma_inv (v : R) (p : pricer) : pricer :=
  {| cfg := cfg p; a := a p; mkt_attrs := mkt_attrs p; basket := basket p;
     sigma_atm := sigma_atm p; sigma_inv := Some v;
     delta_spread := delta_spread p; sigma_total := sigma_total p;
     berm := berm p; npv := npv p; greeks := greeks p |}.

Definition with_delta_spread (v : R) (p : pricer) : pricer :=
  {| cfg := cfg p; a := a p; mkt_attrs := mkt_attrs p; basket := basket p;
     sigma_atm := sigma_atm p; sigma_inv := sigma_inv p;
     delta_spread := Some v; sigma_total := sigma_total p;
     berm := berm p; npv := npv p; greeks := greeks p |}.

Definition with_sigma_total (v : R) (p : pricer) : pricer :=
  {| cfg := cfg p; a := a p; mkt_attrs := mkt_attrs p; basket := basket p;
     sigma_atm := sigma_atm p; sigma_inv := sigma_inv p;
     delta_spread := delta_spread p; sigma_total := Some v;
     berm := berm p; npv := npv p; greeks := greeks p |}.

Definition with_berm (v : Swaption ql) (p : pricer) : pricer :=
  {| cfg := cfg p; a := a p; mkt_attrs := mkt_attrs p; basket := basket p;
     sigma_atm := sigma_atm p; sigma_inv := sigma_inv p;
     delta_spread := delta_spread p; sigma_total := sigma_total p;
     berm := Some v; npv := npv p; greeks := greeks p |}.

Definition with_npv (v : R) (p : pricer) : pricer :=
  {| cfg := cfg p; a := a p; mkt_attrs := mkt_attrs p; basket := basket p;
     sigma_atm := sigma_atm p; sigma_inv := sigma_inv p;
     delta_spread := delta_spread p; sigma_total := sigma_total p;
     berm := berm p; npv := Some v; greeks := greeks p |}.

Definition with_greeks (v : greek_set) (p : pricer) : pricer :=
  {| cfg := cfg p; a := a p; mkt_attrs := mkt_attrs p; basket := basket p;
     sigma_atm := sigma_atm p; sigma_inv := sigma_inv p;
     delta_spread := delta_spread p; sigma_total := sigma_total p;
     berm := berm p; npv := npv p; greeks := Some v |}.

(** *** State and the monad [M] *)

Record state : Type := {
  evaluationDate : date;          (* ql.Settings.instance().evaluationDate *)
  stdout : list line;
  scipy_calls : list solver_call;
  self : pricer
}.

Definition M (A : Type) : Type := state -> result A * state.

Definition ret {A} (v : A) : M A := fun s => (Ok v, s).

Definition raise {A} (e : exn) : M A := fun s => (Raise e, s).

Definition bind {A B} (m : M A) (k : A -> M B) : M B :=
  fun s =>
    match m s with
    | (Ok v, s') => k v s'
    | (Raise e, s') => (Raise e, s')
    end.

(** [try: m except Exception: h]. *)
Definition try_except {A} (m : M A) (h : exn -> M A) : M A :=
  fun s =>
    match m s with
    | (Ok v, s') => (Ok v, s')
    | (Raise e, s') => h e s'
    end.

(** [try: m finally: f]. *)
Definition try_finally {A} (m : M A) (f : M unit) : M A :=
  fun s =>
    match m s with
    | (r, s') =>
        match f s' with
        | (Ok _, s'') => (r, s'')
        | (Raise e, s'') => (Raise e, s'')
        end
    end.

Definition lift {A} (r : result A) : M A := fun s => (r, s).

(** A QuantLib call under the current evaluation date. *)
Definition ext {A} (f : date -> result A) : M A :=
  fun s => (f (evaluationDate s), s).

Definition get_evaluationDate : M date := fun s => (Ok (evaluationDate s), s).

Definition set_evaluationDate (d : date) : M unit :=
  fun s => (Ok tt, {| evaluationDate := d; stdout := stdout s;
                      scipy_calls := scipy_calls s; self := self s |}).

Definition print (l : line) : M unit :=
  fun s => (Ok tt, {| evaluationDate := evaluationDate s;
                      stdout := stdout s ++ [l];
                      scipy_calls := scipy_calls s; self := self s |}).

Definition record_call (c : solver_call) : M unit :=
  fun s => (Ok tt, {| evaluationDate := evaluationDate s; stdout := stdout s;
                      scipy_calls := scipy_calls s ++ [c]; self := self s |}).

Definition gets {A} (f : pricer -> A) : M A := fun s => (Ok (f (self s)), s).

Definition assign (f : pricer -> pricer) : M unit :=
  fun s => (Ok tt, {| evaluationDate := evaluationDate s; stdout := stdout s;
                      scipy_calls := scipy_calls s; self := f (self s) |}).

(** [self.<name>] for an attribute assigned after [__init__]. *)
Definition attr {A} (name : string) (f : pricer -> option A) : M A :=
  fun s =>
    match f (self s) with
    | Some v => (Ok v, s)
    | None => (Raise (AttributeError name), s)
    end.

Definition market_attr {A} (name : string) (f : market -> A) : M A :=
  fun s =>
    match mkt_attrs (self s) with
    | Some m => (Ok (f m), s)
    | None => (Raise (AttributeError name), s)
    end.

(** Float division [x / y]. *)
Definition pydiv (x y : R) : M R :=
  if Reqb y 0 then raise ZeroDivisionError else ret (x / y).

Declare Scope M_scope.
Delimit Scope M_scope with M.
Notation "x <- m ;; k" := (bind m (fun x => k))
  (at level 61, m at next level, right associativity) : M_scope.
Notation "' pat <- m ;; k" := (bind m (fun x => match x with pat => k end))
  (at level 61, pat pattern, m at next level, right associativity) : M_scope.
Notation "m ;; k" := (bind m (fun _ => k))
  (at level 61, right associativity) : M_scope.
Local Open Scope M_scope.

Fixpoint foldM {A B} (f : B -> A -> M B) (l : list A) (acc : B) : M B :=
  match l with
  | [] => ret acc
  | x :: l' => acc' <- f acc x ;; foldM f l' acc'
  end.

Fixpoint mapM {A B} (f : A -> M B) (l : list A) : M (list B) :=
  match l with
  | [] => ret []
  | x :: l' => y <- f x ;; ys <- mapM f l' ;; ret (y :: ys)
  end.

Definition when (b : bool) (m : M unit) : M unit := if b then m else ret tt.

(** [minimize(f, x0, method="Nelder-Mead", options=...)] and
    [brentq(f, a, b, xtol=...)]: the solver's strategy run against the
    objective. *)
Fixpoint run_optimizer {X} (t : optimizer X) (f : X -> M R) : M (X * bool) :=
  match t with
  | Done x ok => ret (x, ok)
  | Ask x k => y <- f x ;; run_optimizer (k y) f
  end.

Fixpoint run_rootfinder (t : rootfinder) (f : R -> M R) : M R :=
  match t with
  | Root x => ret x
  | Probe x k => y <- f x ;; run_rootfinder (k y) f
  | Fails e => raise e
  end.

Definition minimize {X} (tree : nm_options -> optimizer X) (opts : nm_options)
    (f : X -> M R) : M (X * bool) :=
  record_call (CallMinimize opts) ;; run_optimizer (tree opts) f.

Definition call_brentq (f : R -> M R) (lo hi xtol : R) : M R :=
  record_call (CallBrentq lo hi) ;; run_rootfinder (brentq sp lo hi xtol) f.

(** *** [setup] (lines 222-291) *)

(** Lines 227-233: entries that do not parse are skipped. *)
Fixpoint parse_curve (raw : list raw_node) : list (date * R) :=
  match raw with
  | [] => []
  | n :: rest =>
      match raw_date n, raw_df n with
      | Some dt, Some df => (dt, df) :: parse_curve rest
      | _, _ => parse_curve rest
      end
  end.

(** Line 243: [pairs.sort(key=...)], a stable sort on the serial number. *)
Fixpoint insert_node (p : date * R) (l : list (date * R)) : list (date * R) :=
  match l with
  | [] => [p]
  | q :: l' =>
      if (fst p <=? fst q)%Z then p :: q :: l' else q :: insert_node p l'
  end.

Fixpoint sort_nodes (l : list (date * R)) : list (date * R) :=
  match l with
  | [] => []
  | p :: l' => insert_node p (sort_nodes l')
  end.

(** Lines 246-251: the last value of a date wins. *)
Definition dedup_step (dedup : list (date * R)) (p : date * R)
    : list (date * R) :=
  match rev dedup with
  | q :: _ => if (fst p =? fst q)%Z then removelast dedup ++ [p]
              else dedup ++ [p]
  | [] => dedup ++ [p]
  end.

Definition dedup_nodes (pairs : list (date * R)) : list (date * R) :=
  fold_left dedup_step pairs [].

(** Lines 257-261. *)
Fixpoint validate_dfs (nodes : list (date * R)) : M unit :=
  match nodes with
  | [] => ret tt
  | (dt, df) :: rest =>
      if Rleb df 0 then raise (ValueError "Discount factor <= 0")
      else
        when (Rltb 1.05 df) (print (WarnDfAbove dt df)) ;;
        validate_dfs rest
  end.

(** Lines 262-264. *)
Fixpoint warn_non_monotone (nodes : list (date * R)) : M unit :=
  match nodes with
  | (d0, df0) :: rest =>
      match rest with
      | (d1, df1) :: _ =>
          when (Rltb (df0 + 1e-6) df1) (print (WarnNonMonotone d0 df0 d1 df1)) ;;
          warn_non_monotone rest
      | [] => ret tt
      end
  | [] => ret tt
  end.

(** The nodes kept after filtering, sorting and deduplication. *)
Definition live_pairs (val : date) (raw : list raw_node) : list (date * R) :=
  filter (fun p => (val <? fst p)%Z) (parse_curve raw).

Definition retained_nodes (val : date) (raw : list raw_node)
    : list (date * R) :=
  dedup_nodes (sort_nodes (live_pairs val raw)).

(** Lines 226-264: the curve block of [setup]. *)
Definition setup_curve : M (list date * list R) :=
  c <- gets cfg ;;
  let pairs := live_pairs (val_date c) (curve c) in
  match pairs with
  | [] => raise (ValueError "No curve nodes after valuation date")
  | _ :: _ =>
      let dedup := dedup_nodes (sort_nodes pairs) in
      let node_dates := map fst dedup in
      let node_dfs := map snd dedup in
      validate_dfs (combine node_dates node_dfs) ;;
      warn_non_monotone (combine node_dates node_dfs) ;;
      ret (node_dates, node_dfs)
  end.

Fixpoint parse_dates (ds : list (option date)) : M (list date) :=
  match ds with
  | [] => ret []
  | Some d :: rest => ds' <- parse_dates rest ;; ret (d :: ds')
  | None :: _ => raise (ValueError "parse_date")
  end.

Definition setup : M unit :=
  c <- gets cfg ;;
  set_evaluationDate (val_date c) ;;
  '(nd, ndf) <- setup_curve ;;
  h <- ext (fun d => build_curve ql d (val_date c) nd ndf) ;;
  ix <- ext (fun d => get_index ql d h) ;;
  sc <- ext (fun d => make_schedule ql d (swap_start c) (swap_end c)) ;;
  exd <- match custom_dates c with
         | Some ds => parse_dates ds
         | None =>
             ret (filter (fun d => (swap_start c <=? d)%Z)
                         (removelast (schedule_dates ql sc)))
         end ;;
  s <- ext (fun d => make_ois ql d sc (strike c) ix) ;;
  s <- ext (fun d => set_discounting_engine ql d s h) ;;
  fr <- ext (fun d => fairRate ql d s) ;;
  un <- ext (fun d => swap_NPV ql d s) ;;
  assign (with_mkt_attrs
            {| node_dates := nd; node_dfs := ndf; yts_h := h; index := ix;
               schedule := sc; ex_dates := exd; swap := s; fair_rate := fr;
               underlying_npv := un |}).

(** *** Pricing helpers (lines 293-348) *)

(** [_build_berm()]: every call site passes no argument. *)
Definition _build_berm : M (Swap ql * Swaption ql) :=
  h <- market_attr "yts_h" yts_h ;;
  ix <- market_attr "index" index ;;
  sc <- market_attr "schedule" schedule ;;
  k <- gets (fun p => strike (cfg p)) ;;
  s <- ext (fun d => make_ois ql d sc k ix) ;;
  s <- ext (fun d => set_discounting_engine ql d s h) ;;
  exd <- market_attr "ex_dates" ex_dates ;;
  sw <- ext (fun d => make_swaption ql d s exd) ;;
  ret (s, sw).

Definition _price_berm (h : Handle ql) (swpt : Swaption ql) (sigma : R)
    : M R :=
  a_ <- gets a ;;
  c <- gets cfg ;;
  eng <- ext (fun d => hw_engine ql d h a_ sigma (fdm_t c) (fdm_x c)) ;;
  ext (fun d => swaption_NPV ql d eng swpt).

Definition _bachelier (fwd vol T ann : R) : M R :=
  c <- gets cfg ;;
  if is_receiver c
  then ret (Bachelier.bachelier_receiver fwd (strike c) vol T ann)
  else ret (Bachelier.bachelier_payer fwd (strike c) vol T ann).

(** [sd[sd.index(ex):]], for [ex in sd]. *)
Fixpoint suffix_from (ex : date) (sd : list date) : list date :=
  match sd with
  | [] => []
  | d :: sd' => if (d =? ex)%Z then sd else suffix_from ex sd'
  end.

(** The schedule of the sub-swap that starts at the exercise date [ex]
    (lines 319-328); [sd] is [list(self.schedule)]. *)
Definition basket_schedule (sd : list date) (ex : date) : M (Schedule ql) :=
  c <- gets cfg ;;
  let regenerate := ext (fun d => make_schedule ql d ex (swap_end c)) in
  if existsb (fun d => (d =? ex)%Z) sd then
    let sub := suffix_from ex sd in
    try_except
      (ss <- ext (fun d => schedule_of_dates ql d sub) ;;
       if Nat.eqb (length (schedule_dates ql ss)) (length sub)
       then ret ss else regenerate)
      (fun _ => regenerate)
  else regenerate.

(** One turn of the loop of [_build_basket] (lines 318-347). *)
Definition basket_entry_for (h : Handle ql) (ix : Index ql) (sd : list date)
    (vol_bump_bp : R) (ex : date) : M basket_entry :=
  ss <- basket_schedule sd ex ;;
  c <- gets cfg ;;
  s0 <- ext (fun d => make_ois ql d ss 0 ix) ;;
  s0 <- ext (fun d => set_discounting_engine ql d s0 h) ;;
  fwd_ <- ext (fun d => fairRate ql d s0) ;;
  sk <- ext (fun d => make_ois ql d ss (strike c) ix) ;;
  sk <- ext (fun d => set_discounting_engine ql d sk h) ;;
  bps <- ext (fun d => fixedLegBPS ql d sk) ;;
  let ann_ := Rabs bps / 1e-4 in
  let T := yearFraction (val_date c) ex in
  let tenY := yearFraction ex (swap_end c) in
  v <- lift (VolInterp.vol_interp T tenY (vol_mat c) (exp_grid c) (tnr_grid c)) ;;
  let vol_ := v + vol_bump_bp / 10000 in
  sw <- ext (fun d => european_swaption ql d sk ex) ;;
  m <- _bachelier fwd_ vol_ T ann_ ;;
  ret {| fwd := fwd_; vol := vol_; expiry := T; ann := ann_; swpt := sw;
         mkt := m |}.

(** [_build_basket(vol_bump_bp=...)]: the call sites pass neither a
    handle nor an index. *)
Definition _build_basket (vol_bump_bp : R) : M (list basket_entry) :=
  h <- market_attr "yts_h" yts_h ;;
  ix <- market_attr "index" index ;;
  sc <- market_attr "schedule" schedule ;;
  let sd := schedule_dates ql sc in
  exd <- market_attr "ex_dates" ex_dates ;;
  mapM (basket_entry_for h ix sd vol_bump_bp) exd.

(** *** Calibration (lines 350-467) *)

(** One term of the objective's sum: the squared pricing error of a
    basket entry under the engine, scaled by [max(1, |mkt|)]. *)
Definition objective_term (eng : Engine ql) (err : R) (it : basket_entry)
    : M R :=
  model <- ext (fun d => swaption_NPV ql d eng (swpt it)) ;;
  ret (err + (model - mkt it) ^ 2 / Rmax 1 (Rabs (mkt it))).

(** [obj] of [_calib_sigma_atm] (lines 352-356): no handler. *)
Definition atm_objective (h : Handle ql) (bk : list basket_entry) (x : R)
    : M R :=
  let sigma := 1e-8 + exp x in
  a_ <- gets a ;;
  c <- gets cfg ;;
  eng <- ext (fun d => hw_engine ql d h a_ sigma (fdm_t c) (fdm_x c)) ;;
  foldM (objective_term eng) bk 0.

Definition atm_options : nm_options :=
  {| maxiter := 500; xatol := Some 1e-8; fatol := Some 1e-8 |}.

Definition _calib_sigma_atm (h : Handle ql) (bk : list basket_entry) : M R :=
  '(x, success) <- minimize (minimize1 sp (ln 0.005)) atm_options
                     (atm_objective h bk) ;;
  when (negb success) (print WarnAtmNotConverged) ;;
  ret (1e-8 + exp x).

Definition A_MIN : R := 0.001.
Definition A_MAX : R := 0.50.

Definition _logit (a_ : R) : R :=
  let t := (a_ - A_MIN) / (A_MAX - A_MIN) in
  let t := Rmax 1e-10 (Rmin (1 - 1e-10) t) in
  ln (t / (1 - t)).

Definition _inv_logit (x : R) : R :=
  let t := 1 / (1 + exp (- x)) in
  A_MIN + t * (A_MAX - A_MIN).

(** [obj] of [_calib_joint] (lines 380-393): the oracle calls are inside
    [try: ... except Exception: return 1e20]. *)
Definition joint_objective (h : Handle ql) (bk : list basket_entry)
    (x : R * R) : M R :=
  let a_val := _inv_logit (fst x) in
  let sigma := 1e-8 + exp (snd x) in
  try_except
    (c <- gets cfg ;;
     eng <- ext (fun d => hw_engine ql d h a_val sigma (fdm_t c) (fdm_x c)) ;;
     foldM (objective_term eng) bk 0)
    (fun _ => ret 1e20).

Definition joint_options : nm_options :=
  {| maxiter := 1500; xatol := Some 1e-8; fatol := Some 1e-8 |}.

Definition _calib_joint (h : Handle ql) (bk : list basket_entry)
    : M (R * R) :=
  let x0 := (_logit 0.03, ln 0.005) in
  '(x, success) <- minimize (minimize2 sp x0) joint_options
                     (joint_objective h bk) ;;
  when (negb success) (print WarnJointNotConverged) ;;
  let a_cal := _inv_logit (fst x) in
  let sigma_cal := 1e-8 + exp (snd x) in
  ret (a_cal, sigma_cal).

(** [f] of [_inverse_solve] (lines 406-408). *)
Definition inverse_residual (target log_s : R) : M R :=
  '(_, sw) <- _build_berm ;;
  h <- market_attr "yts_h" yts_h ;;
  p <- _price_berm h sw (exp log_s) ;;
  ret (p - target).

Definition inverse_options : nm_options :=
  {| maxiter := 300; xatol := None; fatol := None |}.

Definition _inverse_solve (target : R) : M R :=
  try_except
    (r <- call_brentq (inverse_residual target) (ln 0.001) (ln 0.05) 1e-12 ;;
     ret (exp r))
    (fun _ =>
       '(x, _) <- minimize (minimize1 sp (ln 0.007)) inverse_options
                    (fun x => y <- inverse_residual target x ;; ret (y ^ 2)) ;;
       ret (exp x)).

Definition calibrate : M unit :=
  bk <- _build_basket 0 ;;
  assign (with_basket bk) ;;
  calib <- gets (fun p => calib_a (cfg p)) ;;
  (if calib then
     h <- market_attr "yts_h" yts_h ;;
     bk <- attr "basket" basket ;;
     '(a_cal, sigma_cal) <- _calib_joint h bk ;;
     assign (with_a a_cal) ;;
     assign (with_sigma_atm sigma_cal)
   else
     h <- market_attr "yts_h" yts_h ;;
     bk <- attr "basket" basket ;;
     sigma <- _calib_sigma_atm h bk ;;
     assign (with_sigma_atm sigma)) ;;
  '(_, berm_atm) <- _build_berm ;;
  h <- market_attr "yts_h" yts_h ;;
  s_atm <- attr "sigma_atm" sigma_atm ;;
  npv_atm <- _price_berm h berm_atm s_atm ;;
  target <- gets (fun p => bbg_npv (cfg p)) ;;
  if Reqb target 0 then                           (* not self.bbg_npv *)
    s_atm <- attr "sigma_atm" sigma_atm ;;
    assign (with_sigma_inv s_atm) ;;
    assign (with_delta_spread 0) ;;
    s_atm <- attr "sigma_atm" sigma_atm ;;
    assign (with_sigma_total s_atm) ;;
    '(_, b) <- _build_berm ;;
    assign (with_berm b) ;;
    h <- market_attr "yts_h" yts_h ;;
    b <- attr "berm" berm ;;
    s_tot <- attr "sigma_total" sigma_total ;;
    p <- _price_berm h b s_tot ;;
    assign (with_npv p)
  else
    s_inv <- _inverse_solve target ;;
    assign (with_sigma_inv s_inv) ;;
    s_inv <- attr "sigma_inv" sigma_inv ;;
    s_atm <- attr "sigma_atm" sigma_atm ;;
    assign (with_delta_spread (s_inv - s_atm)) ;;
    s_inv <- attr "sigma_inv" sigma_inv ;;
    assign (with_sigma_total s_inv) ;;
    '(_, b) <- _build_berm ;;
    assign (with_berm b) ;;
    h <- market_attr "yts_h" yts_h ;;
    b <- attr "berm" berm ;;
    s_tot <- attr "sigma_total" sigma_total ;;
    p <- _price_berm h b s_tot ;;
    assign (with_npv p).

(** *** Greeks (lines 469-558) *)

Definition _bump_dfs (bp : R) : M (list R) :=
  nd <- market_attr "node_dates" node_dates ;;
  ndf <- market_attr "node_dfs" node_dfs ;;
  v <- gets (fun p => val_date (cfg p)) ;;
  ret (map (fun p => snd p * exp (- bp / 10000 * yearFraction v (fst p)))
           (combine nd ndf)).

(** The body of the [try] block of [_reprice_with_dfs] (lines 477-488). *)
Definition reprice_body (ref ev : date) (dfs : list R) (sigma : R) : M R :=
  nd <- market_attr "node_dates" node_dates ;;
  h <- ext (fun d => build_curve ql d ref nd dfs) ;;
  ix <- ext (fun d => get_index ql d h) ;;
  c <- gets cfg ;;
  sc <- ext (fun d => make_schedule ql d (swap_start c) (swap_end c)) ;;
  s <- ext (fun d => make_ois ql d sc (strike c) ix) ;;
  s <- ext (fun d => set_discounting_engine ql d s h) ;;
  exd <- market_attr "ex_dates" ex_dates ;;
  let ed := filter (fun d => (ev <? d)%Z) exd in
  match ed with
  | [] => ret 0
  | _ :: _ =>
      sw <- ext (fun d => make_swaption ql d s ed) ;;
      _price_berm h sw sigma
  end.

Definition _reprice_with_dfs (ref ev : date) (dfs : list R) (sigma : R)
    : M R :=
  saved <- get_evaluationDate ;;
  set_evaluationDate ev ;;
  try_finally (reprice_body ref ev dfs sigma) (set_evaluationDate saved).

Definition _swap_npv_bumped (dfs : list R) : M R :=
  v <- gets (fun p => val_date (cfg p)) ;;
  nd <- market_attr "node_dates" node_dates ;;
  h <- ext (fun d => build_curve ql d v nd dfs) ;;
  ix <- ext (fun d => get_index ql d h) ;;
  c <- gets cfg ;;
  sc <- ext (fun d => make_schedule ql d (swap_start c) (swap_end c)) ;;
  s <- ext (fun d => make_ois ql d sc (strike c) ix) ;;
  s <- ext (fun d => set_discounting_engine ql d s h) ;;
  ext (fun d => swap_NPV ql d s).

(** [vega_bump] of [compute_greeks] (lines 530-538). *)
Definition vega_bump (bp : R) : M R :=
  bk <- _build_basket bp ;;
  calib <- gets (fun p => calib_a (cfg p)) ;;
  sig_atm_b <- (if calib then
                  h <- market_attr "yts_h" yts_h ;;
                  '(_, s) <- _calib_joint h bk ;;
                  ret s
                else
                  h <- market_attr "yts_h" yts_h ;;
                  _calib_sigma_atm h bk) ;;
  ds <- attr "delta_spread" delta_spread ;;
  let sig_total_b := sig_atm_b + ds in
  '(_, sw) <- _build_berm ;;
  h <- market_attr "yts_h" yts_h ;;
  _price_berm h sw sig_total_b.

(** Lines 546-553: the one-day roll. *)
Definition theta_roll (ref : date) (sigma : R) : M R :=
  do <- gets (fun p => do_theta (cfg p)) ;;
  if do then
    let nxt := (ref + 1)%Z in
    h <- market_attr "yts_c" yts_h ;;
    dfn <- ext (fun d => discount ql d h nxt) ;;
    nd <- market_attr "node_dates" node_dates ;;
    tdfs <- mapM (fun dt => x <- ext (fun d => discount ql d h dt) ;;
                            pydiv x dfn) nd ;;
    pt <- _reprice_with_dfs nxt nxt tdfs sigma ;;
    p0 <- attr "npv" npv ;;
    ret (pt - p0)
  else ret 0.

Definition compute_greeks : M unit :=
  ref <- gets (fun p => val_date (cfg p)) ;;
  sigma <- attr "sigma_total" sigma_total ;;
  c <- gets cfg ;;
  (* DV01 *)
  up <- _bump_dfs (dv01_bp c) ;;
  dn <- _bump_dfs (- dv01_bp c) ;;
  pu <- _reprice_with_dfs ref ref up sigma ;;
  pd <- _reprice_with_dfs ref ref dn sigma ;;
  dv01_ <- pydiv (pd - pu) (2 * dv01_bp c) ;;
  (* Gamma *)
  p0 <- attr "npv" npv ;;
  gamma <- pydiv (pu - 2 * p0 + pd) (gamma_bp c ^ 2) ;;
  (* Underlying DV01 *)
  su <- _swap_npv_bumped up ;;
  sd <- _swap_npv_bumped dn ;;
  udv01 <- pydiv (sd - su) (2 * dv01_bp c) ;;
  (* Delta *)
  let delta := if Rltb 1e-12 (Rabs udv01) then dv01_ / udv01 else 0 in
  (* Vega *)
  pv_up <- vega_bump (vega_bp c) ;;
  pv_dn <- vega_bump (- vega_bp c) ;;
  vega <- pydiv (pv_up - pv_dn) (2 * vega_bp c) ;;
  (* Theta *)
  theta <- theta_roll ref sigma ;;
  assign (with_greeks
            {| dv01 := dv01_; gamma_1bp := gamma; vega_1bp := vega;
               theta_1d := theta; delta_hedge := delta;
               underlying_dv01 := udv01 |}).

End Pricer.

Arguments ret {ql A} v _.
Arguments raise {ql A} e _.
Arguments bind {ql A B} m k _.
Arguments try_except {ql A} m h _.
Arguments try_finally {ql A} m f _.
Arguments lift {ql A} r _.
Arguments ext {ql A} f _.
Arguments gets {ql A} f _.
Arguments assign {ql} f _.
Arguments attr {ql A} name f _.
Arguments market_attr {ql A} name f _.
Arguments pydiv {ql} x y _.
Arguments print {ql} l _.
Arguments record_call {ql} c _.
Arguments when {ql} b m _.
Arguments foldM {ql A B} f l acc _.
Arguments mapM {ql A B} f l _.
Arguments run_optimizer {ql X} t f _.
Arguments run_rootfinder {ql} t f _.
Arguments minimize {ql X} tree opts f _.
Arguments get_evaluationDate {ql} _.
Arguments set_evaluationDate {ql} d _.

(** ** A full run *)

(** [pricer = BermudanPricer(cfg, mkt); pricer.setup(); pricer.calibrate();
    pricer.compute_greeks()]: run_and_export.py, [run_pricer] (lines 39-42);
    app.py, [api_price] (line 406); pricer.py, [main] (lines 834-840);
    excel_bridge.py, [main] (lines 292-295). *)
Definition run_pricer (ql : QuantLib) (sp : SciPy) (c : config) : M ql unit :=
  bind (assign (fun _ => __init__ ql c)) (fun _ =>
  bind (setup ql) (fun _ =>
  bind (calibrate ql sp) (fun _ =>
  compute_greeks ql sp))).

(** ** The market data sources *)

(** A shallow embedding of [src/bbg_fetcher.py] (the label tables,
    [labels_to_years], [load_curve_csv] and the dispatcher [fetch_all])
    and of [read_vol_sheet] of [src/excel_bridge.py].

    - A [str] is a Rocq [string], one character per code point below 256.
    - [float(s)] on a string is a parameter of the model (it returns
      the number or raises).
    - The configuration is a dict of dicts, as [yaml.safe_load] gives it
      for the shipped layout, and the mode and the file names are
      strings.
    - Bloomberg's API, the file system and NumPy's arrays are parameters
      of the dispatcher (the record [world]); progress lines written by
      [print] are not modelled, but the expressions they evaluate are. *)

From Stdlib Require Import Ascii.

Module Fetcher.

Inductive error : Type :=
| KeyError (key : string)
| IndexError
| TypeError
| ValueError (msg : string)
| External (code : nat).    (* raised by Bloomberg's API, the file system
                               or a parser of the environment *)

Inductive outcome (A : Type) : Type :=
| Returns (a : A)
| Raises (e : error).
Arguments Returns {A} a.
Arguments Raises {A} e.

Definition obind {A B} (r : outcome A) (k : A -> outcome B) : outcome B :=
  match r with
  | Returns a => k a
  | Raises e => Raises e
  end.

Declare Scope outcome_scope.
Delimit Scope outcome_scope with outcome.
Notation "x <- r ;; k" := (obind r (fun x => k))
  (at level 61, r at next level, right associativity) : outcome_scope.

(** ** The label tables (lines 29-44) *)

Definition EXPIRY_LABEL_TO_YEARS : list (string * R) :=
  [ ("1Mo", 1/12); ("2Mo", 2/12); ("3Mo", 3/12); ("6Mo", 6/12);
    ("9Mo", 9/12);
    ("1Yr", 1); ("2Yr", 2); ("3Yr", 3); ("4Yr", 4); ("5Yr", 5);
    ("6Yr", 6); ("7Yr", 7); ("8Yr", 8); ("9Yr", 9); ("10Yr", 10);
    ("12Yr", 12); ("15Yr", 15); ("20Yr", 20); ("25Yr", 25); ("30Yr", 30)
  ]%string.

Definition TENOR_LABEL_TO_YEARS : list (string * R) :=
  [ ("1Y", 1); ("2Y", 2); ("3Y", 3); ("4Y", 4); ("5Y", 5);
    ("6Y", 6); ("7Y", 7); ("8Y", 8); ("9Y", 9); ("10Y", 10);
    ("12Y", 12); ("15Y", 15); ("20Y", 20); ("25Y", 25); ("30Y", 30)
  ]%string.

(** [mapping[l]] on a dict literal with distinct keys. *)
Fixpoint dict_get {V} (mapping : list (string * V)) (l : string) : option V :=
  match mapping with
  | [] => None
  | (k, v) :: rest => if String.eqb k l then Some v else dict_get rest l
  end.

(** [np.array([mapping[l] for l in labels], dtype=float)]. *)
Fixpoint labels_to_years (labels : list string) (mapping : list (string * R))
    : outcome (list R) :=
  match labels with
  | [] => Returns []
  | l :: rest =>
      match dict_get mapping l with
      | None => Raises (KeyError l)
      | Some y =>
          (ys <- labels_to_years rest mapping ;; Returns (y :: ys))%outcome
      end
  end.

(** The labels of the surface that [fetch_vol_surface_bloomberg] builds
    (lines 134-137). *)
Definition bloomberg_expiry_labels : list string :=
  [ "1Mo"; "3Mo"; "6Mo"; "9Mo"; "1Yr"; "2Yr"; "3Yr"; "4Yr"; "5Yr";
    "6Yr"; "7Yr"; "8Yr"; "9Yr"; "10Yr"; "12Yr"; "15Yr"; "20Yr"; "25Yr"
  ]%string.

Definition bloomberg_tenor_labels : list string :=
  [ "1Y"; "2Y"; "3Y"; "4Y"; "5Y"; "6Y"; "7Y"; "8Y"; "9Y"; "10Y";
    "12Y"; "15Y"; "20Y"; "25Y"; "30Y" ]%string.

(** ** [load_curve_csv] (lines 241-252) *)

(** [c.isspace()] for a code point below 256. *)
Definition is_space (c : Ascii.ascii) : bool :=
  let n := Ascii.nat_of_ascii c in
  ((9 <=? n) && (n <=? 13) || (28 <=? n) && (n <=? 32)
   || (n =? 133) || (n =? 160))%nat.

Fixpoint lstrip (s : string) : string :=
  match s with
  | EmptyString => EmptyString
  | String c s' => if is_space c then lstrip s' else s
  end.

Fixpoint rstrip (s : string) : string :=
  match s with
  | EmptyString => EmptyString
  | String c s' =>
      match rstrip s' with
      | EmptyString => if is_space c then EmptyString else String c EmptyString
      | r => String c r
      end
  end.

(** [s.strip()]. *)
Definition strip (s : string) : string := rstrip (lstrip s).

(** [s.split(sep)] for a one-character separator. *)
Fixpoint split (sep : Ascii.ascii) (s : string) : list string :=
  match s with
  | EmptyString => [EmptyString]
  | String c s' =>
      if Ascii.eqb c sep then EmptyString :: split sep s'
      else match split sep s' with
           | p :: ps => String c p :: ps
           | [] => [String c EmptyString]
           end
  end.

(** [s.startswith(p)]. *)
Definition startswith (s p : string) : bool := String.prefix p s.

Section Csv.

(** [float(s)] on a string. *)
Variable float : string -> outcome R.

(** One turn of the loop (lines 246-251): [None] when the line is
    skipped, the node or the exception otherwise. *)
Definition csv_line (line : string) : option (outcome (string * R)) :=
  let line := strip line in
  if String.eqb line "" || startswith line "#" || startswith line "date"
  then None
  else
    match split ","%char line with
    | p0 :: p1 :: _ =>
        Some (df <- float (strip p1) ;; Returns (strip p0, df))%outcome
    | _ => None
    end.

(** The loop over the lines of the file. *)
Fixpoint load_curve_csv (lines : list string) : outcome (list (string * R)) :=
  match lines with
  | [] => Returns []
  | line :: rest =>
      match csv_line line with
      | None => load_curve_csv rest
      | Some r =>
          (node <- r ;;
           data <- load_curve_csv rest ;;
           Returns (node :: data))%outcome
      end
  end.

End Csv.

(** ** [fetch_all] (lines 297-370) *)

Section FetchAll.

Variable Cfg : Type.       (* the configuration dict *)
Variable Array : Type.     (* numpy.ndarray *)
Variable Npv : Type.       (* a value of benchmark.npv that is not None *)

Definition curve_rows : Type := list (string * R).

(** What the surface loaders return: values, expiry labels, tenor
    labels. *)
Definition surface : Type := (Array * list string * list string)%type.

Record world : Type := {
  (* cfg.get("data_source", {}).get("mode", "manual") *)
  data_source_mode : Cfg -> string;
  (* manual_cfg.get("curve_file", "") and manual_cfg.get("vol_file", "") *)
  manual_curve_file : Cfg -> string;
  manual_vol_file : Cfg -> string;
  (* cfg.get("benchmark", {}).get("npv") *)
  benchmark_npv : Cfg -> option Npv;
  _check_blpapi : bool;
  fetch_curve_bloomberg : Cfg -> outcome curve_rows;
  fetch_vol_surface_bloomberg : Cfg -> outcome surface;
  os_path_join : string -> string -> string;
  os_path_exists : string -> bool;
  (* load_curve_csv(path) and load_vol_csv(path): open and parse *)
  open_curve_csv : string -> outcome curve_rows;
  open_vol_csv : string -> outcome surface;
  load_curve_yaml : Cfg -> outcome curve_rows;
  load_vol_yaml : Cfg -> outcome surface;
  (* vol.shape *)
  shape : Array -> list nat
}.

(** The dict [result]: a key is absent ([None]) until it is assigned;
    the value of ["bbg_npv"] may itself be [None]. *)
Record result_dict : Type := {
  r_curve : option curve_rows;
  r_vol_surface : option Array;
  r_expiry_grid : option (list R);
  r_tenor_grid : option (list R);
  r_bbg_npv : option (option Npv)
}.

Definition empty_result : result_dict :=
  {| r_curve := None; r_vol_surface := None; r_expiry_grid := None;
     r_tenor_grid := None; r_bbg_npv := None |}.

Definition set_curve (v : curve_rows) (r : result_dict) : result_dict :=
  {| r_curve := Some v; r_vol_surface := r_vol_surface r;
     r_expiry_grid := r_expiry_grid r; r_tenor_grid := r_tenor_grid r;
     r_bbg_npv := r_bbg_npv r |}.

Definition set_vol_surface (v : Array) (r : result_dict) : result_dict :=
  {| r_curve := r_curve r; r_vol_surface := Some v;
     r_expiry_grid := r_expiry_grid r; r_tenor_grid := r_tenor_grid r;
     r_bbg_npv := r_bbg_npv r |}.

Definition set_expiry_grid (v : list R) (r : result_dict) : result_dict :=
  {| r_curve := r_curve r; r_vol_surface := r_vol_surface r;
     r_expiry_grid := Some v; r_tenor_grid := r_tenor_grid r;
     r_bbg_npv := r_bbg_npv r |}.

Definition set_tenor_grid (v : list R) (r : result_dict) : result_dict :=
  {| r_curve := r_curve r; r_vol_surface := r_vol_surface r;
     r_expiry_grid := r_expiry_grid r; r_tenor_grid := Some v;
     r_bbg_npv := r_bbg_npv r |}.

Definition set_bbg_npv (v : option Npv) (r : result_dict) : result_dict :=
  {| r_curve := r_curve r; r_vol_surface := r_vol_surface r;
     r_expiry_grid := r_expiry_grid r; r_tenor_grid := r_tenor_grid r;
     r_bbg_npv := Some v |}.

Variable w : world.

(** The f-string of lines 328 and 362 evaluates [vol.shape[0]] and
    [vol.shape[1]]. *)
Definition print_shape (vol : Array) : outcome unit :=
  match shape w vol with
  | _ :: _ :: _ => Returns tt
  | _ => Raises IndexError
  end.

(** Lines 324-328 and 359-362. *)
Definition store_surface (s : surface) (result : result_dict)
    : outcome result_dict :=
  let '(vol, exp_l, tnr_l) := s in
  let result := set_vol_surface vol result in
  (eg <- labels_to_years exp_l EXPIRY_LABEL_TO_YEARS ;;
   let result := set_expiry_grid eg result in
   tg <- labels_to_years tnr_l TENOR_LABEL_TO_YEARS ;;
   let result := set_tenor_grid tg result in
   _ <- print_shape vol ;;
   Returns result)%outcome.

(** Lines 219-234: always [None]. *)
Definition fetch_swaption_npv_bloomberg (cfg : Cfg) : option Npv := None.

(** Lines 313-334: the new mode and the dict. *)
Definition bloomberg_block (cfg : Cfg) (result : result_dict)
    : outcome (string * result_dict) :=
  if negb (_check_blpapi w) then Returns ("manual"%string, result)
  else
    (curve <- fetch_curve_bloomberg w cfg ;;
     let result := set_curve curve result in
     s <- fetch_vol_surface_bloomberg w cfg ;;
     result <- store_surface s result ;;
     let npv := match fetch_swaption_npv_bloomberg cfg with
                | Some v => Some v
                | None => benchmark_npv w cfg
                end in
     Returns ("bloomberg"%string, set_bbg_npv npv result))%outcome.

Definition nonempty (s : string) : bool := negb (String.eqb s "").

(** Lines 336-365. *)
Definition manual_block (cfg : Cfg) (config_dir : string)
    (result : result_dict) : outcome result_dict :=
  let curve_file := manual_curve_file w cfg in
  let curve_path := if nonempty curve_file
                    then os_path_join w config_dir curve_file
                    else ""%string in
  (curve <- (if nonempty curve_file && os_path_exists w curve_path
             then open_curve_csv w curve_path
             else load_curve_yaml w cfg) ;;
   let result := set_curve curve result in
   let vol_file := manual_vol_file w cfg in
   let vol_path := if nonempty vol_file
                   then os_path_join w config_dir vol_file
                   else ""%string in
   s <- (if nonempty vol_file && os_path_exists w vol_path
         then open_vol_csv w vol_path
         else load_vol_yaml w cfg) ;;
   result <- store_surface s result ;;
   Returns (set_bbg_npv (benchmark_npv w cfg) result))%outcome.

Definition fetch_all (cfg : Cfg) (config_dir : string) : outcome result_dict :=
  let mode := data_source_mode w cfg in
  let result := empty_result in
  (x <- (if String.eqb mode "bloomberg" then bloomberg_block cfg result
         else Returns (mode, result)) ;;
   let '(mode, result) := x in
   result <- (if String.eqb mode "manual"
              then manual_block cfg config_dir result
              else Returns result) ;;
   match r_bbg_npv result with
   | Some (Some _) => Returns result
   | _ => Raises (ValueError
            "benchmark.npv is required in config (target NPV for inverse calibration)")
   end)%outcome.

End FetchAll.

End Fetcher.

(** ** [read_vol_sheet] of [src/excel_bridge.py] (lines 112-139) *)

Module ExcelBridge.
Import Fetcher.

Section Sheets.

Variable Cell : Type.                (* a cell value, as openpyxl gives it *)
Variable is_None : Cell -> bool.     (* [c is None] *)
Variable str : Cell -> string.       (* [str(c)] *)
Variable float : Cell -> outcome R.  (* [float(c)] *)

(** Lines 133-136: [TypeError] and [ValueError] are caught. *)
Definition float_or_zero (c : Cell) : outcome R :=
  match float c with
  | Raises TypeError => Returns 0
  | Raises (ValueError _) => Returns 0
  | r => r
  end.

(** The loop of lines 132-136 over the cells of a slice. *)
Fixpoint row_values (cells : list Cell) : outcome (list R) :=
  match cells with
  | [] => Returns []
  | c :: rest =>
      (v <- float_or_zero c ;;
       vs <- row_values rest ;;
       Returns (v :: vs))%outcome
  end.

(** The loop of lines 127-137 over [rows[1:]]: the expiry labels and the
    values; [n] is [len(tenor_labels)]. *)
Fixpoint data_rows (n : nat) (rows : list (list Cell))
    : outcome (list string * list (list R)) :=
  match rows with
  | [] => Returns ([], [])
  | row :: rest =>
      match row with
      | [] => Raises IndexError
      | c0 :: _ =>
          if is_None c0 then data_rows n rest
          else
            (vals <- row_values (firstn n (tl row)) ;;
             r <- data_rows n rest ;;
             Returns (strip (str c0) :: fst r, vals :: snd r))%outcome
      end
  end.

(** [ws] is [None] when the workbook has no sheet of that name; the
    result [None] stands for the triple [(None, None, None)]. *)
Definition read_vol_sheet (ws : option (list (list Cell)))
    : outcome (option (list (list R) * list string * list string)) :=
  match ws with
  | None => Returns None
  | Some [] => Returns None
  | Some (header :: rest) =>
      let tenor_labels :=
        map (fun c => strip (str c))
            (filter (fun c => negb (is_None c)) (tl header)) in
      (r <- data_rows (length tenor_labels) rest ;;
       Returns (Some (snd r, fst r, tenor_labels)))%outcome
  end.

End Sheets.

End ExcelBridge.

(** ** The sigmoid of the joint fit in binary64 *)

From Stdlib Require Floats.

(** [_inv_logit] (lines 375-378) in the arithmetic Python computes it in:
    IEEE 754 binary64, round to nearest even.  [math.exp] is the C
    library's function; [libm_exp] holds its value at the one argument
    used below. *)
Module Binary64.
Import Floats.
#[local] Open Scope float_scope.

(** 0.001 is read, as by Python, as the nearest binary64 value. *)
#[warnings="-inexact-float"]
Definition A_MIN : float := 0.001.
Definition A_MAX : float := 0.50.

(** Lines 377-378, given [e], the value of [math.exp(-float(x))]. *)
Definition _inv_logit_of_exp (e : float) : float :=
  let t := 1.0 / (1.0 + e) in
  A_MIN + t * (A_MAX - A_MIN).

Definition _inv_logit (math_exp : float -> float) (x : float) : float :=
  _inv_logit_of_exp (math_exp (- x)).

(** [math.exp(-37.0)] is [0x1.898471fca6055p-54], about 8.533e-17. *)
Definition libm_exp (x : float) : float :=
  if x =? -37 then 0x1.898471fca6055p-54 else nan.

(** The largest [e] that [1.0 + e] absorbs, and the largest finite
    value [math.exp] returns an overflow short of. *)
Definition thirty_seven : float := 37.
Definition half_ulp_of_one : float := 0x1p-53.
Definition largest_finite : float := 0x1.fffffffffffffp+1023.

End Binary64.

(* ================================================================= *)
(** * Part II: properties *)
(* ================================================================= *)

(** ** Boolean comparisons *)

Lemma Rleb_true x y : Rleb x y = true <-> x <= y.
Proof. unfold Rleb. destruct (Rle_dec x y); split; auto; discriminate. Qed.

Lemma Rleb_false x y : Rleb x y = false <-> y < x.
Proof.
  unfold Rleb. destruct (Rle_dec x y); split; intro; try discriminate; lra.
Qed.

Lemma Rltb_true x y : Rltb x y = true <-> x < y.
Proof. unfold Rltb. destruct (Rlt_dec x y); split; auto; discriminate. Qed.

Lemma Rltb_false x y : Rltb x y = false <-> y <= x.
Proof.
  unfold Rltb. destruct (Rlt_dec x y); split; intro; try discriminate; lra.
Qed.

Lemma Reqb_true x y : Reqb x y = true <-> x = y.
Proof. unfold Reqb. destruct (Req_dec_T x y); split; auto; discriminate. Qed.

Lemma Reqb_false x y : Reqb x y = false <-> x <> y.
Proof.
  unfold Reqb. destruct (Req_dec_T x y); split; intro; try discriminate;
    auto; contradiction.
Qed.

Lemma Reqb_refl x : Reqb x x = true.
Proof. apply Reqb_true; reflexivity. Qed.

(** Decides the comparisons of a goal whose operands are numerals. *)
Ltac Rdecide :=
  repeat match goal with
    | |- context [Rleb ?x ?y] =>
        first [ replace (Rleb x y) with true by (symmetry; apply Rleb_true; lra)
              | replace (Rleb x y) with false by (symmetry; apply Rleb_false; lra) ]
    | |- context [Rltb ?x ?y] =>
        first [ replace (Rltb x y) with true by (symmetry; apply Rltb_true; lra)
              | replace (Rltb x y) with false by (symmetry; apply Rltb_false; lra) ]
    | |- context [Reqb ?x ?y] =>
        first [ replace (Reqb x y) with true by (symmetry; apply Reqb_true; lra)
              | replace (Reqb x y) with false by (symmetry; apply Reqb_false; lra) ]
    end.

(** ** Closed-form basket prices *)

Module BachelierFacts.
Import Bachelier.

Lemma erf_odd x : erf (- x) = - erf x.
Proof.
  unfold erf. replace (- x * - x) with (x * x) by ring. ring.
Qed.

Lemma erf_0 : erf 0 = 0.
Proof. unfold erf. ring. Qed.

(** The two branches of the receiver price. *)
Lemma bachelier_receiver_normal F K sigma T annuity :
  0 < sigma -> 0 < T ->
  bachelier_receiver F K sigma T annuity
  = annuity * ((K - F) * (0.5 * (1 + erf (- ((F - K) / (sigma * sqrt T)) / sqrt 2)))
               + sigma * sqrt T
                 * (exp (- 0.5 * ((F - K) / (sigma * sqrt T))
                         * ((F - K) / (sigma * sqrt T))) / sqrt (2 * PI))).
Proof.
  intros Hs HT. unfold bachelier_receiver.
  replace (Rleb sigma 0) with false by (symmetry; apply Rleb_false; lra).
  replace (Rleb T 0) with false by (symmetry; apply Rleb_false; lra).
  reflexivity.
Qed.

Lemma bachelier_receiver_intrinsic F K sigma T annuity :
  sigma <= 0 \/ T <= 0 ->
  bachelier_receiver F K sigma T annuity = annuity * Rmax (K - F) 0.
Proof.
  intros H. unfold bachelier_receiver.
  replace (Rleb sigma 0 || Rleb T 0) with true; [reflexivity|].
  symmetry. apply orb_true_iff. destruct H; [left | right]; apply Rleb_true; lra.
Qed.

(** C6. Put-call parity of the closed-form basket prices: for every
    forward, strike, volatility, time to expiry and annuity, the receiver
    price minus the payer price is [annuity * (K - F)], in the branch of
    the normal formula ([sigma > 0] and [T > 0]) and in the branch of the
    intrinsic value alike. *)
Theorem bachelier_put_call_parity (F K sigma T annuity : R) :
  bachelier_receiver F K sigma T annuity - bachelier_payer F K sigma T annuity
  = annuity * (K - F).
Proof.
  unfold bachelier_receiver, bachelier_payer.
  destruct (Rleb sigma 0 || Rleb T 0).
  - assert (H : Rmax (K - F) 0 - Rmax (F - K) 0 = K - F).
    { unfold Rmax.
      destruct (Rle_dec (K - F) 0); destruct (Rle_dec (F - K) 0); lra. }
    replace (annuity * Rmax (K - F) 0 - annuity * Rmax (F - K) 0)
      with (annuity * (Rmax (K - F) 0 - Rmax (F - K) 0)) by ring.
    rewrite H. reflexivity.
  - cbv zeta.
    set (d := (F - K) / (sigma * sqrt T)).
    replace (- d / sqrt 2) with (- (d / sqrt 2)) by (unfold Rdiv; ring).
    rewrite erf_odd.
    generalize (erf (d / sqrt 2)) (exp (-0.5 * d * d) / sqrt (2 * PI)) (sqrt T).
    intros e p r. replace 0.5 with (/ 2) by lra. field.
Qed.

End BachelierFacts.

(** ** Volatility surface interpolator *)

Module VolInterpFacts.
Import VolInterp.

Lemma item_nth {A} (l : list A) i d :
  (i < length l)%nat -> item l i = Ok (nth i l d).
Proof.
  intro H. unfold item. rewrite (nth_error_nth' l d H). reflexivity.
Qed.

Lemma increasing_strong g : strictly_increasing g -> StronglySorted Rlt g.
Proof.
  apply Sorted_StronglySorted. intros x y z; apply Rlt_trans.
Qed.

Lemma increasing_nth_lt g : StronglySorted Rlt g ->
  forall i j, (i < j)%nat -> (j < length g)%nat -> nth i g 0 < nth j g 0.
Proof.
  induction 1 as [|y g Hs IH Hall]; intros i j Hij Hj; simpl in Hj; [lia|].
  destruct j as [|j]; [lia|]. destruct i as [|i]; simpl.
  - rewrite Forall_forall in Hall. apply Hall. apply nth_In. lia.
  - apply IH; lia.
Qed.

Lemma searchsorted_nth g : StronglySorted Rlt g ->
  forall i, (i < length g)%nat -> searchsorted g (nth i g 0) = i.
Proof.
  induction 1 as [|y g Hs IH Hall]; intros i Hi; simpl in Hi; [lia|].
  destruct i as [|i]; simpl.
  - replace (Rltb y y) with false by (symmetry; apply Rltb_false; lra).
    reflexivity.
  - assert (Hlt : y < nth i g 0).
    { rewrite Forall_forall in Hall. apply Hall. apply nth_In. lia. }
    replace (Rltb y (nth i g 0)) with true by (symmetry; apply Rltb_true; lra).
    rewrite IH by lia. reflexivity.
Qed.

Lemma clip_inside x lo hi : lo <= x <= hi -> clip x lo hi = x.
Proof.
  intros [H1 H2]. unfold clip, Rmin, Rmax.
  destruct (Rle_dec x lo); destruct (Rle_dec _ hi); lra.
Qed.

(** What one axis of the lookup computes at a grid point: the clamp
    leaves the query alone, the upper bracket is the point itself, and
    the weight picks it. *)
Lemma axis_on_grid g i :
  strictly_increasing g -> (i < length g)%nat ->
  let x := nth i g 0 in
  exists lo hi,
    item g 0 = Ok lo /\ item_last g = Ok hi /\ clip x lo hi = x
    /\ Nat.min (searchsorted g x) (length g - 1) = i
    /\ item g i = Ok x
    /\ item g (Nat.max (i - 1) 0) = Ok (nth (i - 1) g 0)
    /\ (i = 0%nat \/ (0 < i)%nat /\ x <> nth (i - 1) g 0).
Proof.
  intros Hinc Hi x. apply increasing_strong in Hinc.
  exists (nth 0 g 0), (nth (length g - 1) g 0).
  assert (H0 : (0 < length g)%nat) by lia.
  repeat split.
  - apply item_nth; lia.
  - destruct g; [simpl in Hi; lia|]. unfold item_last. apply item_nth. simpl; lia.
  - apply clip_inside. unfold x. split.
    + destruct i; [lra|]. apply Rlt_le, increasing_nth_lt; auto; lia.
    + destruct (Nat.eq_dec i (length g - 1)) as [->|Hne]; [lra|].
      apply Rlt_le, increasing_nth_lt; auto; lia.
  - unfold x. rewrite searchsorted_nth by auto. lia.
  - apply item_nth; lia.
  - rewrite Nat.max_0_r. apply item_nth; lia.
  - destruct i; [left; reflexivity | right]. split; [lia|].
    unfold x. apply Rgt_not_eq. apply increasing_nth_lt; auto; lia.
Qed.

Lemma mat_item_shaped vm rows cols i j :
  shaped vm rows cols -> (i < rows)%nat -> (j < cols)%nat ->
  mat_item vm i j = Ok (nth j (nth i vm []) 0).
Proof.
  intros [Hr Hc] Hi Hj. unfold mat_item.
  rewrite (item_nth vm i []) by lia. simpl.
  apply item_nth. rewrite Forall_forall in Hc. rewrite Hc; [lia|].
  apply nth_In. lia.
Qed.

(** C7. On strictly increasing expiry and tenor grids, with a matrix of
    their shape, a query that is exactly the grid point
    [(expiry_grid[i], tenor_grid[j])] returns exactly the stored value
    [vol_mat[i, j]]. *)
Theorem vol_interp_on_grid (vol_mat : list (list R)) (expiry_grid tenor_grid : list R)
    (i j : nat) :
  strictly_increasing expiry_grid -> strictly_increasing tenor_grid ->
  shaped vol_mat (length expiry_grid) (length tenor_grid) ->
  (i < length expiry_grid)%nat -> (j < length tenor_grid)%nat ->
  vol_interp (nth i expiry_grid 0) (nth j tenor_grid 0)
             vol_mat expiry_grid tenor_grid
  = Ok (nth j (nth i vol_mat []) 0)
  /\ mat_item vol_mat i j = Ok (nth j (nth i vol_mat []) 0).
Proof.
  intros He Ht Hsh Hi Hj.
  split; [|eapply mat_item_shaped; eauto].
  destruct (axis_on_grid expiry_grid i He Hi)
    as (elo & ehi & E1 & E2 & E3 & E4 & E5 & E6 & E7).
  destruct (axis_on_grid tenor_grid j Ht Hj)
    as (tlo & thi & T1 & T2 & T3 & T4 & T5 & T6 & T7).
  unfold vol_interp.
  rewrite E1, E2, T1, T2. cbn [rbind]. cbv zeta.
  rewrite E3, T3, E4, T4, E5, E6, T5, T6. cbn [rbind].
  rewrite !Nat.max_0_r.
  rewrite (mat_item_shaped _ _ _ (i - 1) (j - 1) Hsh) by lia.
  rewrite (mat_item_shaped _ _ _ i (j - 1) Hsh) by lia.
  rewrite (mat_item_shaped _ _ _ (i - 1) j Hsh) by lia.
  rewrite (mat_item_shaped _ _ _ i j Hsh) by lia.
  cbn [rbind]. f_equal.
  destruct E7 as [-> | [Hi0 Hne]]; destruct T7 as [-> | [Hj0 Hnt]];
    change (0 - 1)%nat with 0%nat;
    rewrite ?Reqb_refl;
    repeat match goal with
      | H : ?x <> ?y |- context [Reqb ?x ?y] =>
          replace (Reqb x y) with false by (symmetry; apply Reqb_false; exact H)
      end.
  - ring.
  - field. intro Hz. apply Hnt. lra.
  - field. intro Hz. apply Hne. lra.
  - field. split; intro Hz; [apply Hnt | apply Hne]; lra.
Qed.

End VolInterpFacts.

(** ** Reasoning about [M] *)

Section Reasoning.

Variable ql : QuantLib.
Variable sp : SciPy.

Create HintDb unchanged_db.

(** A computation that leaves the whole state as it found it. *)
Definition unchanged {A} (m : M ql A) : Prop := forall s, snd (m s) = s.

Lemma unchanged_ret {A} (v : A) : unchanged (ret (ql := ql) v).
Proof. intro s; reflexivity. Qed.

Lemma unchanged_raise {A} e : unchanged (raise (ql := ql) (A := A) e).
Proof. intro s; reflexivity. Qed.

Lemma unchanged_lift {A} (r : result A) : unchanged (lift (ql := ql) r).
Proof. intro s; reflexivity. Qed.

Lemma unchanged_ext {A} (f : date -> result A) : unchanged (ext (ql := ql) f).
Proof. intro s; reflexivity. Qed.

Lemma unchanged_gets {A} (f : pricer ql -> A) : unchanged (gets f).
Proof. intro s; reflexivity. Qed.

Lemma unchanged_attr {A} name (f : pricer ql -> option A) :
  unchanged (attr name f).
Proof. intro s; unfold attr; destruct (f (self ql s)); reflexivity. Qed.

Lemma unchanged_market_attr {A} name (f : market ql -> A) :
  unchanged (market_attr name f).
Proof.
  intro s; unfold market_attr; destruct (mkt_attrs ql (self ql s)); reflexivity.
Qed.

Lemma unchanged_pydiv x y : unchanged (pydiv (ql := ql) x y).
Proof. intro s; unfold pydiv; destruct (Reqb y 0); reflexivity. Qed.

Lemma unchanged_bind {A B} (m : M ql A) (k : A -> M ql B) :
  unchanged m -> (forall v, unchanged (k v)) -> unchanged (bind m k).
Proof.
  intros Hm Hk s. unfold bind. specialize (Hm s).
  destruct (m s) as [[v|e] s1]; simpl in *; subst; auto. apply Hk.
Qed.

Lemma unchanged_try_except {A} (m : M ql A) (h : exn -> M ql A) :
  unchanged m -> (forall e, unchanged (h e)) -> unchanged (try_except m h).
Proof.
  intros Hm Hh s. unfold try_except. specialize (Hm s).
  destruct (m s) as [[v|e] s1]; simpl in *; subst; auto. apply Hh.
Qed.

Lemma unchanged_mapM {A B} (f : A -> M ql B) l :
  (forall x, unchanged (f x)) -> unchanged (mapM f l).
Proof.
  intro Hf. induction l as [|x l IH]; simpl.
  - apply unchanged_ret.
  - apply unchanged_bind; [apply Hf|]. intro y.
    apply unchanged_bind; [apply IH|]. intro ys. apply unchanged_ret.
Qed.

Lemma unchanged_foldM {A B} (f : B -> A -> M ql B) l :
  (forall acc x, unchanged (f acc x)) -> forall acc, unchanged (foldM f l acc).
Proof.
  intro Hf. induction l as [|x l IH]; intro acc; simpl.
  - apply unchanged_ret.
  - apply unchanged_bind; [apply Hf|]. intro acc'. apply IH.
Qed.

(** Splits an [unchanged] goal along the structure of the computation. *)
Ltac unchanged_step :=
  first
    [ solve [auto 1 with unchanged_db nocore]
    | progress cbv zeta
    | apply unchanged_ret | apply unchanged_raise | apply unchanged_lift
    | apply unchanged_ext | apply unchanged_gets | apply unchanged_attr
    | apply unchanged_market_attr | apply unchanged_pydiv
    | apply unchanged_bind; [|intro]
    | apply unchanged_try_except; [|intro]
    | apply unchanged_mapM; intro
    | apply unchanged_foldM; intros
    | match goal with
      | |- unchanged (match ?x with _ => _ end) => destruct x
      | |- unchanged (if ?b then _ else _) => destruct b
      end ].

Ltac unchanged_tac := repeat unchanged_step.

Lemma unchanged__build_berm : unchanged (_build_berm ql).
Proof. unfold _build_berm. unchanged_tac. Qed.
#[local] Hint Resolve unchanged__build_berm : unchanged_db.

Lemma unchanged__price_berm h sw sigma : unchanged (_price_berm ql h sw sigma).
Proof. unfold _price_berm. unchanged_tac. Qed.
#[local] Hint Resolve unchanged__price_berm : unchanged_db.

Lemma unchanged__bachelier f v T an : unchanged (_bachelier ql f v T an).
Proof. unfold _bachelier. unchanged_tac. Qed.
#[local] Hint Resolve unchanged__bachelier : unchanged_db.

Lemma unchanged_basket_schedule sd ex : unchanged (basket_schedule ql sd ex).
Proof. unfold basket_schedule. unchanged_tac. Qed.
#[local] Hint Resolve unchanged_basket_schedule : unchanged_db.

Lemma unchanged_basket_entry_for h ix sd bp ex :
  unchanged (basket_entry_for ql h ix sd bp ex).
Proof. unfold basket_entry_for. unchanged_tac. Qed.
#[local] Hint Resolve unchanged_basket_entry_for : unchanged_db.

Lemma unchanged__build_basket bp : unchanged (_build_basket ql bp).
Proof. unfold _build_basket. unchanged_tac. Qed.
#[local] Hint Resolve unchanged__build_basket : unchanged_db.

Lemma unchanged_objective_term eng err it :
  unchanged (objective_term ql eng err it).
Proof. unfold objective_term. unchanged_tac. Qed.
#[local] Hint Resolve unchanged_objective_term : unchanged_db.

Lemma unchanged_atm_objective h bk x : unchanged (atm_objective ql h bk x).
Proof. unfold atm_objective. unchanged_tac. Qed.
#[local] Hint Resolve unchanged_atm_objective : unchanged_db.

Lemma unchanged_joint_objective h bk x : unchanged (joint_objective ql h bk x).
Proof. unfold joint_objective. unchanged_tac. Qed.
#[local] Hint Resolve unchanged_joint_objective : unchanged_db.

Lemma unchanged_inverse_residual target x :
  unchanged (inverse_residual ql target x).
Proof. unfold inverse_residual. unchanged_tac. Qed.
#[local] Hint Resolve unchanged_inverse_residual : unchanged_db.

Lemma unchanged__bump_dfs bp : unchanged (_bump_dfs ql bp).
Proof. unfold _bump_dfs. unchanged_tac. Qed.
#[local] Hint Resolve unchanged__bump_dfs : unchanged_db.

Lemma unchanged__swap_npv_bumped dfs : unchanged (_swap_npv_bumped ql dfs).
Proof. unfold _swap_npv_bumped. unchanged_tac. Qed.
#[local] Hint Resolve unchanged__swap_npv_bumped : unchanged_db.

Lemma unchanged_run_optimizer {X} (t : optimizer X) (f : X -> M ql R) :
  (forall x, unchanged (f x)) -> unchanged (run_optimizer t f).
Proof.
  intro Hf. induction t as [x ok | x k IH]; simpl.
  - apply unchanged_ret.
  - apply unchanged_bind; [apply Hf|]. intro y. apply IH.
Qed.

Lemma unchanged_run_rootfinder (t : rootfinder) (f : R -> M ql R) :
  (forall x, unchanged (f x)) -> unchanged (run_rootfinder t f).
Proof.
  intro Hf. induction t as [x | x k IH | e]; simpl.
  - apply unchanged_ret.
  - apply unchanged_bind; [apply Hf|]. intro y. apply IH.
  - apply unchanged_raise.
Qed.

Lemma unchanged_reprice_body ref ev dfs sigma :
  unchanged (reprice_body ql ref ev dfs sigma).
Proof. unfold reprice_body. unchanged_tac. Qed.

(** [_reprice_with_dfs] sets the evaluation date and puts the saved one
    back in its [finally] clause, whatever the body did. *)
Lemma unchanged__reprice_with_dfs ref ev dfs sigma :
  unchanged (_reprice_with_dfs ql ref ev dfs sigma).
Proof.
  intro s. unfold _reprice_with_dfs, bind, get_evaluationDate,
    set_evaluationDate, try_finally.
  match goal with
  | |- context [reprice_body ql ref ev dfs sigma ?s1] =>
      pose proof (unchanged_reprice_body ref ev dfs sigma s1) as U;
      destruct (reprice_body ql ref ev dfs sigma s1) as [r s2]
  end.
  simpl in U. subst s2. destruct s; reflexivity.
Qed.
#[local] Hint Resolve unchanged__reprice_with_dfs : unchanged_db.

(** *** What the calibration procedures may change *)

(** The calls of the inverse-fit stage: [brentq], and the fallback
    simplex search (the only [minimize] with 300 iterations). *)
Definition is_inverse_call (c : solver_call) : bool :=
  match c with
  | CallBrentq _ _ => true
  | CallMinimize o => Nat.eqb (maxiter o) 300
  end.

Definition inverse_calls (s : state ql) : list solver_call :=
  filter is_inverse_call (scipy_calls ql s).

(** [keeps s s']: the step from [s] to [s'] changed neither [self] nor
    the evaluation date, and called no solver of the inverse-fit stage
    (it may have printed, and called [minimize] for a basket fit). *)
Definition keeps (s s' : state ql) : Prop :=
  self ql s' = self ql s
  /\ evaluationDate ql s' = evaluationDate ql s
  /\ inverse_calls s' = inverse_calls s.

Definition preserves {A} (m : M ql A) : Prop := forall s, keeps s (snd (m s)).

Lemma keeps_refl s : keeps s s.
Proof. repeat split. Qed.

Lemma keeps_trans s1 s2 s3 : keeps s1 s2 -> keeps s2 s3 -> keeps s1 s3.
Proof.
  intros (A1 & B1 & C1) (A2 & B2 & C2). repeat split; congruence.
Qed.

Lemma unchanged_preserves {A} (m : M ql A) : unchanged m -> preserves m.
Proof. intros U s. rewrite U. apply keeps_refl. Qed.

Lemma preserves_bind {A B} (m : M ql A) (k : A -> M ql B) :
  preserves m -> (forall v, preserves (k v)) -> preserves (bind m k).
Proof.
  intros Hm Hk s. unfold bind. specialize (Hm s).
  destruct (m s) as [[v|e] s1]; simpl in *; auto.
  eapply keeps_trans; [exact Hm | apply Hk].
Qed.

Lemma preserves_try_except {A} (m : M ql A) (h : exn -> M ql A) :
  preserves m -> (forall e, preserves (h e)) -> preserves (try_except m h).
Proof.
  intros Hm Hh s. unfold try_except. specialize (Hm s).
  destruct (m s) as [[v|e] s1]; simpl in *; auto.
  eapply keeps_trans; [exact Hm | apply Hh].
Qed.

Lemma preserves_print l : preserves (print (ql := ql) l).
Proof. intro s. repeat split. Qed.

Lemma preserves_when b (m : M ql unit) : preserves m -> preserves (when b m).
Proof.
  intros Hm. destruct b; simpl; [exact Hm|].
  apply unchanged_preserves, unchanged_ret.
Qed.

Lemma preserves_record_call c :
  is_inverse_call c = false -> preserves (record_call (ql := ql) c).
Proof.
  intros Hc s. repeat split. unfold inverse_calls, record_call. simpl.
  rewrite filter_app. simpl. rewrite Hc. apply app_nil_r.
Qed.

Lemma preserves_minimize {X} (tree : nm_options -> optimizer X) opts f :
  Nat.eqb (maxiter opts) 300 = false ->
  (forall x, unchanged (f x)) -> preserves (minimize tree opts f).
Proof.
  intros Ho Hf. unfold minimize. apply preserves_bind.
  - apply preserves_record_call. exact Ho.
  - intros _. apply unchanged_preserves, unchanged_run_optimizer, Hf.
Qed.

Lemma preserves__calib_sigma_atm h bk : preserves (_calib_sigma_atm ql sp h bk).
Proof.
  unfold _calib_sigma_atm. apply preserves_bind.
  - apply preserves_minimize; [reflexivity|]. intro x. auto with unchanged_db.
  - intros [x ok]. apply preserves_bind.
    + apply preserves_when, preserves_print.
    + intros _. apply unchanged_preserves, unchanged_ret.
Qed.

Lemma preserves__calib_joint h bk : preserves (_calib_joint ql sp h bk).
Proof.
  unfold _calib_joint. apply preserves_bind.
  - apply preserves_minimize; [reflexivity|]. intro x. auto with unchanged_db.
  - intros [x ok]. apply preserves_bind.
    + apply preserves_when, preserves_print.
    + intros _. apply unchanged_preserves, unchanged_ret.
Qed.

Lemma preserves_vega_bump bp : preserves (vega_bump ql sp bp).
Proof.
  unfold vega_bump.
  apply preserves_bind; [apply unchanged_preserves; auto with unchanged_db|].
  intro bk. apply preserves_bind; [apply unchanged_preserves, unchanged_gets|].
  intros [|]; (apply preserves_bind; [|intro sig]).
  - apply preserves_bind; [apply unchanged_preserves, unchanged_market_attr|].
    intro h. apply preserves_bind; [apply preserves__calib_joint|].
    intros [a_ s_]. apply unchanged_preserves, unchanged_ret.
  - apply unchanged_preserves. unchanged_tac.
  - apply preserves_bind; [apply unchanged_preserves, unchanged_market_attr|].
    intro h. apply preserves__calib_sigma_atm.
  - apply unchanged_preserves. unchanged_tac.
Qed.

End Reasoning.

(** ** Repricing under a shifted date *)

Section Repricing.

Variable ql : QuantLib.

Lemma bind_Ok_inv {A B} (m : M ql A) (k : A -> M ql B) s b s' :
  bind m k s = (Ok b, s') ->
  exists v s1, m s = (Ok v, s1) /\ k v s1 = (Ok b, s').
Proof.
  unfold bind. destruct (m s) as [[v|e] s1]; intro H; [|discriminate].
  exists v, s1. split; [reflexivity | exact H].
Qed.

Lemma bind_unchanged {A B} (m : M ql A) (k : A -> M ql B) s :
  unchanged ql m ->
  bind m k s = match fst (m s) with
               | Ok v => k v s
               | Raise e => (Raise e, s)
               end.
Proof.
  intro U. unfold bind. specialize (U s).
  destruct (m s) as [[v|e] s1]; simpl in *; subst; reflexivity.
Qed.

(** The swap [_reprice_with_dfs] rebuilds before it looks at the exercise
    dates (lines 477-482), under the evaluation date [ev]. *)
Definition reprice_swap (c : config) (nd : list date) (ref ev : date)
    (dfs : list R) : result (Handle ql * Swap ql) :=
  (h <- build_curve ql ev ref nd dfs ;;
   ix <- get_index ql ev h ;;
   sc <- make_schedule ql ev (swap_start c) (swap_end c) ;;
   s <- make_ois ql ev sc (strike c) ix ;;
   s <- set_discounting_engine ql ev s h ;;
   Ok (h, s))%result.

(** The exercise dates strictly after [ev]. *)
Definition live_dates (ev : date) (exd : list date) : list date :=
  filter (fun d => (ev <? d)%Z) exd.

Lemma live_dates_spec ev exd d :
  In d (live_dates ev exd) <-> In d exd /\ (ev < d)%Z.
Proof.
  unfold live_dates. rewrite filter_In. rewrite Z.ltb_lt. reflexivity.
Qed.

Lemma live_dates_nil ev exd :
  live_dates ev exd = [] <-> Forall (fun d => (d <= ev)%Z) exd.
Proof.
  unfold live_dates. induction exd as [|d exd IH]; simpl.
  - split; auto.
  - destruct (ev <? d)%Z eqn:E.
    + apply Z.ltb_lt in E. split; [discriminate|].
      intro H. inversion H; subst. lia.
    + apply Z.ltb_ge in E. rewrite IH. split.
      * intro H. constructor; assumption.
      * intro H. inversion H; assumption.
Qed.

Lemma bind_market_attr {A B} name (f : market ql -> A) (k : A -> M ql B) s m :
  mkt_attrs ql (self ql s) = Some m ->
  bind (market_attr name f) k s = k (f m) s.
Proof. intro H. unfold bind, market_attr. rewrite H. reflexivity. Qed.

Lemma bind_ext {A B} (f : date -> result A) (k : A -> M ql B) s :
  bind (ext f) k s = match f (evaluationDate ql s) with
                     | Ok v => k v s
                     | Raise e => (Raise e, s)
                     end.
Proof. unfold bind, ext. destruct (f _); reflexivity. Qed.

Lemma bind_gets {A B} (f : pricer ql -> A) (k : A -> M ql B) s :
  bind (gets f) k s = k (f (self ql s)) s.
Proof. reflexivity. Qed.

(** The value of a repricing under the evaluation date [ev], given the
    attributes [m] of [setup] and the pricer [p]: 0 when no exercise date
    is live, the oracle's price of the still-live exercise dates
    otherwise. *)
Definition reprice_value (p : pricer ql) (m : market ql) (ref ev : date)
    (dfs : list R) (sigma : R) : result R :=
  match reprice_swap (cfg ql p) (node_dates ql m) ref ev dfs with
  | Raise e => Raise e
  | Ok (h, sw) =>
      match live_dates ev (ex_dates ql m) with
      | [] => Ok 0
      | d :: ed =>
          (swpt <- make_swaption ql ev sw (d :: ed) ;;
           eng <- hw_engine ql ev h (a ql p) sigma
                    (fdm_t (cfg ql p)) (fdm_x (cfg ql p)) ;;
           swaption_NPV ql ev eng swpt)%result
      end
  end.

Lemma reprice_body_eq ref ev dfs sigma (s : state ql) m :
  mkt_attrs ql (self ql s) = Some m ->
  evaluationDate ql s = ev ->
  reprice_body ql ref ev dfs sigma s
  = (reprice_value (self ql s) m ref ev dfs sigma, s).
Proof.
  intros Hm Hev. unfold reprice_body, reprice_value, reprice_swap, live_dates.
  unfold date in *.
  rewrite (bind_market_attr _ _ _ _ _ Hm).
  rewrite bind_ext, Hev.
  destruct (build_curve ql ev ref (node_dates ql m) dfs) as [h|e];
    cbn [rbind]; [|reflexivity].
  rewrite bind_ext, Hev.
  destruct (get_index ql ev h) as [ix|e]; cbn [rbind]; [|reflexivity].
  rewrite bind_gets, bind_ext, Hev.
  destruct (make_schedule ql ev _ _) as [sc|e]; cbn [rbind]; [|reflexivity].
  rewrite bind_ext, Hev.
  destruct (make_ois ql ev sc _ ix) as [sw|e]; cbn [rbind]; [|reflexivity].
  rewrite bind_ext, Hev.
  destruct (set_discounting_engine ql ev sw h) as [sw'|e]; cbn [rbind];
    [|reflexivity].
  rewrite (bind_market_attr _ _ _ _ _ Hm).
  cbv zeta.
  destruct (filter (fun d => (ev <? d)%Z) (ex_dates ql m)) as [|d ed];
    [reflexivity|].
  rewrite bind_ext, Hev.
  destruct (make_swaption ql ev sw' (d :: ed)) as [swpt|e]; cbn [rbind];
    [|reflexivity].
  unfold _price_berm. rewrite !bind_gets, bind_ext, Hev.
  destruct (hw_engine ql ev h _ sigma _ _) as [eng|e]; cbn [rbind];
    [|reflexivity].
  unfold ext. rewrite Hev. reflexivity.
Qed.

(** [_reprice_with_dfs] in one equation: the state is left as it was. *)
Lemma _reprice_with_dfs_eq ref ev dfs sigma (s : state ql) m :
  mkt_attrs ql (self ql s) = Some m ->
  _reprice_with_dfs ql ref ev dfs sigma s
  = (reprice_value (self ql s) m ref ev dfs sigma, s).
Proof.
  intros Hm. unfold _reprice_with_dfs, bind, get_evaluationDate,
    set_evaluationDate, try_finally.
  rewrite (reprice_body_eq ref ev dfs sigma _ m); [|exact Hm|reflexivity].
  cbn [self evaluationDate stdout scipy_calls]. destruct s; reflexivity.
Qed.

(** C9. A repricing saves the global evaluation date, sets it to the
    supplied date for the repricing only and restores the saved date before
    it returns, also when the repricing raises: the caller finds the
    evaluation date (indeed the whole state) as it left it, and the value
    does not depend on the evaluation date the caller had set.  The
    repricing of the underlying swap under bumped discount factors never
    writes the evaluation date. *)
Theorem reprice_restores_evaluation_date
    (ref ev : date) (dfs : list R) (sigma : R) (s : state ql) :
  evaluationDate ql (snd (_reprice_with_dfs ql ref ev dfs sigma s))
  = evaluationDate ql s
  /\ snd (_reprice_with_dfs ql ref ev dfs sigma s) = s
  /\ (forall d0 : date,
        fst (_reprice_with_dfs ql ref ev dfs sigma
               (snd (set_evaluationDate d0 s)))
        = fst (_reprice_with_dfs ql ref ev dfs sigma s))
  /\ (forall e : exn,
        fst (_reprice_with_dfs ql ref ev dfs sigma s) = Raise e ->
        evaluationDate ql (snd (_reprice_with_dfs ql ref ev dfs sigma s))
        = evaluationDate ql s)
  /\ snd (_swap_npv_bumped ql dfs s) = s.
Proof.
  pose proof (unchanged__reprice_with_dfs ql ref ev dfs sigma s) as U.
  split; [rewrite U; reflexivity|]. split; [exact U|].
  split; [|split; [intros e _; rewrite U; reflexivity
                  | apply unchanged__swap_npv_bumped]].
  intro d0. unfold _reprice_with_dfs, bind, get_evaluationDate,
    set_evaluationDate, try_finally.
  cbn [fst snd evaluationDate stdout scipy_calls self].
  destruct (reprice_body ql ref ev dfs sigma _) as [r1 s3].
  reflexivity.
Qed.

End Repricing.

(** ** Weakest preconditions for [M] *)

(** Simplifies reads of attributes after assignments. *)
Ltac sproj :=
  cbn [self evaluationDate stdout scipy_calls cfg a mkt_attrs basket
       sigma_atm sigma_inv delta_spread sigma_total berm npv greeks
       with_a with_mkt_attrs with_basket with_sigma_atm with_sigma_inv
       with_delta_spread with_sigma_total with_berm with_npv with_greeks
       fst snd] in *.

Section WeakestPre.

Variable ql : QuantLib.

(** [wp m Q s]: running [m] from [s] ends, normally or by an exception,
    in an outcome that satisfies [Q]. *)
Definition wp {A} (m : M ql A) (Q : result A -> state ql -> Prop)
    (s : state ql) : Prop :=
  Q (fst (m s)) (snd (m s)).

Lemma wp_run {A} (m : M ql A) Q s r s' :
  wp m Q s -> m s = (r, s') -> Q r s'.
Proof. unfold wp. intros H E. rewrite E in H. exact H. Qed.

Lemma wp_bind {A B} (m : M ql A) (k : A -> M ql B) Q s :
  wp m (fun r s1 => match r with
                    | Ok v => wp (k v) Q s1
                    | Raise e => Q (Raise e) s1
                    end) s ->
  wp (bind m k) Q s.
Proof.
  unfold wp, bind. destruct (m s) as [[v|e] s1]; simpl; auto.
Qed.

Lemma wp_conseq {A} (m : M ql A) (Q1 Q2 : result A -> state ql -> Prop) s :
  wp m Q1 s -> (forall r s1, Q1 r s1 -> Q2 r s1) -> wp m Q2 s.
Proof. unfold wp. auto. Qed.

Lemma wp_ret {A} (v : A) Q s : Q (Ok v) s -> wp (ret v) Q s.
Proof. auto. Qed.

Lemma wp_ext {A} (f : date -> result A) Q s :
  Q (f (evaluationDate ql s)) s -> wp (ext f) Q s.
Proof. auto. Qed.

Lemma wp_lift {A} (r : result A) Q s : Q r s -> wp (lift r) Q s.
Proof. auto. Qed.

Lemma wp_raise {A} e (Q : result A -> state ql -> Prop) s :
  Q (Raise e) s -> wp (raise e) Q s.
Proof. auto. Qed.

Lemma wp_gets {A} (f : pricer ql -> A) Q s :
  Q (Ok (f (self ql s))) s -> wp (gets f) Q s.
Proof. auto. Qed.

Lemma wp_assign (f : pricer ql -> pricer ql) Q s :
  Q (Ok tt) {| evaluationDate := evaluationDate ql s; stdout := stdout ql s;
               scipy_calls := scipy_calls ql s; self := f (self ql s) |} ->
  wp (assign f) Q s.
Proof. auto. Qed.

Lemma wp_attr {A} name (f : pricer ql -> option A) Q s :
  match f (self ql s) with
  | Some v => Q (Ok v) s
  | None => Q (Raise (AttributeError name)) s
  end ->
  wp (attr name f) Q s.
Proof. unfold wp, attr. destruct (f (self ql s)); auto. Qed.

Lemma wp_market_attr {A} name (f : market ql -> A) Q s :
  match mkt_attrs ql (self ql s) with
  | Some m => Q (Ok (f m)) s
  | None => Q (Raise (AttributeError name)) s
  end ->
  wp (market_attr name f) Q s.
Proof. unfold wp, market_attr. destruct (mkt_attrs ql (self ql s)); auto. Qed.

Lemma wp_pydiv x y Q s :
  (y = 0 -> Q (Raise ZeroDivisionError) s) ->
  (y <> 0 -> Q (Ok (x / y)) s) ->
  wp (pydiv x y) Q s.
Proof.
  intros H0 H1. unfold wp, pydiv. destruct (Reqb y 0) eqn:E.
  - apply H0, Reqb_true, E.
  - apply H1, Reqb_false, E.
Qed.

(** A call that leaves the state alone. *)
Lemma wp_unchanged {A} (m : M ql A) Q s :
  unchanged ql m -> (forall r, m s = (r, s) -> Q r s) -> wp m Q s.
Proof.
  intros U H. unfold wp. specialize (U s).
  destruct (m s) as [r s1]. simpl in *. subst. apply H. reflexivity.
Qed.

(** A call that keeps [self], the evaluation date and the inverse-fit
    part of the trace. *)
Lemma wp_preserves {A} (m : M ql A) Q s :
  preserves ql m ->
  (forall r s1, m s = (r, s1) -> keeps ql s s1 -> Q r s1) -> wp m Q s.
Proof.
  intros P H. unfold wp. specialize (P s).
  destruct (m s) as [r s1]. simpl in *. apply H; auto.
Qed.

(** The pure value of [_price_berm] and of [_build_berm]. *)
Definition price_value (p : pricer ql) (d : date) (h : Handle ql)
    (sw : Swaption ql) (sigma : R) : result R :=
  (eng <- hw_engine ql d h (a ql p) sigma (fdm_t (cfg ql p)) (fdm_x (cfg ql p)) ;;
   swaption_NPV ql d eng sw)%result.

Lemma _price_berm_eq h sw sigma (s : state ql) :
  _price_berm ql h sw sigma s
  = (price_value (self ql s) (evaluationDate ql s) h sw sigma, s).
Proof.
  unfold _price_berm, price_value. rewrite !bind_gets, bind_ext.
  destruct (hw_engine ql _ h _ sigma _ _); reflexivity.
Qed.

Definition berm_value (p : pricer ql) (m : market ql) (d : date)
    : result (Swap ql * Swaption ql) :=
  (s <- make_ois ql d (schedule ql m) (strike (cfg ql p)) (index ql m) ;;
   s <- set_discounting_engine ql d s (yts_h ql m) ;;
   sw <- make_swaption ql d s (ex_dates ql m) ;;
   Ok (s, sw))%result.

Lemma _build_berm_eq (s : state ql) m :
  mkt_attrs ql (self ql s) = Some m ->
  _build_berm ql s = (berm_value (self ql s) m (evaluationDate ql s), s).
Proof.
  intro Hm. unfold _build_berm, berm_value.
  rewrite !(bind_market_attr _ _ _ _ _ _ Hm), bind_gets, bind_ext.
  destruct (make_ois ql _ _ _ _) as [sw|e]; cbn [rbind]; [|reflexivity].
  rewrite bind_ext.
  destruct (set_discounting_engine ql _ sw _) as [sw'|e]; cbn [rbind];
    [|reflexivity].
  rewrite (bind_market_attr _ _ _ _ _ _ Hm), bind_ext.
  destruct (make_swaption ql _ sw' _) as [b|e]; reflexivity.
Qed.

Lemma _build_berm_unset (s : state ql) :
  mkt_attrs ql (self ql s) = None ->
  _build_berm ql s = (Raise (AttributeError "yts_h"), s).
Proof.
  intro Hm. unfold _build_berm, bind, market_attr. rewrite Hm. reflexivity.
Qed.

Lemma wp_eq {A} (m : M ql A) Q s r :
  m s = (r, s) -> Q r s -> wp m Q s.
Proof. intros E H. unfold wp. rewrite E. exact H. Qed.

End WeakestPre.

(** ** [calibrate] without an external target *)

Section CalibrateNoTarget.

Variable ql : QuantLib.
Variable sp : SciPy.









End CalibrateNoTarget.

(** ** [compute_greeks] *)

Section Greeks.

Variable ql : QuantLib.
Variable sp : SciPy.


(** The discount factors [_bump_dfs(bp)] returns. *)
Definition bump_value (c : config) (m : market ql) (bp : R) : list R :=
  map (fun p => snd p * exp (- bp / 10000 * yearFraction (val_date c) (fst p)))
      (combine (node_dates ql m) (node_dfs ql m)).

Lemma _bump_dfs_eq bp (s : state ql) m :
  mkt_attrs ql (self ql s) = Some m ->
  _bump_dfs ql bp s = (Ok (bump_value (cfg ql (self ql s)) m bp), s).
Proof.
  intro Hm. unfold _bump_dfs.
  rewrite !(bind_market_attr _ _ _ _ _ _ Hm), bind_gets. reflexivity.
Qed.

Lemma _bump_dfs_unset bp (s : state ql) :
  mkt_attrs ql (self ql s) = None ->
  _bump_dfs ql bp s = (Raise (AttributeError "node_dates"), s).
Proof.
  intro Hm. unfold _bump_dfs, bind, market_attr. rewrite Hm. reflexivity.
Qed.

(** A repricing with no live exercise date is worth 0. *)
Lemma reprice_value_depleted p m ref ev dfs sigma r :
  Forall (fun d => (d <= ev)%Z) (ex_dates ql m) ->
  reprice_value ql p m ref ev dfs sigma = Ok r -> r = 0.
Proof.
  intros Hall. apply live_dates_nil in Hall. unfold reprice_value.
  rewrite Hall. destruct (reprice_swap ql _ _ _ _ _) as [[h sw]|e];
    intro H; inversion H; reflexivity.
Qed.

(** The one-day roll (lines 546-553): when Theta is requested, the price
    of the instrument one calendar day later, under the rolled discount
    factors, minus the base price. *)
Definition theta_post (s : state ql) (m : market ql) (ref : date) (sigma : R)
    (r : result R) (s1 : state ql) : Prop :=
  s1 = s
  /\ forall th, r = Ok th ->
       if do_theta (cfg ql (self ql s)) then
         exists tdfs pt p0,
           reprice_value ql (self ql s) m (ref + 1)%Z (ref + 1)%Z tdfs sigma = Ok pt
           /\ npv ql (self ql s) = Some p0
           /\ th = pt - p0
       else th = 0.

Lemma wp_theta_roll ref sigma (s : state ql) m :
  mkt_attrs ql (self ql s) = Some m ->
  wp ql (theta_roll ql ref sigma) (theta_post s m ref sigma) s.
Proof.
  intro Hm. unfold theta_roll.
  assert (Hraise : forall e, theta_post s m ref sigma (Raise e) s).
  { intro e. split; [reflexivity|]. intros th H; discriminate. }
  apply wp_bind, wp_gets.
  destruct (do_theta (cfg ql (self ql s))) eqn:Hdo.
  2:{ apply wp_ret. split; [reflexivity|]. intros th H. rewrite Hdo.
      inversion H; reflexivity. }
  apply wp_bind, wp_market_attr. rewrite Hm.
  apply wp_bind, wp_unchanged; [apply unchanged_ext|].
  intros [dfn|e] _; [|apply Hraise].
  apply wp_bind, wp_market_attr. rewrite Hm.
  apply wp_bind, wp_unchanged.
  { apply unchanged_mapM. intro dt. apply unchanged_bind;
      [apply unchanged_ext | intro; apply unchanged_pydiv]. }
  intros [tdfs|e] _; [|apply Hraise].
  apply wp_bind.
  eapply wp_eq; [apply (_reprice_with_dfs_eq ql _ _ _ _ _ m Hm)|].
  destruct (reprice_value ql _ m _ _ tdfs sigma) as [pt|e] eqn:Hpt;
    [|apply Hraise].
  apply wp_bind, wp_attr.
  destruct (npv ql (self ql s)) as [p0|] eqn:Hp0; [|apply Hraise].
  apply wp_ret. split; [reflexivity|]. intros th H. rewrite Hdo.
  inversion H; subst. exists tdfs, pt, p0. repeat split; assumption.
Qed.

(** What a successful [compute_greeks] stores, in terms of the state it
    started from. *)
Definition greeks_post (s0 : state ql) (r : result unit) (s' : state ql)
    : Prop :=
  r = Ok tt ->
  let c := cfg ql (self ql s0) in
  let v := val_date c in
  exists m sigma p0 pu pd g,
    mkt_attrs ql (self ql s0) = Some m
    /\ sigma_total ql (self ql s0) = Some sigma
    /\ npv ql (self ql s0) = Some p0
    /\ reprice_value ql (self ql s0) m v v (bump_value c m (dv01_bp c)) sigma
       = Ok pu
    /\ reprice_value ql (self ql s0) m v v (bump_value c m (- dv01_bp c)) sigma
       = Ok pd
    /\ greeks ql (self ql s') = Some g
    /\ dv01_bp c <> 0 /\ gamma_bp c <> 0 /\ vega_bp c <> 0
    /\ dv01 g = (pd - pu) / (2 * dv01_bp c)
    /\ gamma_1bp g = (pu - 2 * p0 + pd) / gamma_bp c ^ 2
    /\ (if do_theta c then
          exists tdfs pt,
            reprice_value ql (self ql s0) m (v + 1)%Z (v + 1)%Z tdfs sigma = Ok pt
            /\ theta_1d g = pt - p0
        else theta_1d g = 0).

Lemma wp_compute_greeks (s0 : state ql) :
  wp ql (compute_greeks ql sp) (greeks_post s0) s0.
Proof.
  unfold compute_greeks.
  assert (Hraise : forall e s, greeks_post s0 (Raise e) s)
    by (intros e s H; discriminate).
  apply wp_bind, wp_gets. apply wp_bind, wp_attr.
  destruct (sigma_total ql (self ql s0)) as [sigma|] eqn:Hsig; [|apply Hraise].
  apply wp_bind, wp_gets.
  set (c := cfg ql (self ql s0)).
  destruct (mkt_attrs ql (self ql s0)) as [m|] eqn:Hm.
  2:{ apply wp_bind. eapply wp_eq; [apply _bump_dfs_unset; exact Hm|].
      apply Hraise. }
  apply wp_bind. eapply wp_eq; [apply (_bump_dfs_eq _ _ m Hm)|].
  apply wp_bind. eapply wp_eq; [apply (_bump_dfs_eq _ _ m Hm)|].
  fold c.
  apply wp_bind.
  eapply wp_eq; [apply (_reprice_with_dfs_eq ql _ _ _ _ _ m Hm)|].
  destruct (reprice_value ql _ m _ _ (bump_value c m (dv01_bp c)) sigma)
    as [pu|e] eqn:Hpu; [|apply Hraise].
  apply wp_bind.
  eapply wp_eq; [apply (_reprice_with_dfs_eq ql _ _ _ _ _ m Hm)|].
  destruct (reprice_value ql _ m _ _ (bump_value c m (- dv01_bp c)) sigma)
    as [pd|e] eqn:Hpd; [|apply Hraise].
  apply wp_bind, wp_pydiv; [intros; apply Hraise | intro Hdv].
  apply wp_bind, wp_attr.
  destruct (npv ql (self ql s0)) as [p0|] eqn:Hp0; [|apply Hraise].
  apply wp_bind, wp_pydiv; [intros; apply Hraise | intro Hga].
  apply wp_bind, wp_unchanged; [apply unchanged__swap_npv_bumped|].
  intros [su|e] _; [|apply Hraise].
  apply wp_bind, wp_unchanged; [apply unchanged__swap_npv_bumped|].
  intros [sd|e] _; [|apply Hraise].
  apply wp_bind, wp_pydiv; [intros; apply Hraise | intros _].
  cbv zeta.
  apply wp_bind, wp_preserves; [apply preserves_vega_bump|].
  intros [pv_up|e] s1 _ K1; [|apply Hraise].
  apply wp_bind, wp_preserves; [apply preserves_vega_bump|].
  intros [pv_dn|e] s2 _ K2; [|apply Hraise].
  pose proof (keeps_trans ql _ _ _ K1 K2) as (Ks & Kd & _).
  apply wp_bind, wp_pydiv; [intros; apply Hraise | intro Hve].
  apply wp_bind.
  assert (Hm2 : mkt_attrs ql (self ql s2) = Some m) by (rewrite Ks; exact Hm).
  eapply wp_conseq; [apply (wp_theta_roll _ _ _ m Hm2)|].
  intros [theta|e] s3 [-> Hth]; [|apply Hraise].
  apply wp_assign. intros _. cbv zeta. fold c.
  specialize (Hth theta eq_refl). rewrite Ks in Hth. fold c in Hth.
  eexists m, sigma, p0, pu, pd, _. sproj.
  repeat split; try eassumption; try reflexivity.
  - intro H0. apply Hdv. rewrite H0. ring.
  - intro H0. apply Hga. rewrite H0. ring.
  - intro H0. apply Hve. rewrite H0. ring.
  - cbn [theta_1d]. destruct (do_theta c).
    + destruct Hth as (tdfs & pt & p0' & H1 & H2 & H3).
      rewrite Hp0 in H2. inversion H2; subst p0'.
      exists tdfs, pt. split; assumption.
    + exact Hth.
Qed.

End Greeks.

(** ** A concrete instance *)

(** A small QuantLib: a curve is its list of discount factors, every
    construction succeeds, swaps are worth 0 and the Hull-White engine
    prices every swaption at the first discount factor of its curve. *)
Definition toy : QuantLib :=
  {| Handle := list R;
     Index := unit;
     Schedule := list date;
     Swap := unit;
     Engine := list R;
     Swaption := unit;
     build_curve := fun _ _ _ dfs => Ok dfs;
     discount := fun _ _ _ => Ok 1;
     get_index := fun _ _ => Ok tt;
     make_schedule := fun _ start_ end_ => Ok [start_; end_];
     schedule_of_dates := fun _ ds => Ok ds;
     schedule_dates := fun sc => sc;
     make_ois := fun _ _ _ _ => Ok tt;
     set_discounting_engine := fun _ s _ => Ok s;
     fairRate := fun _ _ => Ok 0;
     swap_NPV := fun _ _ => Ok 0;
     fixedLegBPS := fun _ _ => Ok 0;
     make_swaption := fun _ _ _ => Ok tt;
     european_swaption := fun _ _ _ => Ok tt;
     hw_engine := fun _ h _ _ _ _ => Ok h;
     swaption_NPV := fun _ eng _ => Ok (hd 0 eng) |}.

(** Solvers that return their starting point at once. *)
Definition quick_sp : SciPy :=
  {| minimize1 := fun x0 _ => Done x0 true;
     minimize2 := fun x0 _ => Done x0 true;
     brentq := fun lo _ _ => Root lo |}.

(** A deal valued at day 0 on a one-node curve, with a one-point
    volatility surface. *)
Definition toy_config (exercise : list date) (dv01_bump gamma_bump : R)
    (target : R) : config :=
  {| val_date := 0%Z;
     strike := 0.03;
     is_receiver := true;
     swap_start := 365%Z;
     swap_end := 730%Z;
     mean_reversion := 0.03;
     calib_a := false;
     fdm_t := 300%Z;
     fdm_x := 300%Z;
     dv01_bp := dv01_bump;
     gamma_bp := gamma_bump;
     vega_bp := 1;
     do_theta := true;
     bbg_npv := target;
     vol_mat := [[0.005]];
     exp_grid := [1];
     tnr_grid := [1];
     curve := [ {| raw_date := Some 365%Z; raw_df := Some 1 |} ];
     custom_dates := Some (map Some exercise) |}.

Definition toy_market (exercise : list date) : market toy :=
  Build_market toy
    [365%Z]            (* node_dates *)
    [1]                (* node_dfs *)
    [1]                (* yts_h *)
    tt                 (* index *)
    [365%Z; 730%Z]     (* schedule *)
    exercise           (* ex_dates *)
    tt                 (* swap *)
    0                  (* fair_rate *)
    0.                 (* underlying_npv *)

(** The pricer after [setup], and with the attributes of [calibrate] that
    [compute_greeks] reads (no spread, base price 1). *)
Definition toy_setup_pricer (c : config) (exercise : list date) : pricer toy :=
  with_mkt_attrs toy (toy_market exercise) (__init__ toy c).

Definition toy_calibrated_pricer (c : config) (exercise : list date)
    : pricer toy :=
  with_npv toy 1
    (with_sigma_total toy 0.005
       (with_delta_spread toy 0
          (with_sigma_atm toy 0.005 (toy_setup_pricer c exercise)))).

Definition toy_state (p : pricer toy) : state toy :=
  Build_state toy 0%Z [] [] p.

(** The interpolator never raises on a surface with non-empty grids and
    a matrix of their shape. *)
Lemma vol_interp_total T tenor vm eg tg :
  eg <> [] -> tg <> [] ->
  VolInterp.shaped vm (length eg) (length tg) ->
  exists v, VolInterp.vol_interp T tenor vm eg tg = Ok v.
Proof.
  intros He Ht Hsh.
  assert (Hle : (0 < length eg)%nat) by (destruct eg; [congruence | simpl; lia]).
  assert (Hlt : (0 < length tg)%nat) by (destruct tg; [congruence | simpl; lia]).
  unfold VolInterp.vol_interp.
  rewrite (VolInterpFacts.item_nth eg 0 0 Hle).
  rewrite (VolInterpFacts.item_nth tg 0 0 Hlt).
  assert (HeL : item_last eg = Ok (nth (length eg - 1) eg 0)).
  { destruct eg; [congruence|]. apply VolInterpFacts.item_nth. simpl; lia. }
  assert (HtL : item_last tg = Ok (nth (length tg - 1) tg 0)).
  { destruct tg; [congruence|]. apply VolInterpFacts.item_nth. simpl; lia. }
  rewrite HeL, HtL. cbn [rbind]. cbv zeta.
  set (i1 := Nat.min _ (length eg - 1)).
  set (j1 := Nat.min _ (length tg - 1)).
  assert (Hi1 : (i1 < length eg)%nat) by (unfold i1; lia).
  assert (Hj1 : (j1 < length tg)%nat) by (unfold j1; lia).
  rewrite !Nat.max_0_r.
  rewrite (VolInterpFacts.item_nth eg i1 0) by lia.
  rewrite (VolInterpFacts.item_nth eg (i1 - 1) 0) by lia.
  rewrite (VolInterpFacts.item_nth tg j1 0) by lia.
  rewrite (VolInterpFacts.item_nth tg (j1 - 1) 0) by lia.
  cbn [rbind].
  rewrite (VolInterpFacts.mat_item_shaped _ _ _ (i1 - 1) (j1 - 1) Hsh) by lia.
  rewrite (VolInterpFacts.mat_item_shaped _ _ _ i1 (j1 - 1) Hsh) by lia.
  rewrite (VolInterpFacts.mat_item_shaped _ _ _ (i1 - 1) j1 Hsh) by lia.
  rewrite (VolInterpFacts.mat_item_shaped _ _ _ i1 j1 Hsh) by lia.
  cbn [rbind]. eexists. reflexivity.
Qed.

Section ToyRuns.


(** A pricer of the instance: set up on [toy_market], with the one-point
    surface. *)
Definition toy_pricer (p : pricer toy) (exercise : list date) : Prop :=
  mkt_attrs toy p = Some (toy_market exercise)
  /\ vol_mat (cfg toy p) = [[0.005]]
  /\ exp_grid (cfg toy p) = [1]
  /\ tnr_grid (cfg toy p) = [1]
  /\ calib_a (cfg toy p) = false.

(** A step that returns normally and leaves the state alone. *)
Definition returns {A} (s : state toy) (r : result A) (s1 : state toy) : Prop :=
  s1 = s /\ exists v, r = Ok v.

Lemma returns_here {A} (s : state toy) (v : A) : returns s (Ok v) s.
Proof. split; [reflexivity | eexists; reflexivity]. Qed.

Lemma toy_basket_schedule sd ex (s : state toy) :
  wp toy (basket_schedule toy sd ex) (returns s) s.
Proof.
  unfold basket_schedule. apply wp_bind, wp_gets. cbv zeta.
  destruct (existsb _ _).
  - unfold wp, try_except, bind, ext. cbn.
    destruct (Nat.eqb _ _); cbn; apply returns_here.
  - apply wp_ext. cbn. apply returns_here.
Qed.

Lemma toy_basket_entry_for h ix sd bp ex (s : state toy) exercise :
  toy_pricer (self toy s) exercise ->
  wp toy (basket_entry_for toy h ix sd bp ex) (returns s) s.
Proof.
  intros Htoy. pose proof Htoy as (Hm & Hv & He & Ht & Hc).
  unfold basket_entry_for. apply wp_bind.
  eapply wp_conseq; [apply (toy_basket_schedule sd ex s)|].
  intros [ss|e] s1 [-> [v Hv']]; [|discriminate].
  apply wp_bind, wp_gets.
  do 6 (apply wp_bind, wp_ext; cbn [toy make_ois set_discounting_engine
                                     fairRate fixedLegBPS]).
  cbv zeta. apply wp_bind, wp_lift.
  rewrite Hv, He, Ht.
  destruct (vol_interp_total (yearFraction (val_date (cfg toy (self toy s))) ex)
              (yearFraction ex (swap_end (cfg toy (self toy s))))
              [[0.005]] [1] [1]) as [vol_ Hvol];
    [discriminate | discriminate | split; [reflexivity | repeat constructor] |].
  rewrite Hvol.
  apply wp_bind, wp_ext. cbn [toy european_swaption].
  apply wp_bind. unfold _bachelier. apply wp_bind, wp_gets.
  destruct (is_receiver _); apply wp_ret; apply wp_ret; apply returns_here.
Qed.

Lemma toy__build_basket bp (s : state toy) exercise :
  toy_pricer (self toy s) exercise ->
  wp toy (_build_basket toy bp) (returns s) s.
Proof.
  intros Htoy. pose proof Htoy as (Hm & _). unfold _build_basket.
  do 3 (apply wp_bind, wp_market_attr; rewrite Hm). cbv zeta.
  apply wp_bind, wp_market_attr. rewrite Hm.
  generalize (ex_dates toy (toy_market exercise)). intro l.
  induction l as [|ex l IH]; cbn [mapM].
  - apply wp_ret, returns_here.
  - apply wp_bind.
    eapply wp_conseq; [apply (toy_basket_entry_for _ _ _ bp ex s exercise Htoy)|].
    intros [y|e] s1 [-> [v Hv']]; [|discriminate].
    apply wp_bind. eapply wp_conseq; [exact IH|].
    intros [ys|e] s1 [-> [v' Hv'']]; [|discriminate].
    apply wp_ret, returns_here.
Qed.

(** [vega_bump] on the instance: the fit returns its seed, and the
    instrument is priced at the first discount factor of the curve. *)
Lemma toy_vega_bump bp (s : state toy) exercise ds :
  toy_pricer (self toy s) exercise ->
  delta_spread toy (self toy s) = Some ds ->
  exists s1, vega_bump toy quick_sp bp s = (Ok 1, s1) /\ keeps toy s s1.
Proof.
  intros Htoy Hds. pose proof Htoy as (Hm & Hv & He & Ht & Hc).
  pose proof (toy__build_basket bp s exercise Htoy) as Hb.
  unfold wp in Hb. destruct Hb as [Hs [bk Hbk]].
  assert (Eb : _build_basket toy bp s = (Ok bk, s)).
  { destruct (_build_basket toy bp s) as [r s1]. simpl in *. congruence. }
  eexists. split.
  - unfold vega_bump. unfold bind at 1. rewrite Eb.
    rewrite bind_gets, Hc.
    unfold bind at 1.
    unfold bind at 1, market_attr at 1. rewrite Hm.
    unfold _calib_sigma_atm, minimize, bind at 1 2 3, record_call, run_optimizer.
    cbn [quick_sp minimize1 negb when ret].
    unfold bind at 1, attr at 1. sproj. rewrite Hds.
    unfold bind at 1.
    rewrite (_build_berm_eq toy _ (toy_market exercise)); [|sproj; exact Hm].
    cbn [berm_value toy make_ois set_discounting_engine make_swaption rbind].
    unfold bind at 1, market_attr at 1. sproj. rewrite Hm.
    rewrite _price_berm_eq.
    cbn [price_value toy hw_engine swaption_NPV rbind toy_market yts_h hd].
    reflexivity.
  - unfold keeps, inverse_calls. sproj. repeat split.
    rewrite filter_app. cbn. apply app_nil_r.
Qed.

Lemma toy_reprice_value p exercise ref ev dfs sigma :
  reprice_value toy p (toy_market exercise) ref ev dfs sigma
  = Ok (match live_dates ev exercise with
        | [] => 0
        | _ :: _ => hd 0 dfs
        end).
Proof.
  unfold reprice_value, reprice_swap.
  cbn [toy build_curve get_index make_schedule make_ois
       set_discounting_engine rbind toy_market ex_dates node_dates].
  destruct (live_dates ev exercise); reflexivity.
Qed.

Lemma toy__swap_npv_bumped dfs (s : state toy) exercise :
  toy_pricer (self toy s) exercise ->
  _swap_npv_bumped toy dfs s = (Ok 0, s).
Proof.
  intros (Hm & _). unfold _swap_npv_bumped.
  rewrite bind_gets, (bind_market_attr _ _ _ _ _ _ Hm).
  reflexivity.
Qed.

Lemma toy_theta_roll ref sigma (s : state toy) exercise p0 :
  toy_pricer (self toy s) exercise ->
  npv toy (self toy s) = Some p0 ->
  exists th, theta_roll toy ref sigma s = (Ok th, s).
Proof.
  intros (Hm & _) Hp0. unfold theta_roll. rewrite bind_gets.
  destruct (do_theta _); [|eexists; reflexivity].
  rewrite (bind_market_attr _ _ _ _ _ _ Hm).
  rewrite bind_ext. cbn [toy discount].
  rewrite (bind_market_attr _ _ _ _ _ _ Hm).
  cbn [toy_market node_dates mapM].
  unfold bind at 1. unfold bind at 1. rewrite bind_ext. cbn [toy discount].
  unfold pydiv. replace (Reqb 1 0) with false
    by (symmetry; apply Reqb_false; lra).
  cbn [ret bind]. unfold bind at 1.
  rewrite (_reprice_with_dfs_eq toy _ _ _ _ _ _ Hm), toy_reprice_value.
  unfold bind, attr. rewrite Hp0. eexists. reflexivity.
Qed.

(** On the instance, [compute_greeks] returns whenever the pricer is
    calibrated and no bump size is zero. *)
Lemma toy_compute_greeks_returns (s : state toy) exercise sigma p0 ds :
  toy_pricer (self toy s) exercise ->
  sigma_total toy (self toy s) = Some sigma ->
  npv toy (self toy s) = Some p0 ->
  delta_spread toy (self toy s) = Some ds ->
  dv01_bp (cfg toy (self toy s)) <> 0 ->
  gamma_bp (cfg toy (self toy s)) <> 0 ->
  vega_bp (cfg toy (self toy s)) <> 0 ->
  exists s', compute_greeks toy quick_sp s = (Ok tt, s').
Proof.
  intros Htoy Hsig Hp0 Hds Hdv Hga Hve. pose proof Htoy as (Hm & _).
  assert (W : wp toy (compute_greeks toy quick_sp) (fun r _ => r = Ok tt) s).
  { unfold compute_greeks.
    apply wp_bind, wp_gets. apply wp_bind, wp_attr. rewrite Hsig.
    apply wp_bind, wp_gets.
    apply wp_bind. eapply wp_eq; [apply (_bump_dfs_eq _ _ _ _ Hm)|].
    apply wp_bind. eapply wp_eq; [apply (_bump_dfs_eq _ _ _ _ Hm)|].
    apply wp_bind.
    eapply wp_eq; [apply (_reprice_with_dfs_eq toy _ _ _ _ _ _ Hm)|].
    rewrite toy_reprice_value.
    apply wp_bind.
    eapply wp_eq; [apply (_reprice_with_dfs_eq toy _ _ _ _ _ _ Hm)|].
    rewrite toy_reprice_value.
    apply wp_bind, wp_pydiv; [intro H0; exfalso; apply Hdv; lra | intros _].
    apply wp_bind, wp_attr. rewrite Hp0.
    apply wp_bind, wp_pydiv.
    { intro H0. exfalso. apply Hga. simpl in H0.
      destruct (Rmult_integral _ _ H0) as [H1|H1]; [exact H1 | lra]. }
    intros _.
    apply wp_bind. eapply wp_eq; [apply (toy__swap_npv_bumped _ _ _ Htoy)|].
    apply wp_bind. eapply wp_eq; [apply (toy__swap_npv_bumped _ _ _ Htoy)|].
    apply wp_bind, wp_pydiv; [intro H0; exfalso; apply Hdv; lra | intros _].
    cbv zeta.
    destruct (toy_vega_bump (vega_bp (cfg toy (self toy s))) s exercise ds
                Htoy Hds) as (s1 & E1 & (Ks1 & Kd1 & Ki1)).
    apply wp_bind. unfold wp at 1. rewrite E1. cbn [fst snd].
    assert (Htoy1 : toy_pricer (self toy s1) exercise) by (rewrite Ks1; exact Htoy).
    assert (Hds1 : delta_spread toy (self toy s1) = Some ds)
      by (rewrite Ks1; exact Hds).
    destruct (toy_vega_bump (- vega_bp (cfg toy (self toy s))) s1 exercise ds
                Htoy1 Hds1) as (s2 & E2 & (Ks2 & Kd2 & Ki2)).
    apply wp_bind. unfold wp at 1. rewrite E2. cbn [fst snd].
    apply wp_bind, wp_pydiv; [intro H0; exfalso; apply Hve; lra | intros _].
    assert (Htoy2 : toy_pricer (self toy s2) exercise) by (rewrite Ks2; exact Htoy1).
    assert (Hp2 : npv toy (self toy s2) = Some p0) by (rewrite Ks2, Ks1; exact Hp0).
    destruct (toy_theta_roll (val_date (cfg toy (self toy s))) sigma s2
                exercise p0 Htoy2 Hp2) as (th & Eth).
    apply wp_bind. unfold wp at 1. rewrite Eth. cbn [fst snd].
    apply wp_assign. reflexivity. }
  unfold wp in W.
  destruct (compute_greeks toy quick_sp s) as [r s']. simpl in W. subst r.
  exists s'. reflexivity.
Qed.

End ToyRuns.

(** ** Runs of [calibrate] on the instance *)

Section ToyCalibrate.


Lemma toy_pricer_with_basket p exercise bk :
  toy_pricer p exercise -> toy_pricer (with_basket toy bk p) exercise.
Proof. intro H. exact H. Qed.

Definition add_call (c : solver_call) (s : state toy) : state toy :=
  Build_state toy (evaluationDate toy s) (stdout toy s)
    (scipy_calls toy s ++ [c]) (self toy s).

Lemma toy__calib_sigma_atm h bk (s : state toy) :
  _calib_sigma_atm toy quick_sp h bk s
  = (Ok (1e-8 + exp (ln 0.005)), add_call (CallMinimize atm_options) s).
Proof. reflexivity. Qed.

Lemma toy__inverse_solve target (s : state toy) :
  _inverse_solve toy quick_sp target s
  = (Ok (exp (ln 0.001)), add_call (CallBrentq (ln 0.001) (ln 0.05)) s).
Proof. reflexivity. Qed.

(** [calibrate] returns on the instance; the trace says which stages ran. *)
Lemma toy_calibrate_returns (s : state toy) exercise :
  toy_pricer (self toy s) exercise ->
  exists s',
    calibrate toy quick_sp s = (Ok tt, s')
    /\ scipy_calls toy s'
       = scipy_calls toy s
         ++ CallMinimize atm_options
            :: (if Reqb (bbg_npv (cfg toy (self toy s))) 0 then []
                else [CallBrentq (ln 0.001) (ln 0.05)]).
Proof.
  intros Htoy. pose proof Htoy as (Hm & Hv & He & Ht & Hc).
  set (Q := fun (r : result unit) (s' : state toy) =>
              r = Ok tt
              /\ scipy_calls toy s'
                 = scipy_calls toy s
                   ++ CallMinimize atm_options
                      :: (if Reqb (bbg_npv (cfg toy (self toy s))) 0 then []
                          else [CallBrentq (ln 0.001) (ln 0.05)])).
  assert (W : wp toy (calibrate toy quick_sp) Q s).
  { unfold calibrate. apply wp_bind.
    eapply wp_conseq; [apply (toy__build_basket 0 s exercise Htoy)|].
    intros [bk|e] s1 [-> [v Hv']]; [|discriminate].
    apply wp_bind, wp_assign. apply wp_bind, wp_gets. sproj. rewrite Hc.
    apply wp_bind. apply wp_bind, wp_market_attr. sproj. rewrite Hm.
    apply wp_bind, wp_attr. sproj. apply wp_bind.
    eapply wp_conseq with (Q1 := fun r s1 => (r, s1) = _);
      [unfold wp; rewrite toy__calib_sigma_atm; reflexivity|].
    intros r s1 E. inversion E; subst r s1. clear E.
    apply wp_assign. unfold add_call. sproj.
    apply wp_bind.
    eapply wp_eq;
      [apply (_build_berm_eq toy _ (toy_market exercise)); sproj; exact Hm|].
    cbn [berm_value toy make_ois set_discounting_engine make_swaption rbind].
    apply wp_bind, wp_market_attr. sproj. rewrite Hm.
    apply wp_bind, wp_attr. sproj.
    apply wp_bind. eapply wp_eq; [apply _price_berm_eq|].
    cbn [price_value toy hw_engine swaption_NPV rbind].
    apply wp_bind, wp_gets. sproj.
    destruct (Reqb (bbg_npv (cfg toy (self toy s))) 0).
    - apply wp_bind, wp_attr. sproj.
      apply wp_bind, wp_assign. apply wp_bind, wp_assign.
      apply wp_bind, wp_attr. sproj.
      apply wp_bind, wp_assign. apply wp_bind.
      eapply wp_eq;
        [apply (_build_berm_eq toy _ (toy_market exercise)); sproj; exact Hm|].
      cbn [berm_value toy make_ois set_discounting_engine make_swaption rbind].
      apply wp_bind, wp_assign. apply wp_bind, wp_market_attr. sproj.
      rewrite Hm. apply wp_bind, wp_attr. sproj. apply wp_bind, wp_attr. sproj.
      apply wp_bind. eapply wp_eq; [apply _price_berm_eq|].
      cbn [price_value toy hw_engine swaption_NPV rbind].
      apply wp_assign. split; reflexivity.
    - apply wp_bind.
      eapply wp_conseq with (Q1 := fun r s1 => (r, s1) = _);
        [unfold wp; rewrite toy__inverse_solve; reflexivity|].
      intros r s1 E. inversion E; subst r s1. clear E.
      unfold add_call. sproj.
      apply wp_bind, wp_assign. apply wp_bind, wp_attr. sproj.
      apply wp_bind, wp_attr. sproj.
      apply wp_bind, wp_assign. apply wp_bind, wp_attr. sproj.
      apply wp_bind, wp_assign. apply wp_bind.
      eapply wp_eq;
        [apply (_build_berm_eq toy _ (toy_market exercise)); sproj; exact Hm|].
      cbn [berm_value toy make_ois set_discounting_engine make_swaption rbind].
      apply wp_bind, wp_assign. apply wp_bind, wp_market_attr. sproj.
      rewrite Hm. apply wp_bind, wp_attr. sproj. apply wp_bind, wp_attr. sproj.
      apply wp_bind. eapply wp_eq; [apply _price_berm_eq|].
      cbn [price_value toy hw_engine swaption_NPV rbind].
      apply wp_assign. split; [reflexivity|].
      sproj. rewrite <- app_assoc. reflexivity. }
  unfold wp, Q in W.
  destruct (calibrate toy quick_sp s) as [r s']. simpl in W.
  destruct W as [-> W]. exists s'. split; [reflexivity | exact W].
Qed.

End ToyCalibrate.

(** ** Gamma *)

Section GammaFormula.

Variable ql : QuantLib.
Variable sp : SciPy.

(** What [compute_greeks] stores as Gamma: the second difference of the
    prices under the curve bumped by plus and minus the DV01 bump size,
    divided by the square of the Gamma bump size. *)
Lemma compute_greeks_gamma (s s' : state ql) :
  compute_greeks ql sp s = (Ok tt, s') ->
  let c := cfg ql (self ql s) in
  exists m sigma p0 pu pd g,
    mkt_attrs ql (self ql s) = Some m
    /\ sigma_total ql (self ql s) = Some sigma
    /\ npv ql (self ql s) = Some p0
    /\ reprice_value ql (self ql s) m (val_date c) (val_date c)
         (bump_value ql c m (dv01_bp c)) sigma = Ok pu
    /\ reprice_value ql (self ql s) m (val_date c) (val_date c)
         (bump_value ql c m (- dv01_bp c)) sigma = Ok pd
    /\ greeks ql (self ql s') = Some g
    /\ gamma_1bp g = (pu - 2 * p0 + pd) / gamma_bp c ^ 2.
Proof.
  intros Hrun c.
  destruct (wp_run ql _ _ _ _ _ (wp_compute_greeks ql sp s) Hrun eq_refl)
    as (m & sigma & p0 & pu & pd & g & H1 & H2 & H3 & H4 & H5 & H6 & _ & _ & _
        & _ & H7 & _).
  exists m, sigma, p0, pu, pd, g. repeat split; assumption.
Qed.

(** With equal DV01 and Gamma bump sizes (the defaults) this is the
    centered second difference at the Gamma bump size. *)
Lemma compute_greeks_gamma_equal_bumps (s s' : state ql) :
  compute_greeks ql sp s = (Ok tt, s') ->
  let c := cfg ql (self ql s) in
  dv01_bp c = gamma_bp c ->
  exists m sigma p0 pu pd g,
    mkt_attrs ql (self ql s) = Some m
    /\ sigma_total ql (self ql s) = Some sigma
    /\ npv ql (self ql s) = Some p0
    /\ reprice_value ql (self ql s) m (val_date c) (val_date c)
         (bump_value ql c m (gamma_bp c)) sigma = Ok pu
    /\ reprice_value ql (self ql s) m (val_date c) (val_date c)
         (bump_value ql c m (- gamma_bp c)) sigma = Ok pd
    /\ greeks ql (self ql s') = Some g
    /\ gamma_1bp g = (pu - 2 * p0 + pd) / gamma_bp c ^ 2.
Proof.
  intros Hrun c Heq.
  destruct (compute_greeks_gamma s s' Hrun)
    as (m & sigma & p0 & pu & pd & g & H).
  fold c in H. rewrite Heq in H.
  exists m, sigma, p0, pu, pd, g. exact H.
Qed.

End GammaFormula.

(** The second difference of [exp] grows with the step. *)
Lemma exp_second_difference_grows t :
  0 < t -> exp (- t) + exp t < exp (- (2 * t)) + exp (2 * t).
Proof.
  intro Ht.
  assert (Hu : 1 < exp t) by (rewrite <- exp_0; apply exp_increasing; exact Ht).
  replace (2 * t) with (t + t) by ring.
  rewrite !exp_Ropp, exp_plus.
  set (u := exp t) in *.
  assert (Hinv : / (u * u) = / u * / u) by (field; lra).
  rewrite Hinv.
  assert (Hv : 0 < / u < 1).
  { split; [apply Rinv_0_lt_compat; lra|].
    rewrite <- Rinv_1. apply Rinv_lt_contravar; lra. }
  assert (Huv : u * / u = 1) by (field; lra).
  set (v := / u) in *.
  assert (H1 : 0 < (u - 1) * (u - 1)) by (apply Rmult_lt_0_compat; lra).
  nra.
Qed.

(** A run with a DV01 bump of 2bp and a Gamma bump of 1bp, on the
    instance, with one exercise date a year ahead. *)
Definition gamma_config : config := toy_config [365%Z] 2 1 0.

Definition gamma_state : state toy :=
  toy_state (toy_calibrated_pricer gamma_config [365%Z]).

(** C1 (the code departs from the claim). With a DV01 bump of 2bp and a
    Gamma bump of 1bp, [compute_greeks] stores as Gamma the second
    difference of the prices under the curve bumped by plus and minus 2bp
    (the DV01 bump) divided by the square of 1bp (the Gamma bump).  The
    centered second difference at the Gamma bump size, taken on the prices
    under the curve bumped by plus and minus 1bp, is a strictly smaller
    number. *)
Theorem gamma_mixes_bump_sizes :
  let p := self toy gamma_state in
  let m := toy_market [365%Z] in
  let price := fun bp : R =>
    reprice_value toy p m 0%Z 0%Z (bump_value toy gamma_config m bp) 0.005 in
  exists s' g P2 M2 P1 M1,
    compute_greeks toy quick_sp gamma_state = (Ok tt, s')
    /\ greeks toy (self toy s') = Some g
    /\ price 2 = Ok P2 /\ price (- 2) = Ok M2
    /\ price 1 = Ok P1 /\ price (- 1) = Ok M1
    /\ gamma_1bp g = (P2 - 2 * 1 + M2) / 1 ^ 2
    /\ (P1 - 2 * 1 + M1) / 1 ^ 2 < gamma_1bp g.
Proof.
  intros p m price. subst p m.
  assert (Htoy : toy_pricer (self toy gamma_state) [365%Z])
    by (repeat split).
  destruct (toy_compute_greeks_returns gamma_state [365%Z] 0.005 1 0 Htoy
              eq_refl eq_refl eq_refl) as [s' Hrun];
    try (cbn; lra).
  destruct (compute_greeks_gamma toy quick_sp gamma_state s' Hrun)
    as (m' & sigma & p0 & pu & pd & g & H1 & H2 & H3 & H4 & H5 & H6 & H7).
  cbn in H1, H2, H3. inversion H1; subst m'. inversion H2; subst sigma.
  inversion H3; subst p0. clear H1 H2 H3.
  assert (Hprice : forall bp,
            price bp = Ok (1 * exp (- bp / 10000 * yearFraction 0%Z 365%Z))).
  { intro bp. unfold price. rewrite toy_reprice_value. reflexivity. }
  assert (Hyf : yearFraction 0%Z 365%Z = 1).
  { unfold yearFraction. simpl. field. }
  change (price 2 = Ok pu) in H4. change (price (- 2) = Ok pd) in H5.
  exists s', g, pu, pd, (1 * exp (- 1 / 10000 * yearFraction 0%Z 365%Z)),
    (1 * exp (- - 1 / 10000 * yearFraction 0%Z 365%Z)).
  repeat split; try assumption; try apply Hprice.
  rewrite H7. rewrite Hprice in H4, H5.
  injection H4 as <-. injection H5 as <-.
  rewrite Hyf.
  change (gamma_bp (cfg toy (self toy gamma_state))) with 1.
  pose proof (exp_second_difference_grows (1 / 10000)) as Hexp.
  assert (Hpos : 0 < 1 / 10000) by lra. specialize (Hexp Hpos).
  repeat match goal with
    | |- context [exp ?x] =>
        lazymatch x with
        | 1 / 10000 => fail
        | - (1 / 10000) => fail
        | 2 * (1 / 10000) => fail
        | - (2 * (1 / 10000)) => fail
        | _ =>
            first [ replace x with (1 / 10000) by lra
                  | replace x with (- (1 / 10000)) by lra
                  | replace x with (2 * (1 / 10000)) by lra
                  | replace x with (- (2 * (1 / 10000))) by lra ]
        end
    end.
  replace (1 ^ 2) with 1 by ring. lra.
Qed.

(** ** Theta when no exercise date is left *)

Section ThetaDepletion.

Variable ql : QuantLib.
Variable sp : SciPy.

(** C3. For a repricing under the valuation date [ev] (for Theta, the day
    after the valuation date), the still-live exercise dates are the
    exercise dates strictly after [ev], in their order: once the swap has
    been rebuilt, the option is built on exactly those dates and priced by
    the oracle, and when there is none (every exercise date is on or
    before [ev]) the repricing returns exactly 0 without building or
    pricing an option.  The Theta that [compute_greeks] stores is the
    value of that repricing at the day after the valuation date minus the
    base price, hence 0 minus the base price when no date is left. *)
Theorem theta_reprice_exercise_depleted
    (s : state ql) (m : market ql) (ev : date) :
  mkt_attrs ql (self ql s) = Some m ->
  let c := cfg ql (self ql s) in
  let live := filter (fun d => (ev <? d)%Z) (ex_dates ql m) in
  (forall d, In d live <-> In d (ex_dates ql m) /\ (ev < d)%Z)
  /\ (live = [] <-> Forall (fun d => (d <= ev)%Z) (ex_dates ql m))
  /\ (forall ref dfs sigma,
        _reprice_with_dfs ql ref ev dfs sigma s
        = (match reprice_swap ql c (node_dates ql m) ref ev dfs with
           | Raise e => Raise e
           | Ok (h, sw) =>
               match live with
               | [] => Ok 0
               | _ :: _ =>
                   (swpt <- make_swaption ql ev sw live ;;
                    eng <- hw_engine ql ev h (a ql (self ql s)) sigma
                             (fdm_t c) (fdm_x c) ;;
                    swaption_NPV ql ev eng swpt)%result
               end
           end, s))
  /\ (forall s',
        ev = (val_date c + 1)%Z -> do_theta c = true ->
        compute_greeks ql sp s = (Ok tt, s') ->
        exists g p0 pt tdfs sigma,
          greeks ql (self ql s') = Some g
          /\ npv ql (self ql s) = Some p0
          /\ sigma_total ql (self ql s) = Some sigma
          /\ _reprice_with_dfs ql ev ev tdfs sigma s = (Ok pt, s)
          /\ theta_1d g = pt - p0
          /\ (live = [] -> pt = 0 /\ theta_1d g = 0 - p0)).
Proof.
  intros Hm c live.
  assert (Hrep : forall ref dfs sigma,
            reprice_value ql (self ql s) m ref ev dfs sigma
            = match reprice_swap ql c (node_dates ql m) ref ev dfs with
              | Raise e => Raise e
              | Ok (h, sw) =>
                  match live with
                  | [] => Ok 0
                  | _ :: _ =>
                      (swpt <- make_swaption ql ev sw live ;;
                       eng <- hw_engine ql ev h (a ql (self ql s)) sigma
                                (fdm_t c) (fdm_x c) ;;
                       swaption_NPV ql ev eng swpt)%result
                  end
              end).
  { intros ref dfs sigma. unfold reprice_value, live_dates. fold c. fold live.
    destruct (reprice_swap ql c (node_dates ql m) ref ev dfs) as [[h sw]|e];
      [|reflexivity].
    destruct live; reflexivity. }
  split; [intro d; apply live_dates_spec|].
  split; [apply live_dates_nil|]. split.
  - intros ref dfs sigma.
    rewrite (_reprice_with_dfs_eq ql ref ev dfs sigma s m Hm).
    rewrite Hrep. reflexivity.
  - intros s' Hev Hdo Hrun.
    destruct (wp_run ql _ _ _ _ _ (wp_compute_greeks ql sp s) Hrun eq_refl)
      as (m' & sigma & p0 & pu & pd & g & H1 & H2 & H3 & _ & _ & H6 & _ & _ & _
          & _ & _ & H8).
    rewrite Hm in H1. inversion H1; subst m'. fold c in H8. rewrite Hdo in H8.
    destruct H8 as (tdfs & pt & Hpt & Hth).
    rewrite <- Hev in Hpt.
    exists g, p0, pt, tdfs, sigma.
    split; [exact H6|]. split; [exact H3|]. split; [exact H2|].
    split.
    { rewrite (_reprice_with_dfs_eq ql ev ev tdfs sigma s m Hm), Hpt.
      reflexivity. }
    split; [exact Hth|].
    intro Hnil. rewrite Hrep, Hnil in Hpt.
    assert (Hz : pt = 0).
    { destruct (reprice_swap ql c (node_dates ql m) ev ev tdfs)
        as [[h sw]|e]; inversion Hpt; reflexivity. }
    split; [exact Hz|]. rewrite Hth, Hz. reflexivity.
Qed.

End ThetaDepletion.

(** Two calibrated pricers of the instance, repriced at day 1: one whose
    only exercise date is day 1, which is not strictly after the new
    valuation date, and one that also has day 365, which is. *)
Definition depleted_state : state toy :=
  toy_state (toy_calibrated_pricer (toy_config [1%Z] 1 1 0) [1%Z]).

Definition live_state : state toy :=
  toy_state (toy_calibrated_pricer (toy_config [1%Z; 365%Z] 1 1 0)
               [1%Z; 365%Z]).

Lemma theta_reprice_exercise_depleted_witness :
  _reprice_with_dfs toy 1%Z 1%Z [0.9] 0.005 depleted_state
  = (Ok 0, depleted_state)
  /\ _reprice_with_dfs toy 1%Z 1%Z [0.9] 0.005 live_state
     = (Ok 0.9, live_state)
  /\ exists s' g,
       compute_greeks toy quick_sp depleted_state = (Ok tt, s')
       /\ greeks toy (self toy s') = Some g
       /\ theta_1d g = 0 - 1.
Proof.
  assert (Hm : mkt_attrs toy (self toy depleted_state)
               = Some (toy_market [1%Z])) by reflexivity.
  assert (Hm' : mkt_attrs toy (self toy live_state)
                = Some (toy_market [1%Z; 365%Z])) by reflexivity.
  destruct (theta_reprice_exercise_depleted toy quick_sp depleted_state
              (toy_market [1%Z]) 1%Z Hm) as (_ & _ & Hrep & Htheta).
  destruct (theta_reprice_exercise_depleted toy quick_sp live_state
              (toy_market [1%Z; 365%Z]) 1%Z Hm') as (_ & _ & Hrep' & _).
  split; [rewrite Hrep; reflexivity|].
  split; [rewrite Hrep'; reflexivity|].
  assert (Htoy : toy_pricer (self toy depleted_state) [1%Z]) by (repeat split).
  destruct (toy_compute_greeks_returns depleted_state [1%Z] 0.005 1 0 Htoy
              eq_refl eq_refl eq_refl) as [s' Hrun]; try (cbn; lra).
  destruct (Htheta s' eq_refl eq_refl Hrun)
    as (g & p0 & pt & tdfs & sigma & Hg & Hp0 & _ & _ & _ & Hnil).
  cbn in Hp0. injection Hp0 as <-.
  exists s', g. split; [exact Hrun|]. split; [exact Hg|].
  apply Hnil. reflexivity.
Defined.

(** ** [calibrate] with a target of 0.0 *)



(** With a target that is not 0.0 the same run goes on to the inverse
    fit: the trace shows the call to [brentq]. *)
Example calibrate_with_target_runs_inverse_fit :
  exists s',
    calibrate toy quick_sp
      (toy_state (toy_setup_pricer (toy_config [365%Z] 1 1 5) [365%Z]))
    = (Ok tt, s')
    /\ inverse_calls toy s' = [CallBrentq (ln 0.001) (ln 0.05)].
Proof.
  set (s := toy_state (toy_setup_pricer (toy_config [365%Z] 1 1 5) [365%Z])).
  assert (Htoy : toy_pricer (self toy s) [365%Z]) by (repeat split).
  destruct (toy_calibrate_returns s [365%Z] Htoy) as (s' & Hrun & Hcalls).
  exists s'. split; [exact Hrun|].
  unfold inverse_calls. rewrite Hcalls.
  change (bbg_npv (cfg toy (self toy s))) with 5.
  replace (Reqb 5 0) with false by (symmetry; apply Reqb_false; lra).
  reflexivity.
Qed.

Section ZeroTarget.

Variable ql : QuantLib.
Variable sp : SciPy.



End ZeroTarget.



(** ** The logit reparameterization of the joint fit *)

Lemma _inv_logit_range x : A_MIN < _inv_logit x < A_MAX.
Proof.
  unfold _inv_logit, A_MIN, A_MAX.
  pose proof (exp_pos (- x)) as He.
  set (e := exp (- x)) in *.
  assert (Ht : 0 < 1 / (1 + e) < 1).
  { split.
    - apply Rdiv_lt_0_compat; lra.
    - apply Rmult_lt_reg_r with (1 + e); [lra|].
      unfold Rdiv. rewrite Rmult_assoc, Rinv_l by lra. lra. }
  set (t := 1 / (1 + e)) in *. nra.
Qed.

(** [_logit] clamps before it takes the logarithm, so it is finite on the
    bounds as well, and [_inv_logit] undoes it up to the clamp. *)
Lemma _inv_logit_logit a_ :
  _inv_logit (_logit a_)
  = A_MIN + Rmax 1e-10 (Rmin (1 - 1e-10) ((a_ - A_MIN) / (A_MAX - A_MIN)))
            * (A_MAX - A_MIN).
Proof.
  unfold _inv_logit, _logit. cbv zeta.
  set (t := Rmax 1e-10 (Rmin (1 - 1e-10) ((a_ - A_MIN) / (A_MAX - A_MIN)))).
  assert (Ht : 1e-10 <= t <= 1 - 1e-10).
  { unfold t, Rmax, Rmin.
    destruct (Rle_dec (1 - 1e-10) _); destruct (Rle_dec 1e-10 _); lra. }
  assert (Hq : 0 < t / (1 - t)) by (apply Rdiv_lt_0_compat; lra).
  rewrite exp_Ropp, exp_ln by exact Hq.
  f_equal. f_equal. field. lra.
Qed.

Lemma _inv_logit_logit_A_MAX :
  _inv_logit (_logit A_MAX) = A_MIN + (1 - 1e-10) * (A_MAX - A_MIN).
Proof.
  rewrite _inv_logit_logit. unfold A_MIN, A_MAX.
  replace ((0.50 - 0.001) / (0.50 - 0.001)) with 1 by (field; lra).
  unfold Rmin, Rmax.
  destruct (Rle_dec (1 - 1e-10) 1); [|lra].
  destruct (Rle_dec 1e-10 (1 - 1e-10)); [reflexivity | lra].
Qed.

(** ** Oracle failures during calibration *)

Section OracleFailures.

Variable ql : QuantLib.
Variable sp : SciPy.

(** The oracle raises at the trial point [(a, sigma)]: the engine cannot
    be built, or it prices no entry of the basket without raising. *)
Definition oracle_fails (d : date) (h : Handle ql) (a_ sigma : R) (c : config)
    (bk : list (basket_entry ql)) : Prop :=
  (exists e, hw_engine ql d h a_ sigma (fdm_t c) (fdm_x c) = Raise e)
  \/ (exists eng it e,
        hw_engine ql d h a_ sigma (fdm_t c) (fdm_x c) = Ok eng
        /\ In it bk
        /\ swaption_NPV ql d eng (swpt ql it) = Raise e).

Lemma foldM_objective_raises eng bk it e (s : state ql) :
  In it bk ->
  swaption_NPV ql (evaluationDate ql s) eng (swpt ql it) = Raise e ->
  forall acc, exists e', foldM (objective_term ql eng) bk acc s = (Raise e', s).
Proof.
  intros Hin Hfail. induction bk as [|it0 bk IH]; [contradiction|].
  intro acc. cbn [foldM]. unfold objective_term at 1.
  unfold bind at 1. rewrite bind_ext.
  destruct (swaption_NPV ql (evaluationDate ql s) eng (swpt ql it0))
    as [v|e0] eqn:E0.
  - cbn [ret]. destruct Hin as [->|Hin]; [congruence|]. apply IH. exact Hin.
  - exists e0. reflexivity.
Qed.

(** Without a handler the exception leaves the objective. *)
Lemma atm_objective_raises h bk x (s : state ql) :
  oracle_fails (evaluationDate ql s) h (a ql (self ql s)) (1e-8 + exp x)
    (cfg ql (self ql s)) bk ->
  exists e, atm_objective ql h bk x s = (Raise e, s).
Proof.
  intros [[e He] | (eng & it & e & He & Hin & Hnpv)];
    unfold atm_objective; cbv zeta; rewrite !bind_gets, bind_ext, He.
  - exists e. reflexivity.
  - apply foldM_objective_raises with (it := it) (e := e); assumption.
Qed.

(** With the handler of the joint objective it becomes the score 1e20. *)
Lemma joint_objective_recovers h bk x (s : state ql) :
  oracle_fails (evaluationDate ql s) h (_inv_logit (fst x)) (1e-8 + exp (snd x))
    (cfg ql (self ql s)) bk ->
  joint_objective ql h bk x s = (Ok 1e20, s).
Proof.
  intros [[e He] | (eng & it & e & He & Hin & Hnpv)];
    unfold joint_objective, try_except; cbv zeta; rewrite bind_gets, bind_ext, He.
  - reflexivity.
  - destruct (foldM_objective_raises eng bk it e s Hin Hnpv 0) as [e' ->].
    reflexivity.
Qed.

Lemma joint_objective_returns h bk x (s : state ql) :
  exists y, joint_objective ql h bk x s = (Ok y, s).
Proof.
  pose proof (unchanged_joint_objective ql h bk x s) as U.
  unfold joint_objective, try_except in *. cbv zeta in *.
  destruct (bind _ _ s) as [[v|e] s1]; simpl in U; subst s1;
    eexists; reflexivity.
Qed.

Lemma run_optimizer_returns {X} (t : optimizer X) (f : X -> M ql R) s :
  (forall x, exists y, f x s = (Ok y, s)) ->
  exists r, run_optimizer t f s = (Ok r, s).
Proof.
  intro Hf. induction t as [x ok | x k IH]; cbn [run_optimizer].
  - eexists. reflexivity.
  - destruct (Hf x) as [y Hy]. unfold bind. rewrite Hy. apply IH.
Qed.

(** The joint calibration always returns, with a mean reversion of the
    form [_inv_logit x]. *)
Lemma _calib_joint_returns h bk (s : state ql) :
  exists x sigma_cal s',
    _calib_joint ql sp h bk s = (Ok (_inv_logit x, sigma_cal), s').
Proof.
  unfold _calib_joint, minimize. cbv zeta.
  unfold bind at 1. unfold bind at 1. unfold record_call at 1.
  match goal with
  | |- context [run_optimizer ?t ?f ?s1] =>
      destruct (run_optimizer_returns t f s1) as [[[x0 x1] ok] Hr]
  end.
  { intro x. apply joint_objective_returns. }
  rewrite Hr. destruct ok; cbn [negb when]; unfold bind, ret, print;
    eexists _, _, _; reflexivity.
Qed.

(** The ATM calibration aborts when the oracle raises at the first trial
    point of the search. *)
Lemma _calib_sigma_atm_raises h bk (s : state ql) x k :
  minimize1 sp (ln 0.005) atm_options = Ask x k ->
  oracle_fails (evaluationDate ql s) h (a ql (self ql s)) (1e-8 + exp x)
    (cfg ql (self ql s)) bk ->
  exists e s', _calib_sigma_atm ql sp h bk s = (Raise e, s').
Proof.
  intros Hask Hfail. unfold _calib_sigma_atm, minimize.
  unfold bind at 1. unfold bind at 1. unfold record_call at 1.
  rewrite Hask. cbn [run_optimizer]. unfold bind at 1.
  match goal with
  | |- context [atm_objective ql h bk x ?s1] =>
      destruct (atm_objective_raises h bk x s1 Hfail) as [e ->]
  end.
  eexists _, _. reflexivity.
Qed.

(** The value of the residual of the inverse fit. *)
Definition inverse_value (p : pricer ql) (m : market ql) (d : date)
    (target log_s : R) : result R :=
  (b <- berm_value ql p m d ;;
   v <- price_value ql p d (yts_h ql m) (snd b) (exp log_s) ;;
   Ok (v - target))%result.

Lemma inverse_residual_eq target log_s (s : state ql) m :
  mkt_attrs ql (self ql s) = Some m ->
  inverse_residual ql target log_s s
  = (inverse_value (self ql s) m (evaluationDate ql s) target log_s, s).
Proof.
  intro Hm. unfold inverse_residual, inverse_value.
  unfold bind at 1. rewrite (_build_berm_eq ql s m Hm).
  destruct (berm_value ql _ m _) as [[sw b]|e]; cbn [rbind snd]; [|reflexivity].
  rewrite (bind_market_attr ql _ _ _ _ _ Hm).
  unfold bind. rewrite _price_berm_eq.
  destruct (price_value ql _ _ _ b _); reflexivity.
Qed.

(** The bracketed root search, following the values [v] of the residual,
    reaches a point where the residual raises [e]: at its first probe or
    at any later one. *)
Inductive reaches_failure (v : R -> result R) : rootfinder -> exn -> Prop :=
| fails_here x k e :
    v x = Raise e -> reaches_failure v (Probe x k) e
| fails_later x k y e :
    v x = Ok y -> reaches_failure v (k y) e ->
    reaches_failure v (Probe x k) e.

Lemma run_rootfinder_reaches_failure target m t e (s : state ql) :
  mkt_attrs ql (self ql s) = Some m ->
  reaches_failure (inverse_value (self ql s) m (evaluationDate ql s) target)
    t e ->
  run_rootfinder t (inverse_residual ql target) s = (Raise e, s).
Proof.
  intros Hm H. induction H as [x k e Hx | x k y e Hx _ IH];
    cbn [run_rootfinder]; unfold bind;
    rewrite (inverse_residual_eq target x s m Hm), Hx.
  - reflexivity.
  - exact IH.
Qed.

(** Lines 411-414: the handler of [_inverse_solve]. *)
Definition inverse_fallback (target : R) : M ql R :=
  bind (minimize (minimize1 sp (ln 0.007)) inverse_options
          (fun x => bind (inverse_residual ql target x)
                      (fun y => ret (y ^ 2))))
       (fun '(x, _) => ret (exp x)).

(** C2 (as the code has it). In the joint fit a trial point at which the
    oracle raises is scored 1e20, and the calibration call returns (on
    real numbers, where the exponentials computed outside the handler
    cannot overflow).  In the inverse fit every exception that leaves the
    bracketed root search, in particular one that the oracle raises at
    any point the search probes, is caught: the fallback simplex search is
    run in its place and decides the outcome. *)
Theorem oracle_failure_during_calibration
    (h : Handle ql) (bk : list (basket_entry ql)) (s : state ql) :
  (forall x,
      oracle_fails (evaluationDate ql s) h (_inv_logit (fst x))
        (1e-8 + exp (snd x)) (cfg ql (self ql s)) bk ->
      joint_objective ql h bk x s = (Ok 1e20, s))
  /\ (exists r s', _calib_joint ql sp h bk s = (Ok r, s'))
  /\ (forall target e s1,
        run_rootfinder (brentq sp (ln 0.001) (ln 0.05) 1e-12)
          (inverse_residual ql target)
          (snd (record_call (CallBrentq (ln 0.001) (ln 0.05)) s))
        = (Raise e, s1) ->
        _inverse_solve ql sp target s = inverse_fallback target s1
        /\ scipy_calls ql (snd (_inverse_solve ql sp target s))
           = scipy_calls ql s
             ++ [CallBrentq (ln 0.001) (ln 0.05);
                 CallMinimize inverse_options])
  /\ (forall m target e,
        mkt_attrs ql (self ql s) = Some m ->
        reaches_failure
          (inverse_value (self ql s) m (evaluationDate ql s) target)
          (brentq sp (ln 0.001) (ln 0.05) 1e-12) e ->
        exists s1,
          run_rootfinder (brentq sp (ln 0.001) (ln 0.05) 1e-12)
            (inverse_residual ql target)
            (snd (record_call (CallBrentq (ln 0.001) (ln 0.05)) s))
          = (Raise e, s1)).
Proof.
  split; [intros x; apply joint_objective_recovers|].
  split.
  { destruct (_calib_joint_returns h bk s) as (x & sg & s' & H).
    eexists _, _. exact H. }
  split.
  - intros target e s1 Hrun.
    assert (Hs1 : s1 = snd (record_call (CallBrentq (ln 0.001) (ln 0.05)) s)).
    { pose proof (unchanged_run_rootfinder ql
                    (brentq sp (ln 0.001) (ln 0.05) 1e-12)
                    (inverse_residual ql target)
                    (unchanged_inverse_residual ql target)
                    (snd (record_call (CallBrentq (ln 0.001) (ln 0.05)) s)))
        as U.
      rewrite Hrun in U. exact U. }
    assert (Heq : _inverse_solve ql sp target s = inverse_fallback target s1).
    { unfold _inverse_solve, try_except, call_brentq.
      unfold bind at 1. unfold bind at 1.
      change (record_call (CallBrentq (ln 0.001) (ln 0.05)) s)
        with (Ok tt, snd (record_call (CallBrentq (ln 0.001) (ln 0.05)) s)).
      cbv iota. rewrite Hrun. reflexivity. }
    split; [exact Heq|].
    rewrite Heq. unfold inverse_fallback, minimize.
    unfold bind at 1. unfold bind at 1. unfold record_call at 1.
    match goal with
    | |- context [run_optimizer ?t ?f ?s2] =>
        pose proof (unchanged_run_optimizer ql t f) as U;
        specialize (U (fun x0 => unchanged_bind ql _ _
                         (unchanged_inverse_residual ql target x0)
                         (fun y => unchanged_ret ql (y ^ 2))) s2);
        destruct (run_optimizer t f s2) as [[[x1 ok]|e1] s3]
    end; simpl in U; subst s3; subst s1;
      cbn [stdout scipy_calls snd ret record_call];
      rewrite <- app_assoc; reflexivity.
  - intros m target e Hm Hreach. eexists.
    apply (run_rootfinder_reaches_failure target m); [exact Hm | exact Hreach].
Qed.

End OracleFailures.

(** C5 (as the code has it). The logit reparameterization maps every
    real input of the optimizer into the closed interval from 0.001 to
    0.50, and so does the mean reversion that the joint calibration
    returns, whatever the configured mean reversion and whatever point the
    optimizer ends on (the seed of the fit is 0.03, not the configured
    value); the image of the upper bound 0.50 under [_logit] is finite and
    maps back into the interval.  The bounds are attained in binary64: the
    sigmoid is exactly 1 once [1 + exp(-x)] rounds to 1, which gives
    exactly 0.50. *)
Theorem joint_mean_reversion_inside_bounds :
  (forall x : R, 0.001 <= _inv_logit x <= 0.50)
  /\ (forall (ql : QuantLib) (sp : SciPy) (h : Handle ql)
             (bk : list (basket_entry ql)) (s s' : state ql) a_cal sigma_cal,
        _calib_joint ql sp h bk s = (Ok (a_cal, sigma_cal), s') ->
        0.001 <= a_cal <= 0.50)
  /\ 0.001 <= _inv_logit (_logit 0.50) <= 0.50
  /\ Binary64._inv_logit_of_exp Binary64.half_ulp_of_one = Binary64.A_MAX
  /\ Binary64._inv_logit_of_exp Binary64.largest_finite = Binary64.A_MIN.
Proof.
  assert (Hrange : forall x : R, 0.001 <= _inv_logit x <= 0.50).
  { intro x. pose proof (_inv_logit_range x) as H.
    unfold A_MIN, A_MAX in H. lra. }
  split; [exact Hrange|]. split.
  - intros ql sp h bk s s' a_cal sigma_cal Hrun.
    destruct (_calib_joint_returns ql sp h bk s) as (x & sg & s1 & H).
    rewrite H in Hrun. inversion Hrun; subst. apply Hrange.
  - split; [apply Hrange|]. split; reflexivity.
Qed.

(** A joint fit that returns, on the instance. *)
Lemma joint_mean_reversion_inside_bounds_witness :
  exists a_cal sigma_cal s',
    _calib_joint toy quick_sp [1] [] (toy_state (__init__ toy (toy_config [365%Z] 1 1 0)))
    = (Ok (a_cal, sigma_cal), s')
    /\ 0.001 <= a_cal <= 0.50.
Proof.
  destruct (_calib_joint_returns toy quick_sp [1] []
              (toy_state (__init__ toy (toy_config [365%Z] 1 1 0))))
    as (x & sg & s' & H).
  exists (_inv_logit x), sg, s'. split; [exact H|].
  exact (proj1 (proj2 joint_mean_reversion_inside_bounds) toy quick_sp [1] []
           _ s' (_inv_logit x) sg H).
Defined.

(** In binary64 the upper bound is returned: [math.exp(-37.0)] is below
    half an ulp of 1, so the sigmoid is exactly 1 and the mean reversion
    exactly 0.50 (a real sigmoid stays below 1). *)
Lemma joint_mean_reversion_reaches_upper_bound :
  Binary64._inv_logit Binary64.libm_exp Binary64.thirty_seven
  = Binary64.A_MAX
  /\ _inv_logit 37 < 0.50.
Proof.
  split; [reflexivity|].
  pose proof (_inv_logit_range 37) as H. unfold A_MAX in H. lra.
Qed.

(** An instance whose Hull-White engine cannot be built, and solvers that
    evaluate their starting point before they return it. *)
Definition failing_ql : QuantLib :=
  {| Handle := list R;
     Index := unit;
     Schedule := list date;
     Swap := unit;
     Engine := list R;
     Swaption := unit;
     build_curve := fun _ _ _ dfs => Ok dfs;
     discount := fun _ _ _ => Ok 1;
     get_index := fun _ _ => Ok tt;
     make_schedule := fun _ start_ end_ => Ok [start_; end_];
     schedule_of_dates := fun _ ds => Ok ds;
     schedule_dates := fun sc => sc;
     make_ois := fun _ _ _ _ => Ok tt;
     set_discounting_engine := fun _ s _ => Ok s;
     fairRate := fun _ _ => Ok 0;
     swap_NPV := fun _ _ => Ok 0;
     fixedLegBPS := fun _ _ => Ok 0;
     make_swaption := fun _ _ _ => Ok tt;
     european_swaption := fun _ _ _ => Ok tt;
     hw_engine := fun _ _ _ _ _ _ => Raise (LibraryError 1);
     swaption_NPV := fun _ eng _ => Ok (hd 0 eng) |}.

Definition asking_sp : SciPy :=
  {| minimize1 := fun x0 _ => Ask x0 (fun _ => Done x0 true);
     minimize2 := fun x0 _ => Ask x0 (fun _ => Done x0 true);
     brentq := fun lo _ _ => Probe lo (fun _ => Root lo) |}.

Definition failing_state : state failing_ql :=
  Build_state failing_ql 0%Z [] []
    (with_mkt_attrs failing_ql
       (Build_market failing_ql [365%Z] [1] [1] tt [365%Z; 730%Z] [365%Z] tt 0 0)
       (__init__ failing_ql (toy_config [365%Z] 1 1 5))).

(** A bracketed search that probes the two ends of the bracket; the
    oracle of [failing_ql] raises at each probe. *)
Definition probing_sp : SciPy :=
  {| minimize1 := fun x0 _ => Ask x0 (fun _ => Done x0 true);
     minimize2 := fun x0 _ => Ask x0 (fun _ => Done x0 true);
     brentq := fun lo hi _ =>
                 Probe lo (fun _ => Probe hi (fun _ => Root lo)) |}.

Lemma oracle_failure_during_calibration_witness :
  joint_objective failing_ql [1] [] (0, 0) failing_state
  = (Ok 1e20, failing_state)
  /\ (exists r s',
        _calib_joint failing_ql asking_sp [1] [] failing_state = (Ok r, s'))
  /\ scipy_calls failing_ql
       (snd (_inverse_solve failing_ql probing_sp 5 failing_state))
     = [CallBrentq (ln 0.001) (ln 0.05); CallMinimize inverse_options].
Proof.
  destruct (oracle_failure_during_calibration failing_ql asking_sp [1] []
              failing_state) as (H1 & H2 & _).
  destruct (oracle_failure_during_calibration failing_ql probing_sp [1] []
              failing_state) as (_ & _ & H3 & H4).
  split; [|split].
  - apply H1. left. exists (LibraryError 1). reflexivity.
  - exact H2.
  - destruct (H4 _ 5 (LibraryError 1) eq_refl) as [s1 Hrun].
    { apply fails_here. reflexivity. }
    exact (proj2 (H3 5 (LibraryError 1) s1 Hrun)).
Defined.

(** The same failure in the ATM fit: the objective has no handler, and
    the exception leaves [_calib_sigma_atm]. *)
Lemma atm_calibration_aborts_on_oracle_failure :
  exists s',
    _calib_sigma_atm failing_ql asking_sp [1] [] failing_state
    = (Raise (LibraryError 1), s').
Proof. eexists. reflexivity. Qed.

(** ** Curve validation in [setup] *)

Section CurveValidation.

Variable ql : QuantLib.

(** The state after the lines [ls] have been printed. *)
Definition printed (ls : list line) (s : state ql) : state ql :=
  Build_state ql (evaluationDate ql s) (stdout ql s ++ ls)
    (scipy_calls ql s) (self ql s).

Lemma printed_nil s : printed [] s = s.
Proof. unfold printed. rewrite app_nil_r. destruct s; reflexivity. Qed.

Lemma printed_app l1 l2 s : printed l2 (printed l1 s) = printed (l1 ++ l2) s.
Proof. unfold printed. cbn. rewrite app_assoc. reflexivity. Qed.

Lemma bind_print {B} l (k : unit -> M ql B) s :
  bind (print l) k s = k tt (printed [l] s).
Proof. reflexivity. Qed.

Lemma bind_ret {A B} (v : A) (k : A -> M ql B) s : bind (ret v) k s = k v s.
Proof. reflexivity. Qed.

(** The warnings of the two loops (lines 257-264). *)
Definition df_warnings (nodes : list (date * R)) : list line :=
  flat_map (fun p => if Rltb 1.05 (snd p)
                     then [WarnDfAbove (fst p) (snd p)] else []) nodes.

Fixpoint monotone_warnings (nodes : list (date * R)) : list line :=
  match nodes with
  | (d0, df0) :: rest =>
      match rest with
      | (d1, df1) :: _ =>
          (if Rltb (df0 + 1e-6) df1
           then [WarnNonMonotone d0 df0 d1 df1] else [])
          ++ monotone_warnings rest
      | [] => []
      end
  | [] => []
  end.

Lemma combine_fst_snd {A B} (l : list (A * B)) :
  combine (map fst l) (map snd l) = l.
Proof.
  induction l as [|[x y] l IH]; cbn; [reflexivity|]. rewrite IH. reflexivity.
Qed.

Lemma positive_or_not (nodes : list (date * R)) :
  Exists (fun p => snd p <= 0) nodes \/ Forall (fun p => 0 < snd p) nodes.
Proof.
  induction nodes as [|p l IH]; [right; constructor|].
  destruct (Rle_dec (snd p) 0) as [H|H].
  - left. constructor. exact H.
  - destruct IH as [IH|IH].
    + left. apply Exists_cons_tl. exact IH.
    + right. constructor; [lra | exact IH].
Qed.

Lemma validate_dfs_ok nodes (s : state ql) :
  Forall (fun p => 0 < snd p) nodes ->
  validate_dfs ql nodes s = (Ok tt, printed (df_warnings nodes) s).
Proof.
  revert s. induction nodes as [|[dt df] l IH]; intros s H.
  - cbn. rewrite printed_nil. reflexivity.
  - inversion H as [|? ? Hdf Hl]; subst. cbn [snd] in Hdf.
    cbn [validate_dfs].
    replace (Rleb df 0) with false by (symmetry; apply Rleb_false; lra).
    cbn [df_warnings flat_map fst snd].
    destruct (Rltb 1.05 df); cbn [when].
    + rewrite bind_print, IH by exact Hl.
      unfold df_warnings. rewrite printed_app. reflexivity.
    + rewrite bind_ret, IH by exact Hl. reflexivity.
Qed.

Lemma validate_dfs_raises nodes (s : state ql) :
  Exists (fun p => snd p <= 0) nodes ->
  exists s', validate_dfs ql nodes s
             = (Raise (ValueError "Discount factor <= 0"), s').
Proof.
  revert s. induction nodes as [|[dt df] l IH]; intros s H.
  - inversion H.
  - cbn [validate_dfs]. destruct (Rleb df 0) eqn:E.
    + eexists. reflexivity.
    + apply Rleb_false in E.
      inversion H as [? ? Hdf | ? ? Hl]; subst; [cbn in Hdf; lra|].
      destruct (Rltb 1.05 df); cbn [when].
      * rewrite bind_print. apply IH. exact Hl.
      * rewrite bind_ret. apply IH. exact Hl.
Qed.

Lemma warn_non_monotone_eq nodes (s : state ql) :
  warn_non_monotone ql nodes s = (Ok tt, printed (monotone_warnings nodes) s).
Proof.
  revert s. induction nodes as [|[d0 f0] l IH]; intro s.
  - cbn. rewrite printed_nil. reflexivity.
  - destruct l as [|[d1 f1] l'].
    + cbn. rewrite printed_nil. reflexivity.
    + cbn [warn_non_monotone monotone_warnings].
      destruct (Rltb (f0 + 1e-6) f1); cbn [when].
      * rewrite bind_print, IH, printed_app. reflexivity.
      * rewrite bind_ret, IH. reflexivity.
Qed.

(** The curve block in one statement. *)
Lemma setup_curve_spec (s : state ql) :
  let c := cfg ql (self ql s) in
  let pairs := live_pairs (val_date c) (curve c) in
  let nodes := retained_nodes (val_date c) (curve c) in
  (pairs = [] ->
   setup_curve ql s
   = (Raise (ValueError "No curve nodes after valuation date"), s))
  /\ (pairs <> [] -> Exists (fun p => snd p <= 0) nodes ->
      exists s', setup_curve ql s
                 = (Raise (ValueError "Discount factor <= 0"), s'))
  /\ (pairs <> [] -> Forall (fun p => 0 < snd p) nodes ->
      setup_curve ql s
      = (Ok (map fst nodes, map snd nodes),
         printed (df_warnings nodes ++ monotone_warnings nodes) s)).
Proof.
  intros c pairs nodes. unfold setup_curve. rewrite bind_gets. fold c.
  fold pairs. unfold nodes, retained_nodes. fold pairs.
  destruct pairs as [|p0 l] eqn:Hp.
  - split; [reflexivity|]. split; intro H; congruence.
  - split; [discriminate|]. cbv zeta. rewrite combine_fst_snd.
    set (nd := dedup_nodes (sort_nodes (p0 :: l))).
    split; intros _ H.
    + destruct (validate_dfs_raises nd s H) as [s' E].
      exists s'. unfold bind. rewrite E. reflexivity.
    + unfold bind. rewrite (validate_dfs_ok nd s H), warn_non_monotone_eq.
      rewrite printed_app. reflexivity.
Qed.

Lemma df_warnings_In nodes p :
  In p nodes -> 1.05 < snd p -> In (WarnDfAbove (fst p) (snd p)) (df_warnings nodes).
Proof.
  intros Hin Hgt. unfold df_warnings. apply in_flat_map. exists p.
  split; [exact Hin|].
  replace (Rltb 1.05 (snd p)) with true by (symmetry; apply Rltb_true; exact Hgt).
  left. reflexivity.
Qed.

Lemma monotone_warnings_In pre d0 f0 d1 f1 post :
  f0 + 1e-6 < f1 ->
  In (WarnNonMonotone d0 f0 d1 f1)
     (monotone_warnings (pre ++ (d0, f0) :: (d1, f1) :: post)).
Proof.
  intro Hgt. induction pre as [|[d f] pre IH].
  - cbn [app monotone_warnings].
    replace (Rltb (f0 + 1e-6) f1) with true
      by (symmetry; apply Rltb_true; exact Hgt).
    left. reflexivity.
  - cbn [app]. cbn [monotone_warnings].
    destruct (pre ++ (d0, f0) :: (d1, f1) :: post) as [|[d' f'] l'] eqn:E.
    + destruct pre; discriminate.
    + apply in_or_app. right. exact IH.
Qed.

(** C8. After parsing, the curve block of [setup] raises a fatal
    [ValueError], before any QuantLib object is built, exactly when no
    curve node lies strictly after the valuation date or some retained
    discount factor is not positive.  Otherwise it returns the retained
    nodes: a discount factor above 1.05 and a discount factor that exceeds
    its predecessor (by more than 1e-6) each add a warning to the output
    and nothing else. *)
Theorem curve_validation_fatal_iff (s : state ql) :
  let c := cfg ql (self ql s) in
  let pairs := live_pairs (val_date c) (curve c) in
  let nodes := retained_nodes (val_date c) (curve c) in
  let fatal := pairs = [] \/ Exists (fun p => snd p <= 0) nodes in
  ((exists e s', setup_curve ql s = (Raise e, s')) <-> fatal)
  /\ (fatal -> exists msg s', setup ql s = (Raise (ValueError msg), s'))
  /\ (~ fatal ->
      setup_curve ql s
      = (Ok (map fst nodes, map snd nodes),
         printed (df_warnings nodes ++ monotone_warnings nodes) s))
  /\ (forall p, In p nodes -> 1.05 < snd p ->
        In (WarnDfAbove (fst p) (snd p)) (df_warnings nodes))
  /\ (forall pre d0 f0 d1 f1 post,
        nodes = pre ++ (d0, f0) :: (d1, f1) :: post -> f0 + 1e-6 < f1 ->
        In (WarnNonMonotone d0 f0 d1 f1) (monotone_warnings nodes)).
Proof.
  intros c pairs nodes fatal.
  destruct (setup_curve_spec s) as (Hnil & Hneg & Hok).
  fold c in Hnil, Hneg, Hok. fold pairs in Hnil, Hneg, Hok.
  fold nodes in Hneg, Hok.
  assert (Hdec : fatal \/ (pairs <> [] /\ Forall (fun p => 0 < snd p) nodes)).
  { unfold fatal. destruct pairs as [|p0 l] eqn:Hp; [left; left; reflexivity|].
    destruct (positive_or_not nodes) as [H|H].
    - left. right. exact H.
    - right. split; [discriminate | exact H]. }
  assert (Hnot : ~ fatal -> pairs <> [] /\ Forall (fun p => 0 < snd p) nodes).
  { intro Hn. destruct Hdec as [H|H]; [contradiction | exact H]. }
  assert (Hraise : forall s0 : state ql,
             self ql s0 = self ql s -> fatal ->
             exists msg s', setup_curve ql s0 = (Raise (ValueError msg), s')).
  { intros s0 Hs0 Hf.
    destruct (setup_curve_spec s0) as (Hnil0 & Hneg0 & _).
    rewrite Hs0 in Hnil0, Hneg0. fold c in Hnil0, Hneg0.
    fold pairs in Hnil0, Hneg0. fold nodes in Hneg0.
    destruct pairs as [|p0 l] eqn:Hp.
    - eexists _, _. apply Hnil0. reflexivity.
    - destruct Hf as [Hf|Hf]; [discriminate|].
      destruct (Hneg0 ltac:(discriminate) Hf) as [s' E].
      eexists _, _. exact E. }
  split; [split|split; [|split; [|split]]].
  - intros (e & s' & E). destruct Hdec as [H|[H1 H2]]; [exact H|].
    rewrite (Hok H1 H2) in E. discriminate.
  - intro Hf. destruct (Hraise s eq_refl Hf) as (msg & s' & E).
    eexists _, _. exact E.
  - intro Hf. unfold setup. rewrite bind_gets. fold c.
    unfold bind at 1. unfold set_evaluationDate at 1. unfold bind at 1.
    match goal with
    | |- context [setup_curve ql ?s1] =>
        destruct (Hraise s1 eq_refl Hf) as (msg & s' & E)
    end.
    rewrite E. eexists _, _. reflexivity.
  - intro Hn. destruct (Hnot Hn) as [H1 H2]. apply Hok; assumption.
  - intros p. apply df_warnings_In.
  - intros pre d0 f0 d1 f1 post -> Hgt. apply monotone_warnings_In. exact Hgt.
Qed.

End CurveValidation.

(** The configuration [c] with the curve [raw]. *)
Definition with_curve (raw : list raw_node) (c : config) : config :=
  {| val_date := val_date c; strike := strike c;
     is_receiver := is_receiver c; swap_start := swap_start c;
     swap_end := swap_end c; mean_reversion := mean_reversion c;
     calib_a := calib_a c; fdm_t := fdm_t c; fdm_x := fdm_x c;
     dv01_bp := dv01_bp c; gamma_bp := gamma_bp c; vega_bp := vega_bp c;
     do_theta := do_theta c; bbg_npv := bbg_npv c; vol_mat := vol_mat c;
     exp_grid := exp_grid c; tnr_grid := tnr_grid c; curve := raw;
     custom_dates := custom_dates c |}.

(** Filtering, sorting and deduplication on a small curve: the node on
    the valuation date and the entry that does not parse are dropped, and
    the later value of day 10 wins. *)
Example retained_nodes_example :
  retained_nodes 0%Z
    [ {| raw_date := Some 10%Z; raw_df := Some 0.9 |};
      {| raw_date := Some 5%Z; raw_df := Some 0.95 |};
      {| raw_date := None; raw_df := Some 0.5 |};
      {| raw_date := Some 10%Z; raw_df := Some 0.8 |};
      {| raw_date := Some 0%Z; raw_df := Some 1 |} ]
  = [ (5%Z, 0.95); (10%Z, 0.8) ].
Proof. reflexivity. Qed.

(** A curve whose second discount factor is above 1.05 and above its
    predecessor. *)
Definition warned_config : config :=
  {| val_date := 0%Z; strike := 0.03; is_receiver := true;
     swap_start := 365%Z; swap_end := 730%Z; mean_reversion := 0.03;
     calib_a := false; fdm_t := 300%Z; fdm_x := 300%Z;
     dv01_bp := 1; gamma_bp := 1; vega_bp := 1; do_theta := true;
     bbg_npv := 0; vol_mat := [[0.005]]; exp_grid := [1]; tnr_grid := [1];
     curve := [ {| raw_date := Some 5%Z; raw_df := Some 0.9 |};
                {| raw_date := Some 10%Z; raw_df := Some 1.2 |} ];
     custom_dates := None |}.

Definition warned_state : state toy := toy_state (__init__ toy warned_config).

Lemma curve_validation_fatal_iff_witness :
  setup_curve toy warned_state
  = (Ok ([5%Z; 10%Z], [0.9; 1.2]),
     printed toy [WarnDfAbove 10%Z 1.2; WarnNonMonotone 5%Z 0.9 10%Z 1.2]
       warned_state).
Proof.
  destruct (curve_validation_fatal_iff toy warned_state) as (_ & _ & Hok & _).
  assert (Hnodes : retained_nodes 0%Z (curve warned_config)
                   = [(5%Z, 0.9); (10%Z, 1.2)]) by reflexivity.
  cbv zeta in Hok.
  change (cfg toy (self toy warned_state)) with warned_config in Hok.
  change (val_date warned_config) with 0%Z in Hok.
  rewrite Hnodes in Hok.
  rewrite Hok.
  - cbn [map fst snd df_warnings monotone_warnings flat_map app].
    replace (Rltb 1.05 0.9) with false by (symmetry; apply Rltb_false; lra).
    replace (Rltb 1.05 1.2) with true by (symmetry; apply Rltb_true; lra).
    replace (Rltb (0.9 + 1e-6) 1.2) with true
      by (symmetry; apply Rltb_true; lra).
    reflexivity.
  - intros [H|H]; [discriminate|].
    inversion H as [? ? H1|? ? H1]; subst; [cbn in H1; lra|].
    inversion H1 as [? ? H2|? ? H2]; subst; [cbn in H2; lra|].
    inversion H2.
Defined.

(** [setup] on the instance gives the pricer that the runs above
    start from. *)
Example toy_setup_run :
  setup toy (toy_state (__init__ toy (toy_config [365%Z] 1 1 0)))
  = (Ok tt, toy_state (toy_setup_pricer (toy_config [365%Z] 1 1 0) [365%Z])).
Proof.
  unfold setup. rewrite bind_gets.
  unfold bind at 1. unfold set_evaluationDate at 1. unfold bind at 1.
  match goal with
  | |- context [setup_curve toy ?s1] =>
      destruct (setup_curve_spec toy s1) as (_ & _ & Hok)
  end.
  rewrite Hok.
  - cbn [retained_nodes live_pairs parse_curve toy_config curve raw_date raw_df
         filter dedup_nodes sort_nodes insert_node fold_left dedup_step rev
         app map fst snd df_warnings monotone_warnings flat_map cfg self
         toy_state __init__ val_date Z.ltb Z.compare Pos.compare].
    replace (Rltb 1.05 1) with false by (symmetry; apply Rltb_false; lra).
    reflexivity.
  - discriminate.
  - repeat constructor. cbn. lra.
Qed.

(** A curve with a non-positive discount factor is fatal. *)
Example setup_rejects_non_positive_df :
  exists s',
    setup toy
      (toy_state
         (__init__ toy
            (with_curve
               [ {| raw_date := Some 365%Z; raw_df := Some (- 0.1) |} ]
               (toy_config [365%Z] 1 1 0))))
    = (Raise (ValueError "Discount factor <= 0"), s').
Proof.
  unfold setup. rewrite bind_gets.
  unfold bind at 1. unfold set_evaluationDate at 1. unfold bind at 1.
  match goal with
  | |- context [setup_curve toy ?s1] =>
      destruct (setup_curve_spec toy s1) as (_ & Hneg & _)
  end.
  destruct Hneg as [s' E].
  - discriminate.
  - constructor. cbn. lra.
  - rewrite E. eexists. reflexivity.
Qed.

(** ** The interpolator on a small surface *)

Module VolInterpExamples.
Import VolInterp VolInterpFacts.

Definition surface : list (list R) :=
  [ [0.0040; 0.0050; 0.0060];
    [0.0045; 0.0055; 0.0065] ].
Definition expiries : list R := [1; 2].
Definition tenors : list R := [1; 5; 10].

Lemma vol_interp_on_grid_witness :
  vol_interp 2 10 surface expiries tenors = Ok 0.0065
  /\ mat_item surface 1 2 = Ok 0.0065.
Proof.
  apply (vol_interp_on_grid surface expiries tenors 1 2).
  - repeat constructor; lra.
  - repeat constructor; lra.
  - split; [reflexivity | repeat constructor].
  - cbn; lia.
  - cbn; lia.
Defined.

(** Resolves the comparisons of numerals in the goal. *)
Ltac Rcompare :=
  unfold clip, Rmin, Rmax;
  repeat match goal with
    | |- context [Rle_dec ?x ?y] =>
        lazymatch x with
        | context [Rle_dec _ _] => fail
        | _ => destruct (Rle_dec x y); try (exfalso; lra)
        end
    end;
  Rdecide.

(** Between two expiries, on a tenor of the grid: the mean of the two
    neighbours. *)
Example vol_interp_between_expiries :
  vol_interp 1.5 5 surface expiries tenors = Ok 0.00525.
Proof.
  unfold vol_interp, surface, expiries, tenors.
  cbn [item item_last nth_error length Nat.sub rbind].
  cbv zeta. cbn [searchsorted].
  Rcompare. cbn [Nat.min Nat.max Nat.sub length].
  cbn [item nth_error rbind mat_item]. Rcompare.
  f_equal. lra.
Qed.

(** Outside the grid the query is clamped: beyond the last expiry and
    below the first tenor the value is the corner of the surface. *)
Example vol_interp_clamped :
  vol_interp 7 0.5 surface expiries tenors = Ok 0.0045.
Proof.
  unfold vol_interp, surface, expiries, tenors.
  cbn [item item_last nth_error length Nat.sub rbind].
  cbv zeta. cbn [searchsorted].
  Rcompare. cbn [Nat.min Nat.max Nat.sub length].
  cbn [item nth_error rbind mat_item]. Rcompare.
  f_equal. lra.
Qed.

End VolInterpExamples.

(* ================================================================= *)
(** * Part III: further properties of the pricer *)
(* ================================================================= *)

(** ** The curve nodes that [setup] keeps *)

Section CurveNodes.

Lemma ssorted_app {A} (Rel : A -> A -> Prop) (l1 l2 : list A) :
  StronglySorted Rel (l1 ++ l2)
  <-> StronglySorted Rel l1 /\ StronglySorted Rel l2
      /\ (forall x y, In x l1 -> In y l2 -> Rel x y).
Proof.
  induction l1 as [|a l1 IH]; cbn [app].
  - split.
    + intro H. split; [constructor|]. split; [exact H|]. intros x y [].
    + intros (_ & H & _). exact H.
  - split.
    + intro H. apply StronglySorted_inv in H. destruct H as [H1 H2].
      apply IH in H1. destruct H1 as (S1 & S2 & S12).
      rewrite Forall_app in H2. destruct H2 as [F1 F2].
      split; [constructor; assumption|]. split; [exact S2|].
      intros x y [<-|Hx] Hy.
      * rewrite Forall_forall in F2. apply F2, Hy.
      * apply S12; assumption.
    + intros (S1 & S2 & S12). apply StronglySorted_inv in S1.
      destruct S1 as [S1 F1]. constructor.
      * apply IH. split; [exact S1|]. split; [exact S2|].
        intros x y Hx Hy. apply S12; [right; exact Hx | exact Hy].
      * apply Forall_app. split; [exact F1|].
        apply Forall_forall. intros y Hy. apply S12; [left; reflexivity | exact Hy].
Qed.

(** The order of the sort: by serial number. *)
Definition key_le (p q : date * R) : Prop := (fst p <= fst q)%Z.

Lemma insert_node_In p q l : In q (insert_node p l) <-> q = p \/ In q l.
Proof.
  induction l as [|x l IH]; cbn [insert_node].
  - cbn. intuition.
  - destruct (fst p <=? fst x)%Z; cbn [In]; [intuition|].
    rewrite IH. intuition.
Qed.

Lemma sort_nodes_In q l : In q (sort_nodes l) <-> In q l.
Proof.
  induction l as [|x l IH]; cbn [sort_nodes]; [reflexivity|].
  rewrite insert_node_In, IH. cbn. intuition.
Qed.

Lemma insert_node_sorted p l :
  StronglySorted key_le l -> StronglySorted key_le (insert_node p l).
Proof.
  induction l as [|x l IH]; intro H; cbn [insert_node].
  - repeat constructor.
  - apply StronglySorted_inv in H. destruct H as [H1 H2].
    destruct (fst p <=? fst x)%Z eqn:E.
    + apply Z.leb_le in E. constructor; [constructor; assumption|].
      constructor; [exact E|].
      rewrite Forall_forall in *. intros y Hy. specialize (H2 y Hy).
      unfold key_le in *. lia.
    + apply Z.leb_gt in E. constructor; [apply IH; exact H1|].
      apply Forall_forall. intros y Hy. apply insert_node_In in Hy.
      destruct Hy as [->|Hy]; [unfold key_le; lia|].
      rewrite Forall_forall in H2. apply H2, Hy.
Qed.

Lemma sort_nodes_sorted l : StronglySorted key_le (sort_nodes l).
Proof.
  induction l as [|x l IH]; cbn [sort_nodes]; [constructor|].
  apply insert_node_sorted, IH.
Qed.

(** [dedup_step] on the two shapes of its accumulator. *)
Lemma dedup_step_nil p : dedup_step [] p = [p].
Proof. reflexivity. Qed.

Lemma dedup_step_snoc acc q p :
  dedup_step (acc ++ [q]) p
  = if (fst p =? fst q)%Z then acc ++ [p] else (acc ++ [q]) ++ [p].
Proof.
  unfold dedup_step. rewrite rev_unit, removelast_last. reflexivity.
Qed.

Lemma snoc_cases {A} (l : list A) : l = [] \/ exists l' x, l = l' ++ [x].
Proof.
  destruct l as [|a l]; [left; reflexivity|]. right.
  exists (removelast (a :: l)), (last (a :: l) a).
  apply app_removelast_last. discriminate.
Qed.

Lemma dedup_step_In acc p x :
  In x (dedup_step acc p) -> x = p \/ In x acc.
Proof.
  destruct (snoc_cases acc) as [->|(acc' & q & ->)].
  - cbn. intuition.
  - rewrite dedup_step_snoc. destruct (fst p =? fst q)%Z;
      rewrite !in_app_iff; cbn; intuition.
Qed.

Lemma dedup_fold_In l : forall acc x,
  In x (fold_left dedup_step l acc) -> In x acc \/ In x l.
Proof.
  induction l as [|p l IH]; intros acc x H; cbn [fold_left] in H.
  - left. exact H.
  - apply IH in H. destruct H as [H|H]; [|right; right; exact H].
    apply dedup_step_In in H. destruct H as [->|H];
      [right; left; reflexivity | left; exact H].
Qed.

Lemma dedup_nodes_In l x : In x (dedup_nodes l) -> In x l.
Proof.
  intro H. apply dedup_fold_In in H. destruct H as [[]|H]. exact H.
Qed.

Lemma dedup_fold_increasing l : forall acc,
  StronglySorted key_le (acc ++ l) ->
  StronglySorted Z.lt (map fst acc) ->
  StronglySorted Z.lt (map fst (fold_left dedup_step l acc)).
Proof.
  induction l as [|p l IH]; intros acc Hs Ha; cbn [fold_left]; [exact Ha|].
  destruct (snoc_cases acc) as [->|(acc' & q & ->)].
  - rewrite dedup_step_nil. apply IH; [exact Hs | repeat constructor].
  - rewrite dedup_step_snoc.
    rewrite <- app_assoc in Hs. cbn [app] in Hs.
    pose proof Hs as Hs0.
    apply ssorted_app in Hs. destruct Hs as (S1 & S2 & S12).
    apply StronglySorted_inv in S2. destruct S2 as [S2 F2].
    rewrite map_app in Ha. cbn [map] in Ha.
    apply ssorted_app in Ha. destruct Ha as (A1 & _ & A12).
    assert (Hqp : (fst q <= fst p)%Z).
    { inversion F2 as [|? ? Hqp' _]; subst. exact Hqp'. }
    destruct (fst p =? fst q)%Z eqn:E.
    + apply Z.eqb_eq in E. apply IH.
      * rewrite <- app_assoc. cbn [app].
        apply ssorted_app. split; [exact S1|]. split; [exact S2|].
        intros x y Hx Hy. apply S12; [exact Hx | right; exact Hy].
      * rewrite map_app. cbn [map]. apply ssorted_app.
        split; [exact A1|]. split; [repeat constructor|].
        intros x y Hx [<-|[]]. rewrite E. apply A12; [exact Hx | left; reflexivity].
    + apply Z.eqb_neq in E. apply IH.
      * rewrite <- !app_assoc. cbn [app]. exact Hs0.
      * rewrite !map_app. cbn [map]. apply ssorted_app. split.
        -- apply ssorted_app. split; [exact A1|]. split; [repeat constructor|].
           exact A12.
        -- split; [repeat constructor|].
           intros x y Hx [<-|[]]. apply in_app_iff in Hx.
           destruct Hx as [Hx|[<-|[]]]; [|lia].
           specialize (A12 x (fst q) Hx (or_introl eq_refl)). lia.
Qed.

Lemma dedup_nodes_increasing l :
  StronglySorted key_le l -> StronglySorted Z.lt (map fst (dedup_nodes l)).
Proof.
  intro H. apply dedup_fold_increasing; [exact H | constructor].
Qed.

Lemma retained_nodes_In val raw x :
  In x (retained_nodes val raw) -> In x (live_pairs val raw).
Proof.
  intro H. apply dedup_nodes_In in H. apply (proj1 (sort_nodes_In _ _)) in H.
  exact H.
Qed.

Lemma retained_nodes_increasing val raw :
  StronglySorted Z.lt (map fst (retained_nodes val raw)).
Proof. apply dedup_nodes_increasing, sort_nodes_sorted. Qed.

Lemma retained_nodes_after val raw :
  Forall (fun d => (val < d)%Z) (map fst (retained_nodes val raw)).
Proof.
  apply Forall_forall. intros d Hd. apply in_map_iff in Hd.
  destruct Hd as (x & <- & Hx). apply retained_nodes_In in Hx.
  unfold live_pairs in Hx. apply filter_In in Hx. destruct Hx as [_ Hx].
  apply Z.ltb_lt in Hx. exact Hx.
Qed.

(** *** The last value of a date wins *)

(** The discount factor of the last pair of [l] dated [d]. *)
Fixpoint last_df (d : date) (l : list (date * R)) : option R :=
  match l with
  | [] => None
  | p :: l' =>
      match last_df d l' with
      | Some v => Some v
      | None => if (fst p =? d)%Z then Some (snd p) else None
      end
  end.

Lemma last_df_app d l1 l2 :
  last_df d (l1 ++ l2)
  = match last_df d l2 with
    | Some v => Some v
    | None => last_df d l1
    end.
Proof.
  induction l1 as [|p l1 IH]; cbn [app last_df].
  - destruct (last_df d l2); reflexivity.
  - rewrite IH. destruct (last_df d l2); reflexivity.
Qed.

Lemma last_df_insert_node d p l :
  last_df d (insert_node p l) = last_df d (p :: l).
Proof.
  induction l as [|x l IH]; cbn [insert_node]; [reflexivity|].
  destruct (fst p <=? fst x)%Z eqn:E; [reflexivity|].
  apply Z.leb_gt in E.
  cbn [last_df]. rewrite IH. cbn [last_df].
  destruct (last_df d l); [reflexivity|].
  destruct (fst p =? d)%Z eqn:Ep; destruct (fst x =? d)%Z eqn:Ex;
    try reflexivity.
  apply Z.eqb_eq in Ep, Ex. lia.
Qed.

Lemma last_df_sort_nodes d l : last_df d (sort_nodes l) = last_df d l.
Proof.
  induction l as [|x l IH]; cbn [sort_nodes]; [reflexivity|].
  rewrite last_df_insert_node. cbn [last_df]. rewrite IH. reflexivity.
Qed.

Lemma last_df_dedup_fold d l : forall acc,
  last_df d (fold_left dedup_step l acc) = last_df d (acc ++ l).
Proof.
  induction l as [|p l IH]; intro acc; cbn [fold_left].
  - rewrite app_nil_r. reflexivity.
  - rewrite IH.
    destruct (snoc_cases acc) as [->|(acc' & q & ->)]; [reflexivity|].
    rewrite dedup_step_snoc.
    destruct (fst p =? fst q)%Z eqn:E.
    + apply Z.eqb_eq in E.
      rewrite <- !app_assoc. cbn [app].
      rewrite !(last_df_app d acc'). cbn [last_df].
      destruct (last_df d l); [reflexivity|].
      destruct (fst p =? d)%Z eqn:Ep; [reflexivity|].
      rewrite <- E, Ep. reflexivity.
    + rewrite <- !app_assoc. reflexivity.
Qed.

Lemma last_df_dedup_nodes d l : last_df d (dedup_nodes l) = last_df d l.
Proof. apply last_df_dedup_fold. Qed.

Lemma last_df_None d l :
  last_df d l = None <-> ~ In d (map fst l).
Proof.
  induction l as [|p l IH]; cbn [last_df map In]; [intuition|].
  destruct (last_df d l) as [v|].
  - split; [discriminate|]. intro H. exfalso.
    assert (Hn : ~ In d (map fst l)) by tauto.
    apply IH in Hn. discriminate.
  - destruct (fst p =? d)%Z eqn:E.
    + apply Z.eqb_eq in E. split; [discriminate | tauto].
    + apply Z.eqb_neq in E. split; [|reflexivity].
      intros _ [H|H]; [contradiction|]. apply (proj1 IH eq_refl), H.
Qed.

Lemma last_df_unique d df l :
  StronglySorted Z.lt (map fst l) ->
  (In (d, df) l <-> last_df d l = Some df).
Proof.
  revert df. induction l as [|p l IH]; intros df Hs; cbn [last_df In].
  - split; [intros [] | discriminate].
  - unfold date in *. cbn [map] in Hs. apply StronglySorted_inv in Hs. destruct Hs as [Hs Hf].
    rewrite Forall_forall in Hf.
    destruct (last_df d l) as [v|] eqn:El.
    + assert (Hin : In (d, v) l) by (apply IH; [exact Hs | reflexivity]).
      assert (Hne : fst p <> d).
      { intro Heq. specialize (Hf d). rewrite Heq in Hf.
        assert (d < d)%Z; [|lia]. apply Hf.
        apply in_map_iff. exists (d, v). split; [reflexivity | exact Hin]. }
      split.
      * intros [H|H]; [subst p; cbn in Hne; contradiction | apply IH; assumption].
      * intro H. right. apply IH; assumption.
    + apply last_df_None in El.
      destruct (fst p =? d)%Z eqn:E.
      * apply Z.eqb_eq in E. split.
        -- intros [H|H]; [subst p; reflexivity|]. exfalso. apply El.
           apply in_map_iff. exists (d, df). split; [reflexivity | exact H].
        -- intro H. inversion H. left. destruct p; cbn in *. congruence.
      * apply Z.eqb_neq in E. split; [|discriminate].
        intros [H|H]; [subst p; cbn in E; contradiction|]. exfalso. apply El.
        apply in_map_iff. exists (d, df). split; [reflexivity | exact H].
Qed.

End CurveNodes.

(** ** What [setup] leaves behind *)

Section SetupOutcome.

Variable ql : QuantLib.

(** The exercise dates given in the configuration (line 279). *)
Fixpoint parse_dates_value (ds : list (option date)) : result (list date) :=
  match ds with
  | [] => Ok []
  | Some d :: rest => (ds' <- parse_dates_value rest ;; Ok (d :: ds'))%result
  | None :: _ => Raise (ValueError "parse_date")
  end.

Lemma parse_dates_eq ds (s : state ql) :
  parse_dates ql ds s = (parse_dates_value ds, s).
Proof.
  induction ds as [|[d|] ds IH]; cbn [parse_dates parse_dates_value];
    try reflexivity.
  unfold bind. rewrite IH. destruct (parse_dates_value ds); reflexivity.
Qed.

(** The attributes [setup] builds once the curve block has returned the
    nodes [(nd, ndf)] (lines 266-291), under the evaluation date [d]. *)
Definition setup_value (c : config) (nd : list date) (ndf : list R) (d : date)
    : result (market ql) :=
  (h <- build_curve ql d (val_date c) nd ndf ;;
   ix <- get_index ql d h ;;
   sc <- make_schedule ql d (swap_start c) (swap_end c) ;;
   exd <- match custom_dates c with
          | Some ds => parse_dates_value ds
          | None => Ok (filter (fun d => (swap_start c <=? d)%Z)
                               (removelast (schedule_dates ql sc)))
          end ;;
   s <- make_ois ql d sc (strike c) ix ;;
   s <- set_discounting_engine ql d s h ;;
   fr <- fairRate ql d s ;;
   un <- swap_NPV ql d s ;;
   Ok {| node_dates := nd; node_dfs := ndf; yts_h := h; index := ix;
         schedule := sc; ex_dates := exd; swap := s; fair_rate := fr;
         underlying_npv := un |})%result.

(** The state [setup] leaves: the evaluation date is the valuation date,
    the lines [ls] have been printed and [self] is [p]. *)
Definition after_setup (s : state ql) (ls : list line) (p : pricer ql)
    : state ql :=
  Build_state ql (val_date (cfg ql (self ql s))) (stdout ql s ++ ls)
    (scipy_calls ql s) p.

Lemma setup_eq (s : state ql) :
  let c := cfg ql (self ql s) in
  let nodes := retained_nodes (val_date c) (curve c) in
  live_pairs (val_date c) (curve c) <> [] ->
  Forall (fun p => 0 < snd p) nodes ->
  setup ql s
  = match setup_value c (map fst nodes) (map snd nodes) (val_date c) with
    | Ok m =>
        (Ok tt, after_setup s (df_warnings nodes ++ monotone_warnings nodes)
                  (with_mkt_attrs ql m (self ql s)))
    | Raise e =>
        (Raise e, after_setup s (df_warnings nodes ++ monotone_warnings nodes)
                    (self ql s))
    end.
Proof.
  intros c nodes Hp Hpos. unfold setup. rewrite bind_gets. fold c.
  unfold bind at 1. unfold set_evaluationDate at 1. unfold bind at 1.
  match goal with
  | |- context [setup_curve ql ?s1] =>
      destruct (setup_curve_spec ql s1) as (_ & _ & Hok)
  end.
  cbn [self cfg] in Hok. fold c in Hok. fold nodes in Hok.
  rewrite (Hok Hp Hpos). clear Hok.
  unfold printed, after_setup, setup_value. cbn [evaluationDate stdout scipy_calls self].
  fold c.
  set (s1 := Build_state ql _ _ _ _).
  rewrite bind_ext. subst s1. cbn [evaluationDate].
  destruct (build_curve ql _ _ _ _) as [h|e]; cbn [rbind]; [|reflexivity].
  rewrite bind_ext. cbn [evaluationDate].
  destruct (get_index ql _ h) as [ix|e]; cbn [rbind]; [|reflexivity].
  rewrite bind_ext. cbn [evaluationDate].
  destruct (make_schedule ql _ _ _) as [sc|e]; cbn [rbind]; [|reflexivity].
  unfold bind at 1.
  assert (Hex : forall s0 : state ql,
            match custom_dates c with
            | Some ds => parse_dates ql ds
            | None => ret (filter (fun d => (swap_start c <=? d)%Z)
                                  (removelast (schedule_dates ql sc)))
            end s0
            = (match custom_dates c with
               | Some ds => parse_dates_value ds
               | None => Ok (filter (fun d => (swap_start c <=? d)%Z)
                                    (removelast (schedule_dates ql sc)))
               end, s0)).
  { intro s0. destruct (custom_dates c); [apply parse_dates_eq | reflexivity]. }
  rewrite Hex. clear Hex.
  destruct (match custom_dates c with Some _ => _ | None => _ end) as [exd|e];
    cbn [rbind]; [|reflexivity].
  rewrite bind_ext. cbn [evaluationDate].
  destruct (make_ois ql _ sc _ ix) as [sw|e]; cbn [rbind]; [|reflexivity].
  rewrite bind_ext. cbn [evaluationDate].
  destruct (set_discounting_engine ql _ sw h) as [sw'|e]; cbn [rbind];
    [|reflexivity].
  rewrite bind_ext. cbn [evaluationDate].
  destruct (fairRate ql _ sw') as [fr|e]; cbn [rbind]; [|reflexivity].
  rewrite bind_ext. cbn [evaluationDate].
  destruct (swap_NPV ql _ sw') as [un|e]; cbn [rbind]; reflexivity.
Qed.

Lemma setup_value_nodes c nd ndf d m :
  setup_value c nd ndf d = Ok m -> node_dates ql m = nd /\ node_dfs ql m = ndf.
Proof.
  unfold setup_value.
  destruct (build_curve ql _ _ _ _) as [h|e]; cbn [rbind]; [|discriminate].
  destruct (get_index ql _ h) as [ix|e]; cbn [rbind]; [|discriminate].
  destruct (make_schedule ql _ _ _) as [sc|e]; cbn [rbind]; [|discriminate].
  destruct (match custom_dates c with Some _ => _ | None => _ end) as [exd|e];
    cbn [rbind]; [|discriminate].
  destruct (make_ois ql _ sc _ ix) as [sw|e]; cbn [rbind]; [|discriminate].
  destruct (set_discounting_engine ql _ sw h) as [sw'|e]; cbn [rbind];
    [|discriminate].
  destruct (fairRate ql _ sw') as [fr|e]; cbn [rbind]; [|discriminate].
  destruct (swap_NPV ql _ sw') as [un|e]; cbn [rbind]; [|discriminate].
  intro H. inversion H. split; reflexivity.
Qed.

(** The curve block only prints. *)
Lemma validate_dfs_prints nodes (s : state ql) :
  exists ls, snd (validate_dfs ql nodes s) = printed ql ls s.
Proof.
  revert s. induction nodes as [|[dt df] l IH]; intro s.
  - exists []. cbn. rewrite printed_nil. reflexivity.
  - cbn [validate_dfs]. destruct (Rleb df 0).
    + exists []. cbn. rewrite printed_nil. reflexivity.
    + destruct (Rltb 1.05 df); cbn [when].
      * rewrite bind_print. destruct (IH (printed ql [WarnDfAbove dt df] s)) as [ls E].
        exists ([WarnDfAbove dt df] ++ ls). rewrite E, printed_app. reflexivity.
      * rewrite bind_ret. apply IH.
Qed.

Lemma setup_curve_prints_state (s : state ql) :
  exists ls, snd (setup_curve ql s) = printed ql ls s.
Proof.
  unfold setup_curve. rewrite bind_gets.
  destruct (live_pairs _ _) as [|p0 l].
  - exists []. cbn. rewrite printed_nil. reflexivity.
  - cbv zeta. rewrite combine_fst_snd.
    set (nd := dedup_nodes (sort_nodes (p0 :: l))).
    destruct (validate_dfs_prints nd s) as [ls E].
    unfold bind at 1. destruct (validate_dfs ql nd s) as [[[]|e] s1];
      cbn [snd] in E; subst s1.
    + unfold bind. rewrite warn_non_monotone_eq, printed_app. eexists. reflexivity.
    + exists ls. reflexivity.
Qed.

(** Whatever the curve, the run of [setup] ends in one of three ways. *)
Lemma setup_cases (s : state ql) :
  let c := cfg ql (self ql s) in
  let nodes := retained_nodes (val_date c) (curve c) in
  (exists e s', setup ql s = (Raise e, s')
                /\ evaluationDate ql s' = val_date c
                /\ scipy_calls ql s' = scipy_calls ql s)
  \/ (exists m ls,
        setup ql s = (Ok tt, after_setup s ls (with_mkt_attrs ql m (self ql s)))
        /\ live_pairs (val_date c) (curve c) <> []
        /\ Forall (fun p => 0 < snd p) nodes
        /\ setup_value c (map fst nodes) (map snd nodes) (val_date c) = Ok m).
Proof.
  intros c nodes.
  destruct (live_pairs (val_date c) (curve c)) as [|p0 l] eqn:Hp.
  { left. unfold setup. rewrite bind_gets. fold c.
    unfold bind at 1. unfold set_evaluationDate at 1. unfold bind at 1.
    match goal with
    | |- context [setup_curve ql ?s1] =>
        destruct (setup_curve_spec ql s1) as (Hnil & _ & _)
    end.
    cbn [self cfg] in Hnil. fold c in Hnil. rewrite Hnil by exact Hp.
    eexists _, _. split; [reflexivity|]. split; reflexivity. }
  destruct (positive_or_not nodes) as [Hneg|Hpos].
  { left. unfold setup. rewrite bind_gets. fold c.
    unfold bind at 1. unfold set_evaluationDate at 1. unfold bind at 1.
    match goal with
    | |- context [setup_curve ql ?s1] =>
        destruct (setup_curve_spec ql s1) as (_ & Hneg' & _);
        pose proof (setup_curve_prints_state s1) as Hpr
    end.
    cbn [self cfg] in Hneg'. fold c in Hneg'. fold nodes in Hneg'.
    destruct Hneg' as [s' E]; [rewrite Hp; discriminate | exact Hneg |].
    rewrite E in Hpr. cbn [snd] in Hpr. destruct Hpr as [ls ->].
    rewrite E. eexists _, _. split; [reflexivity|]. split; reflexivity. }
  assert (Hp' : live_pairs (val_date c) (curve c) <> [])
    by (rewrite Hp; discriminate).
  pose proof (setup_eq s Hp' Hpos) as E. cbv zeta in E. fold c nodes in E.
  destruct (setup_value c (map fst nodes) (map snd nodes) (val_date c))
    as [m|e] eqn:Hv.
  - right. exists m, (df_warnings nodes ++ monotone_warnings nodes).
    split; [exact E|]. split; [discriminate|]. split; [exact Hpos | reflexivity].
  - left. eexists _, _. split; [exact E|]. split; reflexivity.
Qed.

End SetupOutcome.

Section SetupProperties.

Variable ql : QuantLib.
Variable sp : SciPy.

Lemma retained_nodes_nonempty val raw :
  live_pairs val raw <> [] -> retained_nodes val raw <> [].
Proof.
  intros Hp Hr. destruct (live_pairs val raw) as [|p0 l] eqn:E; [congruence|].
  assert (H : last_df (fst p0) (retained_nodes val raw) = None)
    by (rewrite Hr; reflexivity).
  unfold retained_nodes in H.
  rewrite last_df_dedup_nodes, last_df_sort_nodes, E in H.
  apply last_df_None in H. apply H. left. reflexivity.
Qed.

(** After a successful [setup], the curve nodes kept in [self.node_dates]
    and [self.node_dfs] (and handed to [build_curve]) are the retained
    nodes: there is at least one, the two lists have the same length, the
    dates are strictly increasing and all after the valuation date, and
    every discount factor is positive, whatever the order, the duplicates
    and the stale dates of the input. *)
Theorem setup_nodes_well_formed (s s' : state ql) :
  setup ql s = (Ok tt, s') ->
  let c := cfg ql (self ql s) in
  exists m,
    mkt_attrs ql (self ql s') = Some m
    /\ combine (node_dates ql m) (node_dfs ql m)
       = retained_nodes (val_date c) (curve c)
    /\ node_dates ql m <> []
    /\ length (node_dates ql m) = length (node_dfs ql m)
    /\ StronglySorted Z.lt (node_dates ql m)
    /\ Forall (fun d => (val_date c < d)%Z) (node_dates ql m)
    /\ Forall (fun df => 0 < df) (node_dfs ql m).
Proof.
  intros Hrun c.
  destruct (setup_cases ql s) as [(e & s1 & E & _)|(m & ls & E & Hp & Hpos & Hv)].
  { rewrite E in Hrun. discriminate. }
  fold c in Hp, Hpos, Hv.
  rewrite E in Hrun. inversion Hrun; subst s'. clear Hrun.
  apply setup_value_nodes in Hv. destruct Hv as [Hnd Hndf].
  exists m. unfold after_setup. sproj. rewrite Hnd, Hndf.
  split; [reflexivity|]. split; [apply combine_fst_snd|].
  split.
  { intro H. apply map_eq_nil in H.
    exact (retained_nodes_nonempty _ _ Hp H). }
  split; [rewrite !length_map; reflexivity|].
  split; [apply retained_nodes_increasing|].
  split; [apply retained_nodes_after|].
  apply Forall_forall. intros df Hdf. apply in_map_iff in Hdf.
  destruct Hdf as (p & <- & Hin). rewrite Forall_forall in Hpos.
  apply Hpos, Hin.
Qed.

(** A date that appears several times in the curve keeps the discount
    factor of its last entry: a pair is retained exactly when its date is
    after the valuation date and its discount factor is that of the last
    parsable entry with this date, in input order. *)
Theorem curve_last_entry_of_a_date_wins (val : date) (raw : list raw_node)
    (d : date) (df : R) :
  In (d, df) (retained_nodes val raw)
  <-> last_df d (live_pairs val raw) = Some df.
Proof.
  rewrite (last_df_unique d df (retained_nodes val raw)
             (retained_nodes_increasing val raw)).
  unfold retained_nodes. rewrite last_df_dedup_nodes, last_df_sort_nodes.
  reflexivity.
Qed.

(** [setup] sets QuantLib's global evaluation date to the valuation date
    before anything else: this is the evaluation date it leaves behind on
    every outcome, also when the curve is rejected; it calls no solver. *)
Theorem setup_sets_evaluation_date (s : state ql) :
  evaluationDate ql (snd (setup ql s)) = val_date (cfg ql (self ql s))
  /\ scipy_calls ql (snd (setup ql s)) = scipy_calls ql s.
Proof.
  destruct (setup_cases ql s) as [(e & s1 & E & H1 & H2)|(m & ls & E & _)];
    rewrite E; cbn [snd].
  - split; assumption.
  - split; reflexivity.
Qed.

(** The stages must run in order.  On a pricer as [__init__] leaves it,
    [calibrate] raises [AttributeError] (it reads [self.yts_h], which
    [setup] assigns) and [compute_greeks] raises [AttributeError] (it
    reads [self.sigma_total], which [calibrate] assigns); neither changes
    anything.  After [setup] alone, [compute_greeks] still raises. *)
Theorem stages_out_of_order (d : date) (out : list line)
    (calls : list solver_call) (c : config) :
  let s := Build_state ql d out calls (__init__ ql c) in
  calibrate ql sp s = (Raise (AttributeError "yts_h"), s)
  /\ compute_greeks ql sp s = (Raise (AttributeError "sigma_total"), s)
  /\ (forall s', setup ql s = (Ok tt, s') ->
        compute_greeks ql sp s' = (Raise (AttributeError "sigma_total"), s')).
Proof.
  intro s. split; [reflexivity|]. split; [reflexivity|].
  intros s' Hrun.
  destruct (setup_cases ql s) as [(e & s1 & E & _)|(m & ls & E & _)];
    rewrite E in Hrun; [discriminate|].
  inversion Hrun; subst s'. reflexivity.
Qed.

End SetupProperties.

Lemma setup_nodes_well_formed_witness :
  exists m,
    mkt_attrs toy (toy_setup_pricer (toy_config [365%Z] 1 1 0) [365%Z]) = Some m
    /\ combine (node_dates toy m) (node_dfs toy m)
       = retained_nodes 0%Z (curve (toy_config [365%Z] 1 1 0))
    /\ node_dates toy m <> []
    /\ length (node_dates toy m) = length (node_dfs toy m)
    /\ StronglySorted Z.lt (node_dates toy m)
    /\ Forall (fun d => (0 < d)%Z) (node_dates toy m)
    /\ Forall (fun df => 0 < df) (node_dfs toy m).
Proof.
  exact (setup_nodes_well_formed toy
           (toy_state (__init__ toy (toy_config [365%Z] 1 1 0)))
           (toy_state (toy_setup_pricer (toy_config [365%Z] 1 1 0) [365%Z]))
           toy_setup_run).
Defined.

(** ** [calibrate] with or without a target *)

Section CalibrateAny.

Variable ql : QuantLib.
Variable sp : SciPy.

(** The state after the solver calls [cs] have been made and the lines
    [ls] printed. *)
Definition called (cs : list solver_call) (ls : list line) (s : state ql)
    : state ql :=
  Build_state ql (evaluationDate ql s) (stdout ql s ++ ls)
    (scipy_calls ql s ++ cs) (self ql s).

Lemma called_called cs1 ls1 cs2 ls2 s :
  called cs2 ls2 (called cs1 ls1 s) = called (cs1 ++ cs2) (ls1 ++ ls2) s.
Proof. unfold called. cbn. rewrite !app_assoc. reflexivity. Qed.

Lemma run_optimizer_state {X} (t : optimizer X) (f : X -> M ql R) s :
  (forall x, unchanged ql (f x)) ->
  run_optimizer t f s = (fst (run_optimizer t f s), s).
Proof.
  intro Hf. pose proof (unchanged_run_optimizer ql t f Hf s) as U.
  destruct (run_optimizer t f s) as [r s1]. cbn in *. subst. reflexivity.
Qed.

Lemma run_rootfinder_state (t : rootfinder) (f : R -> M ql R) s :
  (forall x, unchanged ql (f x)) ->
  run_rootfinder t f s = (fst (run_rootfinder t f s), s).
Proof.
  intro Hf. pose proof (unchanged_run_rootfinder ql t f Hf s) as U.
  destruct (run_rootfinder t f s) as [r s1]. cbn in *. subst. reflexivity.
Qed.

(** The ATM fit: one call of [minimize], perhaps a warning, and a
    volatility above the floor of 1e-8. *)
Lemma _calib_sigma_atm_outcome h bk (s : state ql) :
  exists r ls,
    _calib_sigma_atm ql sp h bk s = (r, called [CallMinimize atm_options] ls s)
    /\ (forall v, r = Ok v -> 1e-8 < v).
Proof.
  unfold _calib_sigma_atm, minimize.
  unfold bind at 1. unfold bind at 1. unfold record_call at 1.
  match goal with
  | |- context [run_optimizer ?t ?f ?s1] =>
      rewrite (run_optimizer_state t f s1)
        by (intro x; apply unchanged_atm_objective);
      destruct (fst (run_optimizer t f s1)) as [[x ok]|e]
  end.
  - destruct ok; cbn [negb when].
    + exists (Ok (1e-8 + exp x)), []. split.
      * unfold called. rewrite app_nil_r. reflexivity.
      * intros v H. inversion H. pose proof (exp_pos x). lra.
    + exists (Ok (1e-8 + exp x)), [WarnAtmNotConverged]. split.
      * reflexivity.
      * intros v H. inversion H. pose proof (exp_pos x). lra.
  - exists (Raise e), []. split.
    + unfold called. rewrite app_nil_r. reflexivity.
    + intros v H. discriminate.
Qed.

Lemma _calib_joint_outcome h bk (s : state ql) :
  exists r ls,
    _calib_joint ql sp h bk s = (r, called [CallMinimize joint_options] ls s)
    /\ (forall a_cal v, r = Ok (a_cal, v) ->
          A_MIN < a_cal < A_MAX /\ 1e-8 < v).
Proof.
  unfold _calib_joint, minimize. cbv zeta.
  unfold bind at 1. unfold bind at 1. unfold record_call at 1.
  match goal with
  | |- context [run_optimizer ?t ?f ?s1] =>
      rewrite (run_optimizer_state t f s1)
        by (intro x; apply unchanged_joint_objective);
      destruct (fst (run_optimizer t f s1)) as [[x ok]|e]
  end.
  - destruct ok; cbn [negb when].
    + exists (Ok (_inv_logit (fst x), 1e-8 + exp (snd x))), []. split.
      * unfold called. rewrite app_nil_r. reflexivity.
      * intros a_cal v H. inversion H. split; [apply _inv_logit_range|].
        pose proof (exp_pos (snd x)). lra.
    + exists (Ok (_inv_logit (fst x), 1e-8 + exp (snd x))),
        [WarnJointNotConverged]. split.
      * reflexivity.
      * intros a_cal v H. inversion H. split; [apply _inv_logit_range|].
        pose proof (exp_pos (snd x)). lra.
  - exists (Raise e), []. split.
    + unfold called. rewrite app_nil_r. reflexivity.
    + intros a_cal v H. discriminate.
Qed.

Definition brentq_call : solver_call := CallBrentq (ln 0.001) (ln 0.05).

(** The options of the basket fit that stage 1 and the Vega bumps run. *)
Definition stage1_options (c : config) : nm_options :=
  if calib_a c then joint_options else atm_options.

(** The state after the solver calls [cs] have been made. *)
Definition with_calls (cs : list solver_call) (s : state ql) : state ql :=
  Build_state ql (evaluationDate ql s) (stdout ql s) (scipy_calls ql s ++ cs)
    (self ql s).

(** The inverse fit, case by case: the bracketed search returns a root,
    or it fails and the fallback simplex search runs. *)
Lemma _inverse_solve_cases target (s : state ql) :
  let f := inverse_residual ql target in
  let s1 := with_calls [brentq_call] s in
  let s2 := with_calls [CallMinimize inverse_options] s1 in
  (exists r,
     run_rootfinder (brentq sp (ln 0.001) (ln 0.05) 1e-12) f s1 = (Ok r, s1)
     /\ _inverse_solve ql sp target s = (Ok (exp r), s1))
  \/ (exists e,
        run_rootfinder (brentq sp (ln 0.001) (ln 0.05) 1e-12) f s1
        = (Raise e, s1)
        /\ ((exists x, _inverse_solve ql sp target s = (Ok (exp x), s2))
            \/ (exists e', _inverse_solve ql sp target s = (Raise e', s2)))).
Proof.
  intros f s1 s2.
  assert (Hf : forall x, unchanged ql (f x))
    by (intro x; apply unchanged_inverse_residual).
  set (g := fun x : R => bind (f x) (fun y : R => ret (ql := ql) (y ^ 2))).
  assert (Hg : forall x, unchanged ql (g x)).
  { intro x. apply unchanged_bind; [apply Hf | intro; apply unchanged_ret]. }
  pose proof (run_rootfinder_state
                (brentq sp (ln 0.001) (ln 0.05) 1e-12) f s1 Hf) as E1.
  pose proof (run_optimizer_state
                (minimize1 sp (ln 0.007) inverse_options) g s2 Hg) as E2.
  assert (E : _inverse_solve ql sp target s
              = match run_rootfinder (brentq sp (ln 0.001) (ln 0.05) 1e-12) f s1
                with
                | (Ok r, s') => (Ok (exp r), s')
                | (Raise _, _) =>
                    match run_optimizer
                            (minimize1 sp (ln 0.007) inverse_options) g s2 with
                    | (Ok (x, _), s') => (Ok (exp x), s')
                    | (Raise e', s') => (Raise e', s')
                    end
                end).
  { unfold _inverse_solve, call_brentq, try_except, minimize.
    unfold bind at 1. unfold bind at 1. unfold record_call at 1.
    fold f. change (Build_state ql (evaluationDate ql s) (stdout ql s)
                      (scipy_calls ql s ++ [CallBrentq (ln 0.001) (ln 0.05)])
                      (self ql s)) with s1.
    rewrite E1. destruct (fst (run_rootfinder _ f s1)) as [r|e];
      [reflexivity|].
    unfold bind at 1. unfold bind at 1. unfold record_call at 1.
    fold g. change (Build_state ql (evaluationDate ql s1) (stdout ql s1)
                      (scipy_calls ql s1 ++ [CallMinimize inverse_options])
                      (self ql s1)) with s2.
    rewrite E2. destruct (fst (run_optimizer _ g s2)) as [[x ok]|e'];
      reflexivity. }
  rewrite E. rewrite E1.
  destruct (fst (run_rootfinder _ f s1)) as [r|e].
  - left. exists r. split; reflexivity.
  - right. exists e. split; [reflexivity|]. rewrite E2.
    destruct (fst (run_optimizer _ g s2)) as [[x ok]|e'].
    + left. exists x. reflexivity.
    + right. exists e'. reflexivity.
Qed.

End CalibrateAny.

Section CalibrateGeneral.

Variable ql : QuantLib.
Variable sp : SciPy.

(** [p'] is [p] up to the attributes [berm] and [npv]. *)
Definition same_but_price (p p' : pricer ql) : Prop :=
  cfg ql p' = cfg ql p /\ a ql p' = a ql p
  /\ mkt_attrs ql p' = mkt_attrs ql p /\ basket ql p' = basket ql p
  /\ sigma_atm ql p' = sigma_atm ql p /\ sigma_inv ql p' = sigma_inv ql p
  /\ delta_spread ql p' = delta_spread ql p
  /\ sigma_total ql p' = sigma_total ql p /\ greeks ql p' = greeks ql p.

Lemma same_but_price_refl p : same_but_price p p.
Proof. repeat split. Qed.

(** The last step of [calibrate] (lines 445-446 and 466-467): the
    instrument is rebuilt and priced at [self.sigma_total]. *)
Definition final_price_post (s : state ql) (r : result unit) (s' : state ql)
    : Prop :=
  same_but_price (self ql s) (self ql s')
  /\ evaluationDate ql s' = evaluationDate ql s
  /\ scipy_calls ql s' = scipy_calls ql s
  /\ stdout ql s' = stdout ql s
  /\ (r = Ok tt ->
      exists m b p st,
        mkt_attrs ql (self ql s') = Some m
        /\ sigma_total ql (self ql s') = Some st
        /\ berm ql (self ql s') = Some b
        /\ price_value ql (self ql s') (evaluationDate ql s') (yts_h ql m) b st
           = Ok p
        /\ npv ql (self ql s') = Some p).

Lemma wp_final_price (s : state ql) :
  wp ql
    (bind (_build_berm ql) (fun x =>
     let (_, b) := x in
     bind (assign (with_berm ql b)) (fun _ =>
     bind (market_attr "yts_h" (yts_h ql)) (fun h =>
     bind (attr "berm" (berm ql)) (fun b =>
     bind (attr "sigma_total" (sigma_total ql)) (fun s_tot =>
     bind (_price_berm ql h b s_tot) (fun p =>
     assign (with_npv ql p))))))))
    (final_price_post s) s.
Proof.
  assert (Hraise : forall e s',
            same_but_price (self ql s) (self ql s') ->
            evaluationDate ql s' = evaluationDate ql s ->
            scipy_calls ql s' = scipy_calls ql s ->
            stdout ql s' = stdout ql s ->
            final_price_post s (Raise e) s').
  { intros e s' H1 H2 H3 H4. repeat split; try apply H1; try assumption.
    discriminate. }
  apply wp_bind.
  destruct (mkt_attrs ql (self ql s)) as [m|] eqn:Hm.
  2:{ eapply wp_eq; [apply _build_berm_unset; exact Hm|].
      apply Hraise; try reflexivity. apply same_but_price_refl. }
  eapply wp_eq; [apply (_build_berm_eq ql _ m); exact Hm|].
  destruct (berm_value ql _ m _) as [[sw b]|e].
  2:{ apply Hraise; try reflexivity. apply same_but_price_refl. }
  apply wp_bind, wp_assign. apply wp_bind, wp_market_attr. sproj. rewrite Hm.
  apply wp_bind, wp_attr. sproj. apply wp_bind, wp_attr. sproj.
  destruct (sigma_total ql (self ql s)) as [st|] eqn:Hst.
  2:{ apply Hraise; try reflexivity. repeat split. }
  apply wp_bind. eapply wp_eq; [apply _price_berm_eq|]. sproj.
  match goal with
  | |- match ?v with _ => _ end => destruct v as [p|e] eqn:Hp
  end.
  2:{ apply Hraise; try reflexivity. repeat split. }
  apply wp_assign. unfold final_price_post, same_but_price. sproj.
  repeat split; try reflexivity.
  intros _. exists m, b, p, st. repeat split; assumption.
Qed.

(** What [calibrate] never changes. *)
Definition calibrate_frame (s0 s : state ql) : Prop :=
  cfg ql (self ql s) = cfg ql (self ql s0)
  /\ mkt_attrs ql (self ql s) = mkt_attrs ql (self ql s0)
  /\ greeks ql (self ql s) = greeks ql (self ql s0)
  /\ evaluationDate ql s = evaluationDate ql s0
  /\ (calib_a (cfg ql (self ql s0)) = false -> a ql (self ql s) = a ql (self ql s0)).

(** Stage 1 (lines 420-430) with the fitted values. *)
Definition stage1_value_post (s0 : state ql) (calib : bool) (r : result unit)
    (s1 : state ql) : Prop :=
  cfg ql (self ql s1) = cfg ql (self ql s0)
  /\ mkt_attrs ql (self ql s1) = mkt_attrs ql (self ql s0)
  /\ greeks ql (self ql s1) = greeks ql (self ql s0)
  /\ evaluationDate ql s1 = evaluationDate ql s0
  /\ (calib = false -> a ql (self ql s1) = a ql (self ql s0))
  /\ (r = Ok tt ->
      exists sa, sigma_atm ql (self ql s1) = Some sa /\ 1e-8 < sa
                 /\ (calib = true -> A_MIN < a ql (self ql s1) < A_MAX)
                 /\ scipy_calls ql s1
                    = scipy_calls ql s0
                      ++ [CallMinimize (if calib then joint_options
                                        else atm_options)]).

Lemma wp_stage1_value (s : state ql) (calib : bool) :
  wp ql
    (if calib then
       bind (market_attr "yts_h" (yts_h ql)) (fun h =>
       bind (attr "basket" (basket ql)) (fun bk =>
       bind (_calib_joint ql sp h bk) (fun x =>
       let (a_cal, sigma_cal) := x in
       bind (assign (with_a ql a_cal)) (fun _ =>
       assign (with_sigma_atm ql sigma_cal)))))
     else
       bind (market_attr "yts_h" (yts_h ql)) (fun h =>
       bind (attr "basket" (basket ql)) (fun bk =>
       bind (_calib_sigma_atm ql sp h bk) (fun sigma =>
       assign (with_sigma_atm ql sigma)))))
    (stage1_value_post s calib) s.
Proof.
  assert (Hraise : forall e s',
            self ql s' = self ql s ->
            evaluationDate ql s' = evaluationDate ql s ->
            stage1_value_post s calib (Raise e) s').
  { intros e s' H1 H2. unfold stage1_value_post. rewrite H1, H2.
    repeat split. discriminate. }
  destruct calib.
  - apply wp_bind, wp_market_attr.
    destruct (mkt_attrs ql (self ql s)) as [m|] eqn:Hm;
      [|apply Hraise; reflexivity].
    apply wp_bind, wp_attr.
    destruct (basket ql (self ql s)) as [bk|];
      [|apply Hraise; reflexivity].
    apply wp_bind.
    destruct (_calib_joint_outcome ql sp (yts_h ql m) bk s) as (r & ls & E & Hv).
    unfold wp at 1. rewrite E. cbn [fst snd].
    destruct r as [[a_cal sigma_cal]|e]; [|apply Hraise; reflexivity].
    apply wp_bind, wp_assign. apply wp_assign.
    unfold stage1_value_post, called. sproj.
    repeat split; try discriminate.
    intros _. destruct (Hv a_cal sigma_cal eq_refl) as [Ha Hsig].
    exists sigma_cal. split; [reflexivity|]. split; [exact Hsig|].
    split; [intros _; exact Ha | reflexivity].
  - apply wp_bind, wp_market_attr.
    destruct (mkt_attrs ql (self ql s)) as [m|] eqn:Hm;
      [|apply Hraise; reflexivity].
    apply wp_bind, wp_attr.
    destruct (basket ql (self ql s)) as [bk|];
      [|apply Hraise; reflexivity].
    apply wp_bind.
    destruct (_calib_sigma_atm_outcome ql sp (yts_h ql m) bk s)
      as (r & ls & E & Hv).
    unfold wp at 1. rewrite E. cbn [fst snd].
    destruct r as [sigma|e]; [|apply Hraise; reflexivity].
    apply wp_assign. unfold stage1_value_post, called. sproj.
    repeat split.
    intros _. exists sigma. split; [reflexivity|].
    split; [exact (Hv sigma eq_refl)|]. split; [discriminate | reflexivity].
Qed.

(** What a run of [calibrate] guarantees, with or without a target. *)
Definition calibrated (s0 : state ql) (r : result unit) (s' : state ql) : Prop :=
  calibrate_frame s0 s'
  /\ (r = Ok tt ->
      exists sa ds st m b p,
        sigma_atm ql (self ql s') = Some sa
        /\ delta_spread ql (self ql s') = Some ds
        /\ sigma_total ql (self ql s') = Some st
        /\ sigma_inv ql (self ql s') = Some st
        /\ st = sa + ds
        /\ 1e-8 < sa /\ 0 < st
        /\ (calib_a (cfg ql (self ql s0)) = true ->
            A_MIN < a ql (self ql s') < A_MAX)
        /\ mkt_attrs ql (self ql s') = Some m
        /\ berm ql (self ql s') = Some b
        /\ price_value ql (self ql s') (evaluationDate ql s') (yts_h ql m) b st
           = Ok p
        /\ npv ql (self ql s') = Some p
        /\ exists inv,
             scipy_calls ql s'
             = scipy_calls ql s0
               ++ CallMinimize (stage1_options (cfg ql (self ql s0))) :: inv
             /\ (bbg_npv (cfg ql (self ql s0)) = 0 -> inv = [])
             /\ (bbg_npv (cfg ql (self ql s0)) <> 0 ->
                 inv = [brentq_call]
                 \/ inv = [brentq_call; CallMinimize inverse_options])).

Lemma calibrated_raise s0 e s' :
  calibrate_frame s0 s' -> calibrated s0 (Raise e) s'.
Proof. intro H. split; [exact H | discriminate]. Qed.

Lemma wp_calibrate_any (s0 : state ql) :
  wp ql (calibrate ql sp) (calibrated s0) s0.
Proof.
  unfold calibrate.
  apply wp_bind, wp_unchanged; [apply unchanged__build_basket|].
  intros [bk|e] _; [|apply calibrated_raise; repeat split].
  apply wp_bind, wp_assign. apply wp_bind, wp_gets. sproj.
  apply wp_bind.
  eapply wp_conseq; [apply wp_stage1_value|].
  cbn [self cfg with_basket mkt_attrs greeks evaluationDate a].
  intros [[]|e] s1 (Hc & Hk & Hg & Hd & Ha & Hs);
    [|apply calibrated_raise; repeat split; assumption].
  destruct (Hs eq_refl) as (sa & Hsa & Hsa_pos & Ha_rng & Hcalls). clear Hs.
  assert (Hfit : scipy_calls ql s1
                 = scipy_calls ql s0
                   ++ [CallMinimize (stage1_options (cfg ql (self ql s0)))])
    by exact Hcalls.
  assert (Hfr : calibrate_frame s0 s1) by (repeat split; assumption).
  (* NPV at the ATM volatility (lines 432-433) *)
  apply wp_bind.
  destruct (mkt_attrs ql (self ql s1)) as [m|] eqn:Hm.
  2:{ eapply wp_eq; [apply _build_berm_unset; exact Hm|].
      apply calibrated_raise, Hfr. }
  eapply wp_eq; [apply (_build_berm_eq ql _ m); exact Hm|].
  destruct (berm_value ql _ m _) as [[sw0 b0]|e];
    [|apply calibrated_raise, Hfr].
  apply wp_bind, wp_market_attr. rewrite Hm.
  apply wp_bind, wp_attr. rewrite Hsa.
  apply wp_bind. eapply wp_eq; [apply _price_berm_eq|].
  destruct (price_value ql _ _ _ b0 sa) as [npv_atm|e];
    [|apply calibrated_raise, Hfr].
  apply wp_bind, wp_gets.
  destruct (Reqb (bbg_npv (cfg ql (self ql s1))) 0) eqn:Ht.
  - (* no target *)
    apply wp_bind, wp_attr. rewrite Hsa.
    apply wp_bind, wp_assign. apply wp_bind, wp_assign.
    apply wp_bind, wp_attr. sproj. rewrite Hsa.
    apply wp_bind, wp_assign.
    eapply wp_conseq; [apply wp_final_price|].
    intros r s' ((Fc & Fa & Fk & Fb & Fsa & Fsi & Fds & Fst & Fg)
                 & Fd & Fcalls & _ & Fok).
    sproj. split.
    + repeat split; try congruence. intro Hca. rewrite Fa. apply Ha, Hca.
    + intro Hr. destruct (Fok Hr) as (m' & b & p & st & G1 & G2 & G3 & G4 & G5).
      exists sa, 0, st, m', b, p.
      assert (st = sa) by congruence. subst st.
      split; [congruence|]. split; [congruence|]. split; [congruence|].
      split; [congruence|]. split; [lra|]. split; [exact Hsa_pos|].
      split; [lra|].
      split; [intro Hca; rewrite Fa; apply Ha_rng, Hca|].
      split; [exact G1|]. split; [exact G3|]. split; [exact G4|].
      split; [exact G5|].
      exists []. split; [rewrite Fcalls; exact Hfit|]. split; [reflexivity|].
      intro Hne. exfalso. apply Hne. rewrite <- Hc. apply Reqb_true, Ht.
  - (* inverse fit *)
    apply wp_bind.
    destruct (_inverse_solve_cases ql sp (bbg_npv (cfg ql (self ql s1))) s1)
      as [(r & _ & E)|(e & _ & [(x & E)|(e' & E)])];
      unfold wp at 1; rewrite E; cbn [fst snd]; unfold with_calls; sproj;
      [|
       |apply calibrated_raise; exact Hfr].
    + apply wp_bind, wp_assign. apply wp_bind, wp_attr. sproj.
      apply wp_bind, wp_attr. sproj. rewrite Hsa.
      apply wp_bind, wp_assign. apply wp_bind, wp_attr. sproj.
      apply wp_bind, wp_assign.
      eapply wp_conseq; [apply wp_final_price|].
      intros r0 s' ((Fc & Fa & Fk & Fb & Fsa & Fsi & Fds & Fst & Fg)
                    & Fd & Fcalls & _ & Fok).
      sproj. split.
      * repeat split; try congruence. intro Hca. rewrite Fa. apply Ha, Hca.
      * intro Hr.
        destruct (Fok Hr) as (m' & b & p & st & G1 & G2 & G3 & G4 & G5).
        exists sa, (exp r - sa), st, m', b, p.
        assert (st = exp r) by congruence. subst st.
        split; [congruence|]. split; [congruence|]. split; [congruence|].
        split; [congruence|]. split; [lra|]. split; [exact Hsa_pos|].
        split; [apply exp_pos|].
        split; [intro Hca; rewrite Fa; apply Ha_rng, Hca|].
        split; [exact G1|]. split; [exact G3|]. split; [exact G4|].
        split; [exact G5|].
        exists [brentq_call].
        split; [rewrite Fcalls, Hfit, <- app_assoc; reflexivity|].
        split; [|left; reflexivity].
        intro Hz. exfalso. apply Reqb_false in Ht. apply Ht.
        rewrite Hc. exact Hz.
    + apply wp_bind, wp_assign. apply wp_bind, wp_attr. sproj.
      apply wp_bind, wp_attr. sproj. rewrite Hsa.
      apply wp_bind, wp_assign. apply wp_bind, wp_attr. sproj.
      apply wp_bind, wp_assign.
      eapply wp_conseq; [apply wp_final_price|].
      intros r0 s' ((Fc & Fa & Fk & Fb & Fsa & Fsi & Fds & Fst & Fg)
                    & Fd & Fcalls & _ & Fok).
      sproj. split.
      * repeat split; try congruence. intro Hca. rewrite Fa. apply Ha, Hca.
      * intro Hr.
        destruct (Fok Hr) as (m' & b & p & st & G1 & G2 & G3 & G4 & G5).
        exists sa, (exp x - sa), st, m', b, p.
        assert (st = exp x) by congruence. subst st.
        split; [congruence|]. split; [congruence|]. split; [congruence|].
        split; [congruence|]. split; [lra|]. split; [exact Hsa_pos|].
        split; [apply exp_pos|].
        split; [intro Hca; rewrite Fa; apply Ha_rng, Hca|].
        split; [exact G1|]. split; [exact G3|]. split; [exact G4|].
        split; [exact G5|].
        exists [brentq_call; CallMinimize inverse_options].
        split; [rewrite Fcalls, Hfit, <- !app_assoc; reflexivity|].
        split; [|right; reflexivity].
        intro Hz. exfalso. apply Reqb_false in Ht. apply Ht.
        rewrite Hc. exact Hz.
Qed.

End CalibrateGeneral.

Section CalibrateProperties.

Variable ql : QuantLib.
Variable sp : SciPy.

(** The hybrid decomposition.  Whenever [calibrate] returns, with or
    without a target, the total volatility is the ATM volatility plus the
    stored spread, the inverse volatility is the total volatility, the
    ATM volatility is at least its floor of 1e-8, the total volatility is
    not negative, and [self.npv] is the oracle's price of [self.berm] at
    the total volatility under the mean reversion [calibrate] leaves in
    [self.a], which lies within the bounds [[A_MIN, A_MAX]] when it was
    calibrated. *)
Theorem calibrate_hybrid_decomposition (s s' : state ql) :
  calibrate ql sp s = (Ok tt, s') ->
  exists sa ds st m b p,
    sigma_atm ql (self ql s') = Some sa
    /\ delta_spread ql (self ql s') = Some ds
    /\ sigma_total ql (self ql s') = Some st
    /\ sigma_inv ql (self ql s') = Some st
    /\ st = sa + ds
    /\ 1e-8 <= sa /\ 0 <= st
    /\ (calib_a (cfg ql (self ql s)) = true ->
        A_MIN <= a ql (self ql s') <= A_MAX)
    /\ mkt_attrs ql (self ql s') = Some m
    /\ berm ql (self ql s') = Some b
    /\ price_value ql (self ql s') (evaluationDate ql s') (yts_h ql m) b st
       = Ok p
    /\ npv ql (self ql s') = Some p.
Proof.
  intro Hrun.
  destruct (wp_run ql _ _ _ _ _ (wp_calibrate_any ql sp s) Hrun) as [_ H].
  destruct (H eq_refl)
    as (sa & ds & st & m & b & p & H1 & H2 & H3 & H4 & H5 & H6 & H7 & H8
        & H9 & H10 & H11 & H12 & _).
  exists sa, ds, st, m, b, p.
  repeat (split; [assumption|]).
  split; [lra|]. split; [lra|].
  split; [intro Hc; specialize (H8 Hc); lra|].
  repeat (split; [assumption|]). assumption.
Qed.

(** What [calibrate] never does, on any outcome: it changes neither the
    configuration, nor the attributes [setup] assigned, nor the stored
    Greeks, nor the evaluation date; and with [calibrate_a] off it leaves
    the mean reversion as configured. *)
Theorem calibrate_leaves_setup_alone (s : state ql) :
  let s' := snd (calibrate ql sp s) in
  cfg ql (self ql s') = cfg ql (self ql s)
  /\ mkt_attrs ql (self ql s') = mkt_attrs ql (self ql s)
  /\ greeks ql (self ql s') = greeks ql (self ql s)
  /\ evaluationDate ql s' = evaluationDate ql s
  /\ (calib_a (cfg ql (self ql s)) = false -> a ql (self ql s') = a ql (self ql s)).
Proof.
  intro s'. pose proof (wp_calibrate_any ql sp s) as [H _]. exact H.
Qed.

(** The inverse fit.  Every call of [_inverse_solve] starts with one
    bracketed root search on [[ln 0.001, ln 0.05]]; the fallback simplex
    search (300 iterations) runs at most once, and only after it; nothing
    is printed and neither [self] nor the evaluation date changes.  A
    value it returns is the exponential of the solver's point, hence
    positive; when the bracketed search returns a root, the fallback does
    not run and the value is the exponential of that root. *)
Theorem inverse_solve_outcome (target : R) (s : state ql) :
  let r := fst (_inverse_solve ql sp target s) in
  let s' := snd (_inverse_solve ql sp target s) in
  let s1 := with_calls ql [CallBrentq (ln 0.001) (ln 0.05)] s in
  self ql s' = self ql s
  /\ evaluationDate ql s' = evaluationDate ql s
  /\ stdout ql s' = stdout ql s
  /\ (scipy_calls ql s' = scipy_calls ql s ++ [CallBrentq (ln 0.001) (ln 0.05)]
      \/ scipy_calls ql s'
         = scipy_calls ql s
           ++ [CallBrentq (ln 0.001) (ln 0.05); CallMinimize inverse_options])
  /\ (forall v, r = Ok v -> 0 < v)
  /\ (forall x,
        run_rootfinder (brentq sp (ln 0.001) (ln 0.05) 1e-12)
          (inverse_residual ql target) s1 = (Ok x, s1) ->
        _inverse_solve ql sp target s = (Ok (exp x), s1)).
Proof.
  intros r s' s1. subst r s'.
  destruct (_inverse_solve_cases ql sp target s)
    as [(x & Hx & E)|(e & He & [(x & E)|(e' & E)])];
    rewrite E; cbn [fst snd]; unfold with_calls; sproj;
    (split; [reflexivity|]); (split; [reflexivity|]); (split; [reflexivity|]).
  - split; [left; reflexivity|]. split.
    + intros v H. inversion H. apply exp_pos.
    + intros x' Hx'. unfold brentq_call in Hx. fold s1 in Hx.
      rewrite Hx in Hx'. inversion Hx'. reflexivity.
  - split; [right; rewrite <- app_assoc; reflexivity|]. split.
    + intros v H. inversion H. apply exp_pos.
    + intros x' Hx'. unfold brentq_call in He. fold s1 in He.
      rewrite He in Hx'. discriminate.
  - split; [right; rewrite <- app_assoc; reflexivity|]. split.
    + intros v H. discriminate.
    + intros x' Hx'. unfold brentq_call in He. fold s1 in He.
      rewrite He in Hx'. discriminate.
Qed.

End CalibrateProperties.

(** A run with a target of 1. *)
Definition target_state : state toy :=
  toy_state (toy_setup_pricer (toy_config [365%Z] 1 1 1) [365%Z]).

Lemma calibrate_hybrid_decomposition_witness :
  exists s' sa ds st,
    calibrate toy quick_sp target_state = (Ok tt, s')
    /\ sigma_atm toy (self toy s') = Some sa
    /\ delta_spread toy (self toy s') = Some ds
    /\ sigma_total toy (self toy s') = Some st
    /\ st = sa + ds.
Proof.
  assert (Htoy : toy_pricer (self toy target_state) [365%Z])
    by (repeat split).
  destruct (toy_calibrate_returns target_state [365%Z] Htoy) as (s' & Hrun & _).
  destruct (calibrate_hybrid_decomposition toy quick_sp target_state s' Hrun)
    as (sa & ds & st & m & b & p & H1 & H2 & H3 & _ & H5 & _).
  exists s', sa, ds, st.
  split; [exact Hrun|]. split; [exact H1|]. split; [exact H2|].
  split; [exact H3 | exact H5].
Defined.

(** ** [compute_greeks]: frame, solver calls, Delta and Vega *)

(** Splits an [unchanged] goal along the structure of the computation. *)
Ltac frame_step :=
  first
    [ apply unchanged_ret | apply unchanged_raise | apply unchanged_lift
    | apply unchanged_ext | apply unchanged_gets | apply unchanged_attr
    | apply unchanged_market_attr | apply unchanged_pydiv
    | apply unchanged__build_berm | apply unchanged__price_berm
    | apply unchanged__bachelier | apply unchanged__build_basket
    | apply unchanged__bump_dfs | apply unchanged__swap_npv_bumped
    | apply unchanged__reprice_with_dfs | apply unchanged_inverse_residual
    | progress cbv zeta
    | apply unchanged_bind; [|intro]
    | apply unchanged_try_except; [|intro]
    | apply unchanged_mapM; intro
    | apply unchanged_foldM; intros
    | match goal with
      | |- unchanged _ (match ?x with _ => _ end) => destruct x
      | |- unchanged _ (if ?b then _ else _) => destruct b
      end ].

Ltac frame_tac := repeat frame_step.

Section GreeksFull.

Variable ql : QuantLib.
Variable sp : SciPy.

Lemma unchanged_theta_roll ref sigma : unchanged ql (theta_roll ql ref sigma).
Proof. unfold theta_roll. frame_tac. Qed.

Lemma called_nil (s : state ql) : called ql [] [] s = s.
Proof. unfold called. rewrite !app_nil_r. destruct s; reflexivity. Qed.

(** A Vega bump makes at most one solver call, the basket fit, and exactly
    one when it returns. *)
Definition vega_bump_post (s : state ql) (r : result R) (s' : state ql)
    : Prop :=
  exists cs ls,
    s' = called ql cs ls s
    /\ (cs = [] \/ cs = [CallMinimize (stage1_options (cfg ql (self ql s)))])
    /\ (forall v, r = Ok v ->
          cs = [CallMinimize (stage1_options (cfg ql (self ql s)))]).

Lemma wp_vega_bump bp (s : state ql) :
  wp ql (vega_bump ql sp bp) (vega_bump_post s) s.
Proof.
  assert (Hnil : forall e, vega_bump_post s (Raise e) s).
  { intro e. exists [], []. rewrite called_nil.
    split; [reflexivity|]. split; [left; reflexivity | discriminate]. }
  assert (Hone : forall r ls,
            vega_bump_post s r
              (called ql [CallMinimize (stage1_options (cfg ql (self ql s)))]
                 ls s)).
  { intros r ls. eexists _, ls. split; [reflexivity|].
    split; [right; reflexivity | reflexivity]. }
  unfold vega_bump.
  apply wp_bind, wp_unchanged; [apply unchanged__build_basket|].
  intros [bk|e] _; [|apply Hnil].
  apply wp_bind, wp_gets. unfold stage1_options in Hone.
  destruct (calib_a (cfg ql (self ql s))) eqn:Hc.
  - apply wp_bind. apply wp_bind, wp_market_attr.
    destruct (mkt_attrs ql (self ql s)) as [m|]; [|apply Hnil].
    destruct (_calib_joint_outcome ql sp (yts_h ql m) bk s)
      as (r & ls & E & _).
    apply wp_bind. unfold wp at 1. rewrite E. cbn [fst snd].
    destruct r as [[a_ s_]|e]; [|apply Hone].
    apply wp_ret. apply wp_unchanged; [frame_tac|].
    intros r _. apply Hone.
  - apply wp_bind. apply wp_bind, wp_market_attr.
    destruct (mkt_attrs ql (self ql s)) as [m|]; [|apply Hnil].
    destruct (_calib_sigma_atm_outcome ql sp (yts_h ql m) bk s)
      as (r & ls & E & _).
    unfold wp at 1. rewrite E. cbn [fst snd].
    destruct r as [sig|e]; [|apply Hone].
    apply wp_unchanged; [frame_tac|].
    intros r _. apply Hone.
Qed.

(** What a run of [compute_greeks] does to the state, and the Greeks
    that are quotients of two repricings. *)
Definition greeks_frame_post (s0 : state ql) (r : result unit) (s' : state ql)
    : Prop :=
  let c := cfg ql (self ql s0) in
  let fit := CallMinimize (stage1_options c) in
  exists cs ls,
    evaluationDate ql s' = evaluationDate ql s0
    /\ stdout ql s' = stdout ql s0 ++ ls
    /\ scipy_calls ql s' = scipy_calls ql s0 ++ cs
    /\ (cs = [] \/ cs = [fit] \/ cs = [fit; fit])
    /\ match r with
       | Raise _ => self ql s' = self ql s0
       | Ok _ =>
           cs = [fit; fit]
           /\ exists m g su sd pv_up pv_dn s1 s2,
                self ql s' = with_greeks ql g (self ql s0)
                /\ mkt_attrs ql (self ql s0) = Some m
                /\ _swap_npv_bumped ql (bump_value ql c m (dv01_bp c)) s0
                   = (Ok su, s0)
                /\ _swap_npv_bumped ql (bump_value ql c m (- dv01_bp c)) s0
                   = (Ok sd, s0)
                /\ underlying_dv01 g = (sd - su) / (2 * dv01_bp c)
                /\ delta_hedge g
                   = (if Rltb 1e-12 (Rabs (underlying_dv01 g))
                      then dv01 g / underlying_dv01 g else 0)
                /\ vega_bump ql sp (vega_bp c) s0 = (Ok pv_up, s1)
                /\ vega_bump ql sp (- vega_bp c) s1 = (Ok pv_dn, s2)
                /\ vega_1bp g = (pv_up - pv_dn) / (2 * vega_bp c)
       end.

Lemma wp_compute_greeks_frame (s0 : state ql) :
  wp ql (compute_greeks ql sp) (greeks_frame_post s0) s0.
Proof.
  unfold compute_greeks.
  set (c := cfg ql (self ql s0)).
  set (fit := CallMinimize (stage1_options c)).
  assert (Hraise : forall e cs ls,
            cs = [] \/ cs = [fit] \/ cs = [fit; fit] ->
            greeks_frame_post s0 (Raise e) (called ql cs ls s0)).
  { intros e cs ls H. exists cs, ls. repeat split. exact H. }
  assert (Hraise0 : forall e, greeks_frame_post s0 (Raise e) s0).
  { intro e. rewrite <- (called_nil s0) at 2. apply Hraise. left. reflexivity. }
  apply wp_bind, wp_gets. apply wp_bind, wp_attr.
  destruct (sigma_total ql (self ql s0)) as [sigma|] eqn:Hsig; [|apply Hraise0].
  apply wp_bind, wp_gets. fold c.
  destruct (mkt_attrs ql (self ql s0)) as [m|] eqn:Hm.
  2:{ apply wp_bind. eapply wp_eq; [apply _bump_dfs_unset; exact Hm|].
      apply Hraise0. }
  apply wp_bind. eapply wp_eq; [apply (_bump_dfs_eq _ _ _ m Hm)|].
  apply wp_bind. eapply wp_eq; [apply (_bump_dfs_eq _ _ _ m Hm)|].
  fold c.
  apply wp_bind, wp_unchanged; [apply unchanged__reprice_with_dfs|].
  intros [pu|e] _; [|apply Hraise0].
  apply wp_bind, wp_unchanged; [apply unchanged__reprice_with_dfs|].
  intros [pd|e] _; [|apply Hraise0].
  apply wp_bind, wp_pydiv; [intros; apply Hraise0 | intros _].
  apply wp_bind, wp_attr.
  destruct (npv ql (self ql s0)) as [p0|]; [|apply Hraise0].
  apply wp_bind, wp_pydiv; [intros; apply Hraise0 | intros _].
  apply wp_bind, wp_unchanged; [apply unchanged__swap_npv_bumped|].
  intros [su|e] Hsu; [|apply Hraise0].
  apply wp_bind, wp_unchanged; [apply unchanged__swap_npv_bumped|].
  intros [sd|e] Hsd; [|apply Hraise0].
  apply wp_bind, wp_pydiv; [intros; apply Hraise0 | intros _].
  cbv zeta.
  (* the two Vega bumps *)
  apply wp_bind. unfold wp at 1.
  pose proof (wp_vega_bump (vega_bp c) s0) as V1. unfold wp in V1.
  destruct (vega_bump ql sp (vega_bp c) s0) as [r1 s1] eqn:E1.
  cbn [fst snd] in V1 |- *.
  destruct V1 as (cs1 & ls1 & -> & Hcs1 & Hok1). fold c fit in Hcs1, Hok1.
  destruct r1 as [pv_up|e].
  2:{ apply Hraise. destruct Hcs1 as [->| ->]; auto. }
  rewrite (Hok1 pv_up eq_refl) in *. clear Hok1 Hcs1.
  apply wp_bind. unfold wp at 1.
  pose proof (wp_vega_bump (- vega_bp c) (called ql [fit] ls1 s0)) as V2.
  unfold wp in V2.
  destruct (vega_bump ql sp (- vega_bp c) (called ql [fit] ls1 s0))
    as [r2 s2] eqn:E2.
  cbn [fst snd] in V2 |- *.
  destruct V2 as (cs2 & ls2 & -> & Hcs2 & Hok2).
  cbn [called self cfg] in Hcs2, Hok2. fold c fit in Hcs2, Hok2.
  rewrite called_called in *.
  destruct r2 as [pv_dn|e].
  2:{ apply Hraise. destruct Hcs2 as [->| ->]; auto. }
  rewrite (Hok2 pv_dn eq_refl) in *. clear Hok2 Hcs2.
  cbn [app] in *.
  apply wp_bind, wp_pydiv; [intros; apply Hraise; auto | intros _].
  apply wp_bind, wp_unchanged; [apply unchanged_theta_roll|].
  intros [theta|e] _; [|apply Hraise; auto].
  apply wp_assign. unfold greeks_frame_post. cbv zeta. fold c fit.
  exists [fit; fit], (ls1 ++ ls2). unfold called. sproj.
  split; [reflexivity|]. split; [reflexivity|]. split; [reflexivity|].
  split; [auto|]. split; [reflexivity|].
  eexists m, _, su, sd, pv_up, pv_dn, _, _.
  split; [reflexivity|]. split; [exact Hm|].
  split; [exact Hsu|]. split; [exact Hsd|].
  split; [reflexivity|]. split; [reflexivity|].
  split; [exact E1|]. split; [exact E2 | reflexivity].
Qed.

End GreeksFull.

Section GreeksProperties.

Variable ql : QuantLib.
Variable sp : SciPy.

Lemma stage1_call_not_inverse c :
  is_inverse_call (CallMinimize (stage1_options c)) = false.
Proof. unfold stage1_options. destruct (calib_a c); reflexivity. Qed.

(** What [compute_greeks] never does.  On every outcome it leaves the
    evaluation date as it found it and calls no solver of the inverse-fit
    stage (no [brentq], no fallback search); when it returns, the only
    attribute of [self] it has changed is [greeks]; when it raises, it has
    changed no attribute at all. *)
Theorem compute_greeks_changes_only_greeks (s : state ql) :
  let r := fst (compute_greeks ql sp s) in
  let s' := snd (compute_greeks ql sp s) in
  evaluationDate ql s' = evaluationDate ql s
  /\ inverse_calls ql s' = inverse_calls ql s
  /\ match r with
     | Ok _ => exists g, self ql s' = with_greeks ql g (self ql s)
     | Raise _ => self ql s' = self ql s
     end.
Proof.
  intros r s'. subst r s'.
  pose proof (wp_compute_greeks_frame ql sp s) as W. unfold wp in W.
  destruct W as (cs & ls & Hd & _ & Hc & Hcs & Hr). cbv zeta in Hcs, Hr.
  split; [exact Hd|]. split.
  - unfold inverse_calls. rewrite Hc, filter_app.
    destruct Hcs as [->|[->| ->]]; cbn [filter];
      rewrite ?stage1_call_not_inverse; apply app_nil_r.
  - destruct (fst (compute_greeks ql sp s)); [|exact Hr].
    destruct Hr as (_ & m & g & su & sd & pu & pd & s1 & s2 & H & _).
    exists g. exact H.
Qed.

(** The hybrid Vega.  A [compute_greeks] that returns has called the
    solver exactly twice, once for each Vega bump, each time for the
    basket fit of stage 1 (the joint fit when [calibrate_a] is on, the
    ATM fit otherwise); the stored Vega is the centered difference of the
    two bumped prices over twice the Vega bump size; and neither bump
    changes [self]: the basket, the mean reversion and the spread stay as
    [calibrate] left them. *)
Theorem hybrid_vega_refits_twice (s s' : state ql) :
  compute_greeks ql sp s = (Ok tt, s') ->
  let c := cfg ql (self ql s) in
  let fit := CallMinimize (if calib_a c then joint_options else atm_options) in
  scipy_calls ql s' = scipy_calls ql s ++ [fit; fit]
  /\ exists g pv_up pv_dn s1 s2,
       greeks ql (self ql s') = Some g
       /\ vega_bump ql sp (vega_bp c) s = (Ok pv_up, s1)
       /\ vega_bump ql sp (- vega_bp c) s1 = (Ok pv_dn, s2)
       /\ self ql s1 = self ql s /\ self ql s2 = self ql s
       /\ vega_bp c <> 0
       /\ vega_1bp g = (pv_up - pv_dn) / (2 * vega_bp c).
Proof.
  intros Hrun c fit.
  pose proof (wp_run ql _ _ _ _ _ (wp_compute_greeks_frame ql sp s) Hrun) as W.
  destruct W as (cs & ls & _ & _ & Hc & _ & (-> & m & g & su & sd & pu & pd
                 & s1 & s2 & Hself & _ & _ & _ & _ & _ & E1 & E2 & Hv)).
  fold c in E1, E2, Hv.
  split; [exact Hc|].
  exists g, pu, pd, s1, s2. rewrite Hself. sproj.
  split; [reflexivity|]. split; [exact E1|]. split; [exact E2|].
  pose proof (preserves_vega_bump ql sp (vega_bp c) s) as (K1 & _).
  rewrite E1 in K1. cbn [snd] in K1.
  pose proof (preserves_vega_bump ql sp (- vega_bp c) s1) as (K2 & _).
  rewrite E2 in K2. cbn [snd] in K2.
  split; [exact K1|]. split; [congruence|]. split; [|exact Hv].
  pose proof (wp_run ql _ _ _ _ _ (wp_compute_greeks ql sp s) Hrun eq_refl)
    as (m' & sg & p0 & pu' & pd' & g' & _ & _ & _ & _ & _ & _ & _ & _ & Hve & _).
  exact Hve.
Qed.

(** Delta is the ratio of the two DV01s, guarded against a vanishing
    denominator.  In the Greeks that a returning [compute_greeks] stores,
    the underlying DV01 is the centered difference of the swap NPVs under
    the two bumped curves; when its absolute value exceeds 1e-12, Delta
    times the underlying DV01 is the DV01; otherwise Delta is 0. *)
Theorem delta_is_guarded_dv01_ratio (s s' : state ql) :
  compute_greeks ql sp s = (Ok tt, s') ->
  let c := cfg ql (self ql s) in
  exists g m su sd,
    greeks ql (self ql s') = Some g
    /\ mkt_attrs ql (self ql s) = Some m
    /\ _swap_npv_bumped ql (bump_value ql c m (dv01_bp c)) s = (Ok su, s)
    /\ _swap_npv_bumped ql (bump_value ql c m (- dv01_bp c)) s = (Ok sd, s)
    /\ underlying_dv01 g = (sd - su) / (2 * dv01_bp c)
    /\ (1e-12 < Rabs (underlying_dv01 g) ->
        delta_hedge g * underlying_dv01 g = dv01 g)
    /\ (Rabs (underlying_dv01 g) <= 1e-12 -> delta_hedge g = 0).
Proof.
  intros Hrun c.
  pose proof (wp_run ql _ _ _ _ _ (wp_compute_greeks_frame ql sp s) Hrun) as W.
  destruct W as (cs & ls & _ & _ & _ & _ & (_ & m & g & su & sd & pu & pd
                 & s1 & s2 & Hself & Hm & Hsu & Hsd & Hu & Hdelta & _)).
  fold c in Hsu, Hsd, Hu.
  exists g, m, su, sd. rewrite Hself. sproj.
  split; [reflexivity|]. split; [exact Hm|]. split; [exact Hsu|].
  split; [exact Hsd|]. split; [exact Hu|].
  rewrite Hdelta. split.
  - intro Hgt.
    replace (Rltb 1e-12 (Rabs (underlying_dv01 g))) with true
      by (symmetry; apply Rltb_true; exact Hgt).
    assert (Hne : underlying_dv01 g <> 0).
    { intro H0. rewrite H0, Rabs_R0 in Hgt. lra. }
    field. exact Hne.
  - intro Hle.
    replace (Rltb 1e-12 (Rabs (underlying_dv01 g))) with false
      by (symmetry; apply Rltb_false; exact Hle).
    reflexivity.
Qed.

(** A bump size of zero is fatal.  When one of the three bump sizes of the
    configuration is 0, [compute_greeks] raises and stores no Greeks; and
    when it is the DV01 bump that is 0 and the two repricings have
    returned, what it raises is [ZeroDivisionError], the state being left
    as it was. *)
Theorem zero_bump_size_is_fatal (s : state ql) :
  let c := cfg ql (self ql s) in
  dv01_bp c = 0 \/ gamma_bp c = 0 \/ vega_bp c = 0 ->
  (exists e, fst (compute_greeks ql sp s) = Raise e)
  /\ self ql (snd (compute_greeks ql sp s)) = self ql s
  /\ (forall m sigma pu pd,
        dv01_bp c = 0 ->
        mkt_attrs ql (self ql s) = Some m ->
        sigma_total ql (self ql s) = Some sigma ->
        reprice_value ql (self ql s) m (val_date c) (val_date c)
          (bump_value ql c m (dv01_bp c)) sigma = Ok pu ->
        reprice_value ql (self ql s) m (val_date c) (val_date c)
          (bump_value ql c m (- dv01_bp c)) sigma = Ok pd ->
        compute_greeks ql sp s = (Raise ZeroDivisionError, s)).
Proof.
  intros c Hz.
  assert (Hraise : exists e, fst (compute_greeks ql sp s) = Raise e).
  { pose proof (wp_compute_greeks ql sp s) as W. unfold wp, greeks_post in W.
    destruct (fst (compute_greeks ql sp s)) as [[]|e]; [|exists e; reflexivity].
    exfalso. destruct (W eq_refl)
      as (m & sg & p0 & pu & pd & g & _ & _ & _ & _ & _ & _ & H1 & H2 & H3 & _).
    fold c in H1, H2, H3. destruct Hz as [H|[H|H]]; contradiction. }
  split; [exact Hraise|]. split.
  - pose proof (wp_compute_greeks_frame ql sp s) as W. unfold wp in W.
    destruct W as (cs & ls & _ & _ & _ & _ & Hr).
    destruct Hraise as [e He]. rewrite He in Hr. exact Hr.
  - intros m sigma pu pd H0 Hm Hsig Hpu Hpd.
    assert (W : wp ql (compute_greeks ql sp)
                  (fun r s' => r = Raise ZeroDivisionError /\ s' = s) s).
    { unfold compute_greeks.
      apply wp_bind, wp_gets. apply wp_bind, wp_attr. rewrite Hsig.
      apply wp_bind, wp_gets. fold c.
      apply wp_bind. eapply wp_eq; [apply (_bump_dfs_eq _ _ _ m Hm)|].
      apply wp_bind. eapply wp_eq; [apply (_bump_dfs_eq _ _ _ m Hm)|].
      fold c.
      apply wp_bind.
      eapply wp_eq; [apply (_reprice_with_dfs_eq ql _ _ _ _ _ m Hm)|].
      rewrite Hpu.
      apply wp_bind.
      eapply wp_eq; [apply (_reprice_with_dfs_eq ql _ _ _ _ _ m Hm)|].
      rewrite Hpd.
      apply wp_bind, wp_pydiv.
      - intros _. split; reflexivity.
      - intro Hne. exfalso. apply Hne. rewrite H0. ring. }
    unfold wp in W. destruct (compute_greeks ql sp s) as [r s1].
    cbn [fst snd] in W. destruct W as [-> ->]. reflexivity.
Qed.

End GreeksProperties.

(** A calibrated pricer of the instance. *)
Definition calibrated_state : state toy :=
  toy_state (toy_calibrated_pricer (toy_config [365%Z] 1 1 0) [365%Z]).

Lemma calibrated_state_greeks :
  exists s', compute_greeks toy quick_sp calibrated_state = (Ok tt, s').
Proof.
  assert (Htoy : toy_pricer (self toy calibrated_state) [365%Z])
    by (repeat split).
  apply (toy_compute_greeks_returns calibrated_state [365%Z] 0.005 1 0 Htoy
           eq_refl eq_refl eq_refl); cbn; lra.
Qed.

Lemma hybrid_vega_refits_twice_witness :
  exists s',
    compute_greeks toy quick_sp calibrated_state = (Ok tt, s')
    /\ scipy_calls toy s' = [CallMinimize atm_options; CallMinimize atm_options].
Proof.
  destruct calibrated_state_greeks as [s' Hrun].
  exists s'. split; [exact Hrun|].
  exact (proj1 (hybrid_vega_refits_twice toy quick_sp calibrated_state s' Hrun)).
Defined.

Lemma delta_is_guarded_dv01_ratio_witness :
  exists s' g,
    compute_greeks toy quick_sp calibrated_state = (Ok tt, s')
    /\ greeks toy (self toy s') = Some g
    /\ underlying_dv01 g = 0
    /\ delta_hedge g = 0.
Proof.
  destruct calibrated_state_greeks as [s' Hrun].
  destruct (delta_is_guarded_dv01_ratio toy quick_sp calibrated_state s' Hrun)
    as (g & m & su & sd & Hg & Hm & Hsu & Hsd & Hu & _ & Hzero).
  assert (Htoy : toy_pricer (self toy calibrated_state) [365%Z])
    by (repeat split).
  rewrite (toy__swap_npv_bumped _ _ _ Htoy) in Hsu.
  rewrite (toy__swap_npv_bumped _ _ _ Htoy) in Hsd.
  injection Hsu as <-. injection Hsd as <-.
  assert (H0 : underlying_dv01 g = 0) by (rewrite Hu; unfold Rdiv; ring).
  exists s', g. split; [exact Hrun|]. split; [exact Hg|].
  split; [exact H0|]. apply Hzero. rewrite H0, Rabs_R0. lra.
Defined.

(** The same pricer with a DV01 bump of 0. *)
Definition zero_bump_state : state toy :=
  toy_state (toy_calibrated_pricer (toy_config [365%Z] 0 1 0) [365%Z]).

Lemma zero_bump_size_is_fatal_witness :
  compute_greeks toy quick_sp zero_bump_state
  = (Raise ZeroDivisionError, zero_bump_state).
Proof.
  assert (Hz : dv01_bp (cfg toy (self toy zero_bump_state)) = 0
               \/ gamma_bp (cfg toy (self toy zero_bump_state)) = 0
               \/ vega_bp (cfg toy (self toy zero_bump_state)) = 0)
    by (left; reflexivity).
  destruct (zero_bump_size_is_fatal toy quick_sp zero_bump_state Hz)
    as (_ & _ & H).
  eapply (H (toy_market [365%Z]) 0.005); try reflexivity;
    apply toy_reprice_value.
Defined.

(** ** Bumped discount factors *)

Section BumpedCurve.

Variable ql : QuantLib.

(** The continuously compounded zero rate, on the Actual/365 day count,
    that the discount factor [df] at date [d] stands for. *)
Definition zero_rate (val d : date) (df : R) : R :=
  - ln df / yearFraction val d.

Lemma nth_error_combine {A B} (l1 : list A) (l2 : list B) i x y :
  nth_error l1 i = Some x -> nth_error l2 i = Some y ->
  nth_error (combine l1 l2) i = Some (x, y).
Proof.
  revert l2 i. induction l1 as [|a l1 IH]; intros [|b l2] [|i] H1 H2;
    cbn in *; try discriminate.
  - congruence.
  - apply IH; assumption.
Qed.

Lemma yearFraction_pos val d : (val < d)%Z -> 0 < yearFraction val d.
Proof.
  intro H. unfold yearFraction.
  apply Rdiv_lt_0_compat; [|lra]. apply IZR_lt. lia.
Qed.

(** [_bump_dfs(bp)] is a parallel shift of the zero curve.  On a curve as
    [setup] leaves it (dates after the valuation date, positive discount
    factors), it returns one positive discount factor per node, and the
    zero rate to every node is the unbumped one plus exactly [bp] basis
    points; it changes nothing. *)
Theorem bump_dfs_shifts_zero_rates (s : state ql) (m : market ql) (bp : R) :
  let c := cfg ql (self ql s) in
  mkt_attrs ql (self ql s) = Some m ->
  length (node_dates ql m) = length (node_dfs ql m) ->
  Forall (fun d => (val_date c < d)%Z) (node_dates ql m) ->
  Forall (fun df => 0 < df) (node_dfs ql m) ->
  exists l,
    _bump_dfs ql bp s = (Ok l, s)
    /\ length l = length (node_dfs ql m)
    /\ forall i d df,
         nth_error (node_dates ql m) i = Some d ->
         nth_error (node_dfs ql m) i = Some df ->
         exists x,
           nth_error l i = Some x /\ 0 < x
           /\ zero_rate (val_date c) d x
              = zero_rate (val_date c) d df + bp / 10000.
Proof.
  intros c Hm Hlen Hd Hdf.
  exists (bump_value ql c m bp).
  split; [apply (_bump_dfs_eq ql bp s m Hm)|].
  unfold bump_value. split.
  { rewrite length_map, length_combine, Hlen. apply Nat.min_id. }
  intros i d df Hi Hj.
  rewrite Forall_forall in Hd, Hdf.
  assert (Hdpos : 0 < yearFraction (val_date c) d)
    by (apply yearFraction_pos, Hd; eapply nth_error_In; exact Hi).
  assert (Hdfpos : 0 < df) by (apply Hdf; eapply nth_error_In; exact Hj).
  eexists. split.
  { rewrite nth_error_map, (nth_error_combine _ _ _ _ _ Hi Hj). reflexivity. }
  cbn [fst snd].
  set (t := yearFraction (val_date c) d) in *.
  assert (He : 0 < exp (- bp / 10000 * t)) by apply exp_pos.
  split; [apply Rmult_lt_0_compat; assumption|].
  unfold zero_rate. fold t.
  rewrite ln_mult by assumption. rewrite ln_exp. field. lra.
Qed.

End BumpedCurve.

Lemma bump_dfs_shifts_zero_rates_witness :
  exists l x,
    _bump_dfs toy 25 calibrated_state = (Ok l, calibrated_state)
    /\ nth_error l 0 = Some x
    /\ zero_rate 0%Z 365%Z x = zero_rate 0%Z 365%Z 1 + 25 / 10000.
Proof.
  destruct (bump_dfs_shifts_zero_rates toy calibrated_state
              (toy_market [365%Z]) 25 eq_refl eq_refl)
    as (l & Hl & _ & Hi).
  - repeat constructor.
  - repeat constructor. cbn. lra.
  - destruct (Hi 0%nat 365%Z 1 eq_refl eq_refl) as (x & Hx & _ & Hz).
    exists l, x. split; [exact Hl|]. split; [exact Hx | exact Hz].
Defined.

(** ** The interpolator outside and inside the grid *)

Module VolInterpBounds.
Import VolInterp VolInterpFacts.

(** Resolves a minimum or maximum of two terms that hold no other. *)
Ltac minmax :=
  repeat match goal with
    | |- context [Rmax ?a ?b] =>
        lazymatch a with
        | context [Rmin _ _] => fail
        | context [Rmax _ _] => fail
        | _ => first [ rewrite (Rmax_left a b) by lra
                     | rewrite (Rmax_right a b) by lra ]
        end
    | |- context [Rmin ?a ?b] =>
        lazymatch a with
        | context [Rmin _ _] => fail
        | context [Rmax _ _] => fail
        | _ => first [ rewrite (Rmin_left a b) by lra
                     | rewrite (Rmin_right a b) by lra ]
        end
    end.

Lemma clip_idempotent x lo hi : clip (clip x lo hi) lo hi = clip x lo hi.
Proof.
  unfold clip.
  destruct (Rle_dec x lo); destruct (Rle_dec lo hi); destruct (Rle_dec x hi);
    minmax; reflexivity.
Qed.

Lemma item_last_last (g : list R) :
  g <> [] -> item_last g = Ok (last g 0).
Proof.
  intro H. destruct g as [|a g]; [congruence|].
  unfold item_last, item.
  assert (E : nth_error (a :: g) (length (a :: g) - 1) = Some (last (a :: g) 0)).
  { clear H. revert a. induction g as [|b g IH]; intro a; [reflexivity|].
    specialize (IH b). cbn [length Nat.sub] in *.
    rewrite Nat.sub_0_r in *. cbn [nth_error].
    change (last (a :: b :: g) 0) with (last (b :: g) 0). exact IH. }
  rewrite E. reflexivity.
Qed.

(** Outside the grid the surface is extended flat: a query is first
    clamped to the range of each axis, so an expiry before the first (or
    after the last) grid expiry gives the value at the first (last) grid
    expiry, and likewise for the tenor.  On an empty grid both sides
    raise [IndexError]. *)
Theorem vol_interp_flat_outside_grid (T tenor : R) (vol_mat : list (list R))
    (expiry_grid tenor_grid : list R) :
  vol_interp T tenor vol_mat expiry_grid tenor_grid
  = vol_interp (clip T (hd 0 expiry_grid) (last expiry_grid 0))
      (clip tenor (hd 0 tenor_grid) (last tenor_grid 0))
      vol_mat expiry_grid tenor_grid.
Proof.
  unfold vol_interp.
  destruct expiry_grid as [|e eg]; [reflexivity|].
  rewrite (item_last_last (e :: eg)) by discriminate.
  cbn [item nth_error rbind hd].
  destruct tenor_grid as [|t tg]; [reflexivity|].
  rewrite (item_last_last (t :: tg)) by discriminate.
  cbn [item nth_error rbind hd]. cbv zeta.
  rewrite !clip_idempotent. reflexivity.
Qed.

(** [searchsorted] counts the leading entries below the query. *)
Lemma searchsorted_spec g x :
  (searchsorted g x <= length g)%nat
  /\ (forall i, (i < searchsorted g x)%nat -> nth i g 0 < x)
  /\ ((searchsorted g x < length g)%nat -> x <= nth (searchsorted g x) g 0).
Proof.
  induction g as [|y g (IH1 & IH2 & IH3)]; cbn [searchsorted length].
  - split; [lia|]. split; intros; lia.
  - destruct (Rltb y x) eqn:E.
    + apply Rltb_true in E. split; [lia|]. split.
      * intros [|i] Hi; cbn [nth]; [exact E | apply IH2; lia].
      * intro H. cbn [nth]. apply IH3. lia.
    + apply Rltb_false in E. split; [lia|]. split.
      * intros i Hi. lia.
      * intros _. cbn [nth]. exact E.
Qed.

Lemma last_nth (g : list R) : g <> [] -> last g 0 = nth (length g - 1) g 0.
Proof.
  intro H. destruct g as [|a g]; [congruence|]. clear H.
  revert a. induction g as [|b g IH]; intro a; [reflexivity|].
  change (last (a :: b :: g) 0) with (last (b :: g) 0). rewrite IH.
  cbn [length Nat.sub nth]. rewrite Nat.sub_0_r. reflexivity.
Qed.

(** The weight of the upper neighbour on one axis lies in [[0, 1]]. *)
Lemma axis_weight g x :
  g <> [] ->
  let xc := clip x (hd 0 g) (last g 0) in
  let i1 := Nat.min (searchsorted g xc) (length g - 1) in
  let i0 := Nat.max (i1 - 1) 0 in
  let w := if Reqb (nth i1 g 0) (nth i0 g 0) then 0
           else (xc - nth i0 g 0) / (nth i1 g 0 - nth i0 g 0) in
  0 <= w <= 1.
Proof.
  intros Hg xc i1 i0 w.
  assert (Hlen : (0 < length g)%nat) by (destruct g; [congruence | cbn; lia]).
  destruct (searchsorted_spec g xc) as (S1 & S2 & S3).
  assert (Hhi : xc <= nth (length g - 1) g 0).
  { unfold xc, clip. rewrite <- last_nth by exact Hg. apply Rmin_r. }
  assert (Hk : (searchsorted g xc <= length g - 1)%nat).
  { destruct (Nat.le_gt_cases (searchsorted g xc) (length g - 1)) as [H|H];
      [exact H|].
    specialize (S2 (length g - 1)%nat H). lra. }
  assert (Hi1 : i1 = searchsorted g xc) by (unfold i1; lia).
  unfold w, i0. rewrite Nat.max_0_r.
  destruct (Nat.eq_dec i1 0) as [E0|E0].
  - rewrite E0. cbn [Nat.sub]. rewrite Reqb_refl. lra.
  - assert (Hlo : nth (i1 - 1) g 0 < xc) by (apply S2; lia).
    assert (Hup : xc <= nth i1 g 0) by (rewrite Hi1; apply S3; lia).
    replace (Reqb (nth i1 g 0) (nth (i1 - 1) g 0)) with false
      by (symmetry; apply Reqb_false; lra).
    set (e0 := nth (i1 - 1) g 0) in *. set (e1 := nth i1 g 0) in *.
    assert (Hden : 0 < e1 - e0) by lra.
    split.
    + apply Rmult_le_reg_r with (e1 - e0); [exact Hden|].
      unfold Rdiv. rewrite Rmult_assoc, Rinv_l by lra. lra.
    + apply Rmult_le_reg_r with (e1 - e0); [exact Hden|].
      unfold Rdiv. rewrite Rmult_assoc, Rinv_l by lra. lra.
Qed.

Lemma mat_item_in vm rows cols i j v :
  shaped vm rows cols -> mat_item vm i j = Ok v ->
  exists row, In row vm /\ In v row.
Proof.
  intros _ H. unfold mat_item, item in H.
  destruct (nth_error vm i) as [row|] eqn:Er; cbn [rbind] in H; [|discriminate].
  destruct (nth_error row j) as [x|] eqn:Ex; [|discriminate].
  inversion H; subst x. exists row.
  split; eapply nth_error_In; eassumption.
Qed.

Lemma bilinear_bounds lo hi wx wy v00 v10 v01 v11 :
  0 <= wx <= 1 -> 0 <= wy <= 1 ->
  lo <= v00 <= hi -> lo <= v10 <= hi -> lo <= v01 <= hi -> lo <= v11 <= hi ->
  lo <= (1 - wy) * ((1 - wx) * v00 + wx * v10)
        + wy * ((1 - wx) * v01 + wx * v11) <= hi.
Proof.
  intros Hx Hy H00 H10 H01 H11.
  assert (Ha : lo <= (1 - wx) * v00 + wx * v10 <= hi) by nra.
  assert (Hb : lo <= (1 - wx) * v01 + wx * v11 <= hi) by nra.
  set (u := (1 - wx) * v00 + wx * v10) in *.
  set (v := (1 - wx) * v01 + wx * v11) in *.
  nra.
Qed.

(** The interpolated volatility never leaves the range of the quotes.
    On non-empty increasing grids and a matrix of their shape, whatever
    the query, [vol_interp] returns, and its value lies between any two
    bounds that enclose every entry of the matrix.  (The grids are taken
    increasing because [searchsorted] is modelled on sorted arrays; the
    proof itself only uses what [searchsorted] returns.) *)
Theorem vol_interp_within_quotes (T tenor : R) (vol_mat : list (list R))
    (expiry_grid tenor_grid : list R) (lo hi : R) :
  strictly_increasing expiry_grid -> strictly_increasing tenor_grid ->
  expiry_grid <> [] -> tenor_grid <> [] ->
  shaped vol_mat (length expiry_grid) (length tenor_grid) ->
  Forall (Forall (fun v => lo <= v <= hi)) vol_mat ->
  exists v,
    vol_interp T tenor vol_mat expiry_grid tenor_grid = Ok v /\ lo <= v <= hi.
Proof.
  intros _ _ He Ht Hsh Hb.
  assert (Hle : (0 < length expiry_grid)%nat)
    by (destruct expiry_grid; [congruence | cbn; lia]).
  assert (Hlt : (0 < length tenor_grid)%nat)
    by (destruct tenor_grid; [congruence | cbn; lia]).
  pose proof (axis_weight expiry_grid T He) as Wx.
  pose proof (axis_weight tenor_grid tenor Ht) as Wy.
  cbv zeta in Wx, Wy.
  unfold vol_interp.
  rewrite (item_nth expiry_grid 0 0 Hle), (item_nth tenor_grid 0 0 Hlt).
  rewrite (item_last_last _ He), (item_last_last _ Ht).
  cbn [rbind]. cbv zeta.
  replace (nth 0 expiry_grid 0) with (hd 0 expiry_grid)
    by (destruct expiry_grid; reflexivity).
  replace (nth 0 tenor_grid 0) with (hd 0 tenor_grid)
    by (destruct tenor_grid; reflexivity).
  set (xc := clip T _ _) in *. set (yc := clip tenor _ _) in *.
  set (i1 := Nat.min _ (length expiry_grid - 1)) in *.
  set (j1 := Nat.min _ (length tenor_grid - 1)) in *.
  assert (Hi1 : (i1 < length expiry_grid)%nat) by (unfold i1; lia).
  assert (Hj1 : (j1 < length tenor_grid)%nat) by (unfold j1; lia).
  rewrite !Nat.max_0_r in *.
  rewrite (item_nth expiry_grid i1 0) by lia.
  rewrite (item_nth expiry_grid (i1 - 1) 0) by lia.
  rewrite (item_nth tenor_grid j1 0) by lia.
  rewrite (item_nth tenor_grid (j1 - 1) 0) by lia.
  cbn [rbind].
  pose proof (mat_item_shaped _ _ _ (i1 - 1) (j1 - 1) Hsh) as M00.
  pose proof (mat_item_shaped _ _ _ i1 (j1 - 1) Hsh) as M10.
  pose proof (mat_item_shaped _ _ _ (i1 - 1) j1 Hsh) as M01.
  pose proof (mat_item_shaped _ _ _ i1 j1 Hsh) as M11.
  rewrite M00, M10, M01, M11 by lia. cbn [rbind].
  eexists. split; [reflexivity|].
  assert (Hin : forall i j v, mat_item vol_mat i j = Ok v -> lo <= v <= hi).
  { intros i j v Hv. destruct (mat_item_in _ _ _ _ _ _ Hsh Hv) as (row & R1 & R2).
    rewrite Forall_forall in Hb. specialize (Hb row R1).
    rewrite Forall_forall in Hb. apply Hb, R2. }
  apply bilinear_bounds; try assumption.
  - eapply Hin, M00; lia.
  - eapply Hin, M10; lia.
  - eapply Hin, M01; lia.
  - eapply Hin, M11; lia.
Qed.

Lemma vol_interp_within_quotes_witness :
  exists v,
    vol_interp 1.5 7 VolInterpExamples.surface VolInterpExamples.expiries
      VolInterpExamples.tenors = Ok v
    /\ 0.004 <= v <= 0.0065.
Proof.
  apply (vol_interp_within_quotes 1.5 7 VolInterpExamples.surface
           VolInterpExamples.expiries VolInterpExamples.tenors 0.004 0.0065).
  - repeat constructor; lra.
  - repeat constructor; lra.
  - discriminate.
  - discriminate.
  - split; [reflexivity | repeat constructor].
  - repeat constructor; lra.
Defined.

End VolInterpBounds.

(** ** More on the closed-form prices *)

Module BachelierMore.
Import Bachelier BachelierFacts.

(** At the money the two prices coincide and have the classical closed
    form: [annuity * sigma * sqrt(T / (2 pi))]. *)
Theorem bachelier_at_the_money (K sigma T annuity : R) :
  0 < sigma -> 0 < T ->
  bachelier_receiver K K sigma T annuity
  = annuity * (sigma * sqrt T / sqrt (2 * PI))
  /\ bachelier_payer K K sigma T annuity
     = annuity * (sigma * sqrt T / sqrt (2 * PI)).
Proof.
  intros Hs HT.
  assert (Hb : Rleb sigma 0 || Rleb T 0 = false).
  { replace (Rleb sigma 0) with false by (symmetry; apply Rleb_false; lra).
    replace (Rleb T 0) with false by (symmetry; apply Rleb_false; lra).
    reflexivity. }
  assert (Hstd : 0 < sigma * sqrt T)
    by (apply Rmult_lt_0_compat; [lra | apply sqrt_lt_R0; lra]).
  assert (Hpi : 0 < sqrt (2 * PI))
    by (apply sqrt_lt_R0; pose proof PI_RGT_0; lra).
  unfold bachelier_receiver, bachelier_payer. rewrite Hb. cbv zeta.
  replace ((K - K) / (sigma * sqrt T)) with 0 by (unfold Rdiv; ring).
  replace (- 0.5 * 0 * 0) with 0 by lra. rewrite exp_0.
  split.
  - set (P := 0.5 * (1 + erf (- 0 / sqrt 2))). unfold Rdiv. ring.
  - set (P := 0.5 * (1 + erf (0 / sqrt 2))). unfold Rdiv. ring.
Qed.

Lemma bachelier_at_the_money_witness :
  bachelier_receiver 0.03 0.03 0.01 4 100
  = 100 * (0.01 * sqrt 4 / sqrt (2 * PI))
  /\ bachelier_payer 0.03 0.03 0.01 4 100
     = 100 * (0.01 * sqrt 4 / sqrt (2 * PI)).
Proof. apply bachelier_at_the_money; lra. Defined.

(** Exchanging the forward and the strike turns a receiver into a payer:
    [bachelier_receiver(F, K, ...) = bachelier_payer(K, F, ...)], in the
    degenerate branch as in the regular one. *)
Theorem bachelier_receiver_is_mirrored_payer (F K sigma T annuity : R) :
  bachelier_receiver F K sigma T annuity = bachelier_payer K F sigma T annuity.
Proof.
  unfold bachelier_receiver, bachelier_payer.
  destruct (Rleb sigma 0 || Rleb T 0); [reflexivity|]. cbv zeta.
  set (std := sigma * sqrt T).
  replace ((K - F) / std) with (- ((F - K) / std)) by (unfold Rdiv; ring).
  set (d := (F - K) / std).
  replace (- 0.5 * - d * - d) with (- 0.5 * d * d) by ring.
  reflexivity.
Qed.

End BachelierMore.

(** ** The logit map and its inverse *)

(** Inside the bounds (up to the clamp of 1e-10 of the range at either
    end) [_inv_logit] undoes [_logit]; in particular the seed of the joint
    fit, [_logit(0.03)], stands for a mean reversion of 0.03. *)
Theorem inv_logit_undoes_logit (a_ : R) :
  A_MIN + 1e-10 * (A_MAX - A_MIN) <= a_ <= A_MAX - 1e-10 * (A_MAX - A_MIN) ->
  _inv_logit (_logit a_) = a_.
Proof.
  intros [Hlo Hhi]. rewrite _inv_logit_logit.
  unfold A_MIN, A_MAX in *.
  set (t := (a_ - 0.001) / (0.50 - 0.001)).
  assert (Hm : t * (0.50 - 0.001) = a_ - 0.001) by (unfold t; field; lra).
  assert (Ht : 1e-10 <= t <= 1 - 1e-10) by (split; nra).
  rewrite (Rmin_right (1 - 1e-10) t) by lra.
  rewrite (Rmax_right 1e-10 t) by lra.
  lra.
Qed.

Lemma inv_logit_undoes_logit_witness : _inv_logit (_logit 0.03) = 0.03.
Proof. apply inv_logit_undoes_logit. unfold A_MIN, A_MAX. lra. Defined.

(** In the other direction, [_logit] undoes [_inv_logit] on the points
    whose image stays clear of the clamp. *)
Theorem logit_undoes_inv_logit (x : R) :
  ln (1e-10 / (1 - 1e-10)) <= x <= ln ((1 - 1e-10) / 1e-10) ->
  _logit (_inv_logit x) = x.
Proof.
  intros [Hlo Hhi]. unfold _logit, _inv_logit, A_MIN, A_MAX. cbv zeta.
  set (e := exp (- x)).
  assert (He : 0 < e) by apply exp_pos.
  replace ((0.001 + 1 / (1 + e) * (0.50 - 0.001) - 0.001) / (0.50 - 0.001))
    with (1 / (1 + e)) by (field; lra).
  assert (Hq1 : 0 < 1e-10 / (1 - 1e-10)) by (apply Rdiv_lt_0_compat; lra).
  assert (Hq2 : 0 < (1 - 1e-10) / 1e-10) by (apply Rdiv_lt_0_compat; lra).
  assert (Hneg : ln ((1 - 1e-10) / 1e-10) = - ln (1e-10 / (1 - 1e-10))).
  { rewrite <- ln_Rinv by exact Hq1. f_equal. field; lra. }
  assert (Hmono : forall u v, u <= v -> exp u <= exp v).
  { intros u v [H|H]; [left; apply exp_increasing; exact H | right; f_equal; exact H]. }
  assert (Hup : e <= (1 - 1e-10) / 1e-10).
  { rewrite <- (exp_ln _ Hq2). apply Hmono. lra. }
  assert (Hdn : 1e-10 / (1 - 1e-10) <= e).
  { rewrite <- (exp_ln _ Hq1). apply Hmono. lra. }
  set (t := 1 / (1 + e)).
  assert (Hm : t * (1 + e) = 1) by (unfold t; field; lra).
  assert (Hup' : 1e-10 * e <= 1 - 1e-10).
  { apply Rmult_le_compat_l with (r := 1e-10) in Hup; [|lra].
    replace (1e-10 * ((1 - 1e-10) / 1e-10)) with (1 - 1e-10) in Hup
      by (field; lra).
    exact Hup. }
  assert (Hdn' : 1e-10 <= (1 - 1e-10) * e).
  { apply Rmult_le_compat_l with (r := 1 - 1e-10) in Hdn; [|lra].
    replace ((1 - 1e-10) * (1e-10 / (1 - 1e-10))) with 1e-10 in Hdn
      by (field; lra).
    exact Hdn. }
  assert (Htpos : 0 < t) by (unfold t; apply Rdiv_lt_0_compat; lra).
  assert (Ht : 1e-10 <= t <= 1 - 1e-10) by (split; nra).
  rewrite (Rmin_right (1 - 1e-10) t) by lra.
  rewrite (Rmax_right 1e-10 t) by lra.
  replace (t / (1 - t)) with (/ e) by (unfold t; field; lra).
  rewrite ln_Rinv by exact He. unfold e. rewrite ln_exp. ring.
Qed.

Lemma logit_undoes_inv_logit_witness : _logit (_inv_logit 0) = 0.
Proof.
  apply logit_undoes_inv_logit. split.
  - rewrite <- ln_1. left. apply ln_increasing.
    + apply Rdiv_lt_0_compat; lra.
    + apply Rmult_lt_reg_r with (1 - 1e-10); [lra|].
      unfold Rdiv. rewrite Rmult_assoc, Rinv_l by lra. lra.
  - rewrite <- ln_1. left. apply ln_increasing; [lra|].
    apply Rmult_lt_reg_r with 1e-10; [lra|].
    unfold Rdiv. rewrite Rmult_assoc, Rinv_l by lra. lra.
Defined.

(** ** The basket of a Vega bump *)

Section BumpedBasket.

Variable ql : QuantLib.

Definition rmap {A B} (f : A -> B) (r : result A) : result B :=
  match r with
  | Ok v => Ok (f v)
  | Raise e => Raise e
  end.

(** The entry [it] with its volatility shifted by [bp] basis points and
    its market price recomputed from the shifted volatility. *)
Definition rebump (c : config) (bp : R) (it : basket_entry ql)
    : basket_entry ql :=
  let v := vol ql it + bp / 10000 in
  {| fwd := fwd ql it; vol := v; expiry := expiry ql it; ann := ann ql it;
     swpt := swpt ql it;
     mkt := if is_receiver c
            then Bachelier.bachelier_receiver (fwd ql it) (strike c) v
                   (expiry ql it) (ann ql it)
            else Bachelier.bachelier_payer (fwd ql it) (strike c) v
                   (expiry ql it) (ann ql it) |}.

Lemma unchanged_state {A} (m : M ql A) s :
  unchanged ql m -> m s = (fst (m s), s).
Proof.
  intro U. specialize (U s). destruct (m s) as [r s1]. cbn in *.
  subst. reflexivity.
Qed.

Lemma bind_lift {A B} (r : result A) (k : A -> M ql B) s :
  bind (lift r) k s = match r with
                      | Ok v => k v s
                      | Raise e => (Raise e, s)
                      end.
Proof. unfold bind, lift. destruct r; reflexivity. Qed.

Lemma basket_entry_for_bumped h ix sd bp ex (s : state ql) :
  basket_entry_for ql h ix sd bp ex s
  = (rmap (rebump (cfg ql (self ql s)) bp)
       (fst (basket_entry_for ql h ix sd 0 ex s)), s).
Proof.
  unfold basket_entry_for.
  rewrite !(bind_unchanged ql (basket_schedule ql sd ex))
    by apply unchanged_basket_schedule.
  destruct (fst (basket_schedule ql sd ex s)) as [ss|e]; [|reflexivity].
  rewrite !bind_gets. set (c := cfg ql (self ql s)).
  rewrite !bind_ext.
  destruct (make_ois ql _ ss 0 ix) as [s0|e]; [|reflexivity].
  rewrite !bind_ext.
  destruct (set_discounting_engine ql _ s0 h) as [s0'|e]; [|reflexivity].
  rewrite !bind_ext.
  destruct (fairRate ql _ s0') as [fwd_|e]; [|reflexivity].
  rewrite !bind_ext.
  destruct (make_ois ql _ ss (strike c) ix) as [sk|e]; [|reflexivity].
  rewrite !bind_ext.
  destruct (set_discounting_engine ql _ sk h) as [sk'|e]; [|reflexivity].
  rewrite !bind_ext.
  destruct (fixedLegBPS ql _ sk') as [bps|e]; [|reflexivity].
  cbv zeta. rewrite !bind_lift.
  destruct (VolInterp.vol_interp _ _ _ _ _) as [v|e]; [|reflexivity].
  rewrite !bind_ext.
  destruct (european_swaption ql _ sk' ex) as [sw|e]; [|reflexivity].
  replace (v + 0 / 10000) with v by lra.
  unfold _bachelier, rebump, bind, gets, ret. cbv zeta. fold c.
  destruct (is_receiver c); reflexivity.
Qed.

Lemma mapM_bumped h ix sd bp exd (s : state ql) :
  mapM (basket_entry_for ql h ix sd bp) exd s
  = (rmap (map (rebump (cfg ql (self ql s)) bp))
       (fst (mapM (basket_entry_for ql h ix sd 0) exd s)), s).
Proof.
  induction exd as [|ex exd IH]; cbn [mapM]; [reflexivity|].
  unfold bind at 1 3.
  rewrite (basket_entry_for_bumped h ix sd bp ex s).
  rewrite (unchanged_state (basket_entry_for ql h ix sd 0 ex) s)
    by apply unchanged_basket_entry_for.
  cbn [fst].
  destruct (fst (basket_entry_for ql h ix sd 0 ex s)) as [it|e];
    cbn [rmap fst]; [|reflexivity].
  unfold bind. rewrite IH.
  rewrite (unchanged_state (mapM (basket_entry_for ql h ix sd 0) exd) s)
    by (apply unchanged_mapM; intro; apply unchanged_basket_entry_for).
  cbn [fst].
  destruct (fst (mapM (basket_entry_for ql h ix sd 0) exd s)) as [its|e];
    reflexivity.
Qed.

(** The basket of a Vega bump is the base basket with shifted
    volatilities.  [_build_basket(vol_bump_bp=bp)] fails exactly when
    [_build_basket()] fails, with the same exception; otherwise it returns
    the same entries in the same order (same swaption, forward, expiry and
    annuity), each with its volatility raised by exactly [bp / 10000] and
    its market price recomputed from the raised volatility.  Neither call
    changes anything. *)
Theorem vega_basket_is_shifted_base_basket (bp : R) (s : state ql) :
  _build_basket ql bp s
  = (rmap (map (rebump (cfg ql (self ql s)) bp))
       (fst (_build_basket ql 0 s)), s)
  /\ snd (_build_basket ql 0 s) = s.
Proof.
  split; [|apply unchanged__build_basket].
  unfold _build_basket.
  destruct (mkt_attrs ql (self ql s)) as [m|] eqn:Hm.
  - rewrite !(bind_market_attr ql _ _ _ _ _ Hm). cbv zeta.
    apply mapM_bumped.
  - unfold bind, market_attr. rewrite Hm. reflexivity.
Qed.

End BumpedBasket.

(** ** A full run *)

Section FullRun.

Variable ql : QuantLib.
Variable sp : SciPy.

(** What a full run leaves.  Whatever the outcome, the global evaluation
    date is the valuation date of the deal.  When the run returns, the
    pricer holds the configuration it was built from, the attributes of
    [setup], the hybrid decomposition of the volatility, the headline
    NPV and the Greeks; and the solvers have been called in this order:
    one basket fit for stage 1, then (only with a non-zero target) the
    bracketed root search, perhaps followed by the fallback search, then
    one basket fit for each of the two Vega bumps. *)
Theorem run_pricer_outcome (c : config) (s : state ql) :
  let r := fst (run_pricer ql sp c s) in
  let s' := snd (run_pricer ql sp c s) in
  let fit := CallMinimize (if calib_a c then joint_options else atm_options) in
  evaluationDate ql s' = val_date c
  /\ (r = Ok tt ->
      cfg ql (self ql s') = c
      /\ (exists m sa ds st p g,
            mkt_attrs ql (self ql s') = Some m
            /\ sigma_atm ql (self ql s') = Some sa
            /\ delta_spread ql (self ql s') = Some ds
            /\ sigma_total ql (self ql s') = Some st
            /\ st = sa + ds
            /\ npv ql (self ql s') = Some p
            /\ greeks ql (self ql s') = Some g)
      /\ (exists inv,
            scipy_calls ql s' = scipy_calls ql s ++ fit :: inv ++ [fit; fit]
            /\ (bbg_npv c = 0 -> inv = [])
            /\ (bbg_npv c <> 0 ->
                inv = [CallBrentq (ln 0.001) (ln 0.05)]
                \/ inv = [CallBrentq (ln 0.001) (ln 0.05);
                          CallMinimize inverse_options]))).
Proof.
  intros r s' fit. subst r s'.
  change (wp ql (run_pricer ql sp c)
            (fun r s' =>
               evaluationDate ql s' = val_date c
               /\ (r = Ok tt ->
                   cfg ql (self ql s') = c
                   /\ (exists m sa ds st p g,
                         mkt_attrs ql (self ql s') = Some m
                         /\ sigma_atm ql (self ql s') = Some sa
                         /\ delta_spread ql (self ql s') = Some ds
                         /\ sigma_total ql (self ql s') = Some st
                         /\ st = sa + ds
                         /\ npv ql (self ql s') = Some p
                         /\ greeks ql (self ql s') = Some g)
                   /\ (exists inv,
                         scipy_calls ql s'
                         = scipy_calls ql s ++ fit :: inv ++ [fit; fit]
                         /\ (bbg_npv c = 0 -> inv = [])
                         /\ (bbg_npv c <> 0 ->
                             inv = [CallBrentq (ln 0.001) (ln 0.05)]
                             \/ inv = [CallBrentq (ln 0.001) (ln 0.05);
                                       CallMinimize inverse_options])))) s).
  unfold run_pricer. apply wp_bind, wp_assign.
  set (s0 := Build_state ql (evaluationDate ql s) (stdout ql s)
               (scipy_calls ql s) (__init__ ql c)).
  apply wp_bind. unfold wp at 1.
  destruct (setup_cases ql s0) as [(e & s1 & E & Hd & _)|(m & ls & E & _)];
    rewrite E; cbn [fst snd].
  { split; [exact Hd | discriminate]. }
  set (s1 := after_setup ql s0 ls (with_mkt_attrs ql m (self ql s0))).
  assert (Hd1 : evaluationDate ql s1 = val_date c) by reflexivity.
  assert (Hc1 : cfg ql (self ql s1) = c) by reflexivity.
  assert (Hcalls1 : scipy_calls ql s1 = scipy_calls ql s) by reflexivity.
  clearbody s1. clear E.
  apply wp_bind. eapply wp_conseq; [apply (wp_calibrate_any ql sp)|].
  intros [[]|e] s2 [(Fc & Fk & Fg & Fd & Fa) Wok];
    [|split; [congruence | discriminate]].
  destruct (Wok eq_refl)
    as (sa & ds & st & m2 & b & p & H1 & H2 & H3 & H4 & H5 & H6 & H7 & H8
        & H9 & H10 & H11 & H12 & inv & Hinv & Hz & Hnz).
  clear Wok.
  eapply wp_conseq; [apply (wp_compute_greeks_frame ql sp)|].
  intros [[]|e] s3 (cs & ls3 & Gd & _ & Gc & _ & Gr);
    [|split; [congruence | discriminate]].
  destruct Gr as (-> & m3 & g & su & sd & pu & pd & t1 & t2 & Gself & _).
  split; [congruence|]. intros _.
  rewrite Gself. sproj.
  split; [congruence|]. split.
  - exists m2, sa, ds, st, p, g.
    repeat (split; [assumption|]). reflexivity.
  - exists inv. rewrite Fc, Hc1 in *. split.
    + rewrite Gc, Hinv, Hcalls1. unfold stage1_options, fit.
      rewrite <- !app_assoc. cbn [app]. reflexivity.
    + split; [exact Hz | exact Hnz].
Qed.

End FullRun.

(** The full run returns on the instance. *)
Lemma toy_run_returns :
  exists s',
    run_pricer toy quick_sp (toy_config [365%Z] 1 1 0)
      (toy_state (__init__ toy (toy_config [365%Z] 1 1 0)))
    = (Ok tt, s').
Proof.
  set (c := toy_config [365%Z] 1 1 0).
  unfold run_pricer. unfold bind at 1. unfold assign at 1.
  change (Build_state toy _ _ _ (__init__ toy c))
    with (toy_state (__init__ toy c)).
  unfold bind at 1. unfold c at 1. rewrite toy_setup_run. fold c.
  set (s1 := toy_state (toy_setup_pricer c [365%Z])).
  assert (Htoy : toy_pricer (self toy s1) [365%Z]) by (repeat split).
  destruct (toy_calibrate_returns s1 [365%Z] Htoy) as (s2 & Ecal & _).
  unfold bind. rewrite Ecal.
  destruct (wp_run toy _ _ _ _ _ (wp_calibrate_any toy quick_sp s1) Ecal)
    as [(Fc & Fk & _) Hok].
  destruct (Hok eq_refl)
    as (sa & ds & st & m & b & p & _ & H2 & H3 & _ & _ & _ & _ & _ & _ & _ & _
        & H12 & _).
  assert (Htoy2 : toy_pricer (self toy s2) [365%Z]).
  { unfold toy_pricer. rewrite Fc, Fk. exact Htoy. }
  apply (toy_compute_greeks_returns s2 [365%Z] st p ds Htoy2 H3 H12 H2);
    rewrite Fc; cbn; lra.
Qed.

Lemma run_pricer_outcome_witness :
  exists s',
    run_pricer toy quick_sp (toy_config [365%Z] 1 1 0)
      (toy_state (__init__ toy (toy_config [365%Z] 1 1 0)))
    = (Ok tt, s')
    /\ evaluationDate toy s' = 0%Z
    /\ scipy_calls toy s'
       = [CallMinimize atm_options; CallMinimize atm_options;
          CallMinimize atm_options].
Proof.
  destruct toy_run_returns as [s' Hrun].
  pose proof (run_pricer_outcome toy quick_sp (toy_config [365%Z] 1 1 0)
                (toy_state (__init__ toy (toy_config [365%Z] 1 1 0)))) as H.
  cbv zeta in H. rewrite Hrun in H. cbn [fst snd] in H.
  destruct H as (Hd & Hok).
  destruct (Hok eq_refl) as (_ & _ & inv & Hcalls & Hz & _).
  exists s'. split; [exact Hrun|]. split; [exact Hd|].
  rewrite Hcalls, (Hz eq_refl). reflexivity.
Defined.

(* ================================================================= *)
(** * Part IV: properties of the market data sources *)
(* ================================================================= *)

(** ** Properties of the label tables *)

Module FetcherFacts.
Import Fetcher.

(** [labels] lists keys of the table in the order of the table, none
    twice. *)
Fixpoint in_table_order (labels keys : list string) : bool :=
  match labels, keys with
  | [], _ => true
  | _ :: _, [] => false
  | l :: ls, k :: ks =>
      if String.eqb l k then in_table_order ls ks
      else in_table_order labels ks
  end.

Lemma obind_Returns {A B} (r : outcome A) (k : A -> outcome B) b :
  obind r k = Returns b -> exists a, r = Returns a /\ k a = Returns b.
Proof.
  destruct r as [a|e]; cbn; [|discriminate]. intro H. exists a. auto.
Qed.

(** Every pair of the table is what a lookup of its key returns. *)
Definition consistent (m0 m : list (string * R)) : Prop :=
  Forall (fun kv => dict_get m0 (fst kv) = Some (snd kv)) m.

Lemma labels_along_table m0 : forall m labels,
  consistent m0 m ->
  StronglySorted Rlt (map snd m) ->
  in_table_order labels (map fst m) = true ->
  exists g,
    labels_to_years labels m0 = Returns g
    /\ length g = length labels
    /\ StronglySorted Rlt g
    /\ Forall (fun y => In y (map snd m)) g.
Proof.
  induction m as [|[k v] m IH]; intros labels Hc Hs Ho.
  - destruct labels; [|discriminate]. exists [].
    repeat split; constructor.
  - destruct labels as [|l ls].
    { exists []. repeat split; constructor. }
    inversion Hc as [|? ? Hkv Hc']; subst. cbn [fst snd] in Hkv.
    cbn [map] in Hs. apply StronglySorted_inv in Hs. destruct Hs as [Hs Hlt].
    cbn [map fst in_table_order] in Ho.
    destruct (String.eqb l k) eqn:E.
    + apply String.eqb_eq in E. subst l.
      destruct (IH ls Hc' Hs Ho) as (g & Hg & Hlen & Hsorted & Hin).
      exists (v :: g). cbn [labels_to_years]. rewrite Hkv, Hg. cbn [obind].
      split; [reflexivity|]. split; [cbn; congruence|]. split.
      * constructor; [exact Hsorted|].
        rewrite Forall_forall in *. intros y Hy. apply Hlt, Hin, Hy.
      * constructor; [left; reflexivity|].
        rewrite Forall_forall in *. intros y Hy. right. apply Hin, Hy.
    + destruct (IH (l :: ls) Hc' Hs Ho) as (g & Hg & Hlen & Hsorted & Hin).
      exists g. split; [exact Hg|]. split; [exact Hlen|].
      split; [exact Hsorted|].
      rewrite Forall_forall in *. intros y Hy. right. apply Hin, Hy.
Qed.

Lemma expiry_table_consistent :
  consistent EXPIRY_LABEL_TO_YEARS EXPIRY_LABEL_TO_YEARS.
Proof. unfold consistent, EXPIRY_LABEL_TO_YEARS. repeat constructor. Qed.

Lemma tenor_table_consistent :
  consistent TENOR_LABEL_TO_YEARS TENOR_LABEL_TO_YEARS.
Proof. unfold consistent, TENOR_LABEL_TO_YEARS. repeat constructor. Qed.

Lemma Rlt_transitive : Relations_1.Transitive Rlt.
Proof. intros x y z. apply Rlt_trans. Qed.

Lemma expiry_table_increasing :
  StronglySorted Rlt (map snd EXPIRY_LABEL_TO_YEARS).
Proof.
  apply (Sorted_StronglySorted Rlt_transitive).
  unfold EXPIRY_LABEL_TO_YEARS. cbn [map snd].
  repeat constructor; lra.
Qed.

Lemma tenor_table_increasing :
  StronglySorted Rlt (map snd TENOR_LABEL_TO_YEARS).
Proof.
  apply (Sorted_StronglySorted Rlt_transitive).
  unfold TENOR_LABEL_TO_YEARS. cbn [map snd].
  repeat constructor; lra.
Qed.

(** Labels given in the order of the table make a valid axis.  For
    either table, a list of labels that follows the order of the table's
    keys (a label at most once) is converted without [KeyError] into a
    grid of the same length that is strictly increasing, which is what
    the interpolator needs of its axes. *)
Theorem labels_in_table_order_give_increasing_grid
    (labels : list string) (mapping : list (string * R)) :
  mapping = EXPIRY_LABEL_TO_YEARS \/ mapping = TENOR_LABEL_TO_YEARS ->
  in_table_order labels (map fst mapping) = true ->
  exists g,
    labels_to_years labels mapping = Returns g
    /\ length g = length labels
    /\ VolInterp.strictly_increasing g.
Proof.
  intros Hm Ho.
  assert (H : consistent mapping mapping
              /\ StronglySorted Rlt (map snd mapping)).
  { destruct Hm as [-> | ->].
    - split; [apply expiry_table_consistent | apply expiry_table_increasing].
    - split; [apply tenor_table_consistent | apply tenor_table_increasing]. }
  destruct H as [Hc Hs].
  destruct (labels_along_table mapping mapping labels Hc Hs Ho)
    as (g & Hg & Hlen & Hsorted & _).
  exists g. split; [exact Hg|]. split; [exact Hlen|].
  apply StronglySorted_Sorted, Hsorted.
Qed.

(** The axes of the Bloomberg surface (18 expiries, 15 tenors). *)
Lemma labels_in_table_order_give_increasing_grid_witness :
  (exists g,
     labels_to_years bloomberg_expiry_labels EXPIRY_LABEL_TO_YEARS = Returns g
     /\ length g = 18%nat /\ VolInterp.strictly_increasing g)
  /\ (exists g,
        labels_to_years bloomberg_tenor_labels TENOR_LABEL_TO_YEARS = Returns g
        /\ length g = 15%nat /\ VolInterp.strictly_increasing g).
Proof.
  split.
  - apply (labels_in_table_order_give_increasing_grid bloomberg_expiry_labels
             EXPIRY_LABEL_TO_YEARS); [left; reflexivity | reflexivity].
  - apply (labels_in_table_order_give_increasing_grid bloomberg_tenor_labels
             TENOR_LABEL_TO_YEARS); [right; reflexivity | reflexivity].
Defined.

(** A label that is not a key of the table is fatal.  [labels_to_years]
    returns exactly when every label is a key of the mapping, with one
    year fraction per label; otherwise it raises [KeyError] for the first
    label that is not a key. *)
Theorem labels_to_years_unknown_label (labels : list string)
    (mapping : list (string * R)) :
  match labels_to_years labels mapping with
  | Returns g =>
      length g = length labels
      /\ Forall (fun l => exists y, dict_get mapping l = Some y /\ In y g) labels
  | Raises e =>
      exists known l rest,
        labels = known ++ l :: rest
        /\ e = KeyError l
        /\ dict_get mapping l = None
        /\ Forall (fun k => dict_get mapping k <> None) known
  end.
Proof.
  induction labels as [|l ls IH]; cbn [labels_to_years].
  - split; [reflexivity | constructor].
  - destruct (dict_get mapping l) as [y|] eqn:El.
    + destruct (labels_to_years ls mapping) as [g|e]; cbn [obind].
      * destruct IH as [Hlen Hall]. split; [cbn; congruence|].
        constructor.
        -- exists y. split; [exact El | left; reflexivity].
        -- rewrite Forall_forall in *. intros k Hk.
           destruct (Hall k Hk) as (y' & H1 & H2).
           exists y'. split; [exact H1 | right; exact H2].
      * destruct IH as (known & l' & rest & -> & -> & Hn & Hk).
        exists (l :: known), l', rest. split; [reflexivity|].
        split; [reflexivity|]. split; [exact Hn|].
        constructor; [congruence | exact Hk].
    + exists [], l, ls. split; [reflexivity|]. split; [reflexivity|].
      split; [exact El | constructor].
Qed.

(** ** Properties of [load_curve_csv] *)

Section CsvFacts.

Variable float : string -> outcome R.

(** The lines of a file are loaded one by one.  A file made of two parts
    gives the nodes of the first part followed by those of the second,
    and fails as soon as one part fails (the first failure wins); a line
    that is blank, a comment, a header or without a second field can be
    added or removed anywhere without changing what is loaded. *)
Theorem load_curve_csv_line_by_line (l1 l2 : list string) :
  load_curve_csv float (l1 ++ l2)
  = (d1 <- load_curve_csv float l1 ;;
     d2 <- load_curve_csv float l2 ;;
     Returns (d1 ++ d2))%outcome
  /\ (forall line, csv_line float line = None ->
        load_curve_csv float (l1 ++ line :: l2)
        = load_curve_csv float (l1 ++ l2)).
Proof.
  assert (Happ : forall xs ys,
            load_curve_csv float (xs ++ ys)
            = (d1 <- load_curve_csv float xs ;;
               d2 <- load_curve_csv float ys ;;
               Returns (d1 ++ d2))%outcome).
  { intros xs. induction xs as [|line xs IH]; intro ys;
      cbn [app load_curve_csv obind].
    - destruct (load_curve_csv float ys); reflexivity.
    - destruct (csv_line float line) as [[node|e]|]; cbn [obind].
      + rewrite IH. destruct (load_curve_csv float xs); cbn [obind];
          [|reflexivity].
        destruct (load_curve_csv float ys); reflexivity.
      + reflexivity.
      + apply IH. }
  split; [apply Happ|].
  intros line Hline. rewrite !Happ. cbn [load_curve_csv]. rewrite Hline.
  reflexivity.
Qed.

End CsvFacts.

End FetcherFacts.

(** ** Properties of [fetch_all] *)

Module FetchAllFacts.
Import Fetcher FetcherFacts.

Section Dispatcher.

Variable Cfg : Type.
Variable Array : Type.
Variable Npv : Type.


(** The world [w] with another answer to the mode lookup. *)
Definition with_mode (mode : string) (w : world Cfg Array Npv)
    : world Cfg Array Npv :=
  {| data_source_mode := fun _ => mode;
     manual_curve_file := manual_curve_file _ _ _ w;
     manual_vol_file := manual_vol_file _ _ _ w;
     benchmark_npv := benchmark_npv _ _ _ w;
     _check_blpapi := _check_blpapi _ _ _ w;
     fetch_curve_bloomberg := fetch_curve_bloomberg _ _ _ w;
     fetch_vol_surface_bloomberg := fetch_vol_surface_bloomberg _ _ _ w;
     os_path_join := os_path_join _ _ _ w;
     os_path_exists := os_path_exists _ _ _ w;
     open_curve_csv := open_curve_csv _ _ _ w;
     open_vol_csv := open_vol_csv _ _ _ w;
     load_curve_yaml := load_curve_yaml _ _ _ w;
     load_vol_yaml := load_vol_yaml _ _ _ w;
     shape := shape _ _ _ w |}.

(** A dict with the curve, the surface and its two axes. *)
Definition has_market (r : result_dict Array Npv) (w : world Cfg Array Npv) : Prop :=
  exists curve vol eg tg,
    r_curve _ _ r = Some curve
    /\ r_vol_surface _ _ r = Some vol
    /\ r_expiry_grid _ _ r = Some eg
    /\ r_tenor_grid _ _ r = Some tg
    /\ (2 <= length (shape _ _ _ w vol))%nat.

Lemma store_surface_Returns (w : world Cfg Array Npv) s r0 r :
  store_surface _ _ _ w s r0 = Returns r ->
  r_curve _ _ r = r_curve _ _ r0
  /\ r_bbg_npv _ _ r = r_bbg_npv _ _ r0
  /\ exists vol eg tg,
       r_vol_surface _ _ r = Some vol
       /\ r_expiry_grid _ _ r = Some eg
       /\ r_tenor_grid _ _ r = Some tg
       /\ (2 <= length (shape _ _ _ w vol))%nat.
Proof.
  destruct s as [[vol exp_l] tnr_l]. unfold store_surface.
  intro H. apply obind_Returns in H. destruct H as (eg & _ & H).
  apply obind_Returns in H. destruct H as (tg & _ & H).
  apply obind_Returns in H. destruct H as ([] & Hsh & H).
  inversion H; subst r. clear H. cbn.
  split; [reflexivity|]. split; [reflexivity|].
  exists vol, eg, tg. repeat split.
  unfold print_shape in Hsh.
  destruct (shape _ _ _ w vol) as [|n0 [|n1 l]]; try discriminate. cbn. lia.
Qed.

Lemma manual_block_Returns (w : world Cfg Array Npv) cfg dir r0 r :
  manual_block _ _ _ w cfg dir r0 = Returns r ->
  has_market r w /\ r_bbg_npv _ _ r = Some (benchmark_npv _ _ _ w cfg).
Proof.
  unfold manual_block. cbv zeta. intro H.
  apply obind_Returns in H. destruct H as (curve & _ & H).
  apply obind_Returns in H. destruct H as (s & _ & H).
  apply obind_Returns in H. destruct H as (r1 & Hst & H).
  inversion H; subst r. clear H.
  apply store_surface_Returns in Hst.
  destruct Hst as (Hc & _ & vol & eg & tg & H1 & H2 & H3 & H4).
  split; [|reflexivity].
  exists curve, vol, eg, tg. cbn. rewrite Hc. cbn. auto.
Qed.

Lemma bloomberg_block_Returns (w : world Cfg Array Npv) cfg r0 mode r :
  bloomberg_block _ _ _ w cfg r0 = Returns (mode, r) ->
  (_check_blpapi _ _ _ w = false /\ mode = "manual"%string /\ r = r0)
  \/ (_check_blpapi _ _ _ w = true /\ mode = "bloomberg"%string
      /\ has_market r w
      /\ r_bbg_npv _ _ r = Some (benchmark_npv _ _ _ w cfg)).
Proof.
  unfold bloomberg_block. destruct (_check_blpapi _ _ _ w); cbn [negb].
  - intro H. right.
    apply obind_Returns in H. destruct H as (curve & _ & H).
    apply obind_Returns in H. destruct H as (s & _ & H).
    apply obind_Returns in H. destruct H as (r1 & Hst & H).
    inversion H; subst mode r. clear H.
    apply store_surface_Returns in Hst.
    destruct Hst as (Hc & _ & vol & eg & tg & H1 & H2 & H3 & H4).
    split; [reflexivity|]. split; [reflexivity|]. split; [|reflexivity].
    exists curve, vol, eg, tg. cbn. rewrite Hc. cbn. auto.
  - intro H. left. inversion H. auto.
Qed.

(** What [fetch_all] returns is complete.  When it returns, the dict has
    the five keys the pricer reads: the curve, the surface (an array of
    at least two dimensions), the two axes and a target that is not
    [None], namely the [benchmark.npv] of the configuration; and the mode
    was "manual", or "bloomberg" (with or without the Bloomberg API
    installed). *)
Theorem fetch_all_returns_complete (w : world Cfg Array Npv) (cfg : Cfg)
    (config_dir : string) (r : result_dict Array Npv) :
  fetch_all _ _ _ w cfg config_dir = Returns r ->
  exists curve vol eg tg npv,
    r = {| r_curve := Some curve; r_vol_surface := Some vol;
           r_expiry_grid := Some eg; r_tenor_grid := Some tg;
           r_bbg_npv := Some (Some npv) |}
    /\ benchmark_npv _ _ _ w cfg = Some npv
    /\ (2 <= length (shape _ _ _ w vol))%nat
    /\ (data_source_mode _ _ _ w cfg = "manual"%string
        \/ data_source_mode _ _ _ w cfg = "bloomberg"%string).
Proof.
  unfold fetch_all. cbv zeta. intro H.
  apply obind_Returns in H. destruct H as ([mode r1] & Hb & H).
  apply obind_Returns in H. destruct H as (r2 & Hm & H).
  destruct (r_bbg_npv _ _ r2) as [[npv|]|] eqn:Hn; try discriminate.
  inversion H; subst r2. clear H.
  assert (Hfin : has_market r w
                 /\ r_bbg_npv _ _ r = Some (benchmark_npv _ _ _ w cfg)
                 /\ (data_source_mode _ _ _ w cfg = "manual"%string
                     \/ data_source_mode _ _ _ w cfg = "bloomberg"%string)).
  { destruct (String.eqb (data_source_mode _ _ _ w cfg) "bloomberg") eqn:Eb.
    - apply String.eqb_eq in Eb.
      apply bloomberg_block_Returns in Hb.
      destruct Hb as [(_ & -> & ->)|(_ & -> & Hmk & Hnpv)].
      + cbn in Hm. apply manual_block_Returns in Hm.
        destruct Hm as [Hmk Hnpv]. auto.
      + cbn in Hm. inversion Hm; subst r1. auto.
    - inversion Hb; subst mode r1. clear Hb.
      destruct (String.eqb (data_source_mode _ _ _ w cfg) "manual") eqn:Em.
      + apply String.eqb_eq in Em. apply manual_block_Returns in Hm.
        destruct Hm as [Hmk Hnpv]. auto.
      + inversion Hm; subst r. discriminate. }
  destruct Hfin as ((curve & vol & eg & tg & H1 & H2 & H3 & H4 & H5) & Hnpv & Hmode).
  exists curve, vol, eg, tg, npv.
  split.
  { destruct r; cbn in *. congruence. }
  split; [congruence|]. split; [exact H5 | exact Hmode].
Qed.

(** A mode that is neither "bloomberg" nor "manual" loads nothing, and
    the run ends in the [ValueError] about [benchmark.npv], whether or
    not the configuration has one. *)
Theorem fetch_all_unknown_mode (w : world Cfg Array Npv) (cfg : Cfg)
    (config_dir : string) :
  data_source_mode _ _ _ w cfg <> "bloomberg"%string ->
  data_source_mode _ _ _ w cfg <> "manual"%string ->
  fetch_all _ _ _ w cfg config_dir
  = Raises (ValueError
      "benchmark.npv is required in config (target NPV for inverse calibration)").
Proof.
  intros Hb Hm. unfold fetch_all. cbv zeta.
  apply String.eqb_neq in Hb, Hm. rewrite Hb. cbn [obind]. rewrite Hm.
  reflexivity.
Qed.

(** Without the Bloomberg API, the mode "bloomberg" is the mode
    "manual": the outcome is the one of the same configuration with the
    mode set to "manual". *)
Theorem fetch_all_bloomberg_falls_back (w : world Cfg Array Npv) (cfg : Cfg)
    (config_dir : string) :
  data_source_mode _ _ _ w cfg = "bloomberg"%string ->
  _check_blpapi _ _ _ w = false ->
  fetch_all _ _ _ w cfg config_dir
  = fetch_all _ _ _ (with_mode "manual" w) cfg config_dir.
Proof.
  intros Hb Hc. unfold fetch_all. cbv zeta.
  cbn [with_mode data_source_mode]. rewrite Hb. cbn [String.eqb].
  change (String.eqb "bloomberg" "bloomberg") with true.
  change (String.eqb "manual" "bloomberg") with false.
  unfold bloomberg_block. rewrite Hc. cbn [negb obind].
  change (String.eqb "manual" "manual") with true.
  reflexivity.
Qed.

End Dispatcher.

(** A world without Bloomberg: one inline curve node, a 1 x 1 surface
    (arrays are lists of rows) and a target of 0. *)
Definition inline_world (mode : string) : world unit (list (list R)) R :=
  {| data_source_mode := fun _ => mode;
     manual_curve_file := fun _ => ""%string;
     manual_vol_file := fun _ => ""%string;
     benchmark_npv := fun _ => Some 0;
     _check_blpapi := false;
     fetch_curve_bloomberg := fun _ => Raises (External 0);
     fetch_vol_surface_bloomberg := fun _ => Raises (External 0);
     os_path_join := fun d f => (d ++ "/" ++ f)%string;
     os_path_exists := fun _ => false;
     open_curve_csv := fun _ => Raises (External 1);
     open_vol_csv := fun _ => Raises (External 1);
     load_curve_yaml := fun _ => Returns [("2027-01-30"%string, 0.97)];
     load_vol_yaml := fun _ => Returns ([[50]], ["1Yr"%string], ["5Y"%string]);
     shape := fun a => [length a; length (hd [] a)] |}.

Lemma fetch_all_returns_complete_witness :
  let r := {| r_curve := Some [("2027-01-30"%string, 0.97)];
              r_vol_surface := Some [[50]];
              r_expiry_grid := Some [1];
              r_tenor_grid := Some [5];
              r_bbg_npv := Some (Some 0) |} in
  fetch_all _ _ _ (inline_world "manual") tt "." = Returns r
  /\ exists curve vol eg tg npv,
       r = {| r_curve := Some curve; r_vol_surface := Some vol;
              r_expiry_grid := Some eg; r_tenor_grid := Some tg;
              r_bbg_npv := Some (Some npv) |}
       /\ Some 0 = Some npv
       /\ (2 <= length [length vol; length (hd [] vol)])%nat
       /\ ("manual"%string = "manual"%string
           \/ "manual"%string = "bloomberg"%string).
Proof.
  intro r. split; [reflexivity|].
  apply (fetch_all_returns_complete _ _ _ (inline_world "manual") tt "." r).
  reflexivity.
Defined.

Lemma fetch_all_unknown_mode_witness :
  fetch_all _ _ _ (inline_world "csv") tt "."
  = Raises (ValueError
      "benchmark.npv is required in config (target NPV for inverse calibration)").
Proof.
  apply fetch_all_unknown_mode; cbn; discriminate.
Defined.

Lemma fetch_all_bloomberg_falls_back_witness :
  fetch_all _ _ _ (inline_world "bloomberg") tt "."
  = fetch_all _ _ _ (with_mode _ _ _ "manual" (inline_world "bloomberg")) tt ".".
Proof.
  apply fetch_all_bloomberg_falls_back; reflexivity.
Defined.

End FetchAllFacts.

(** ** Properties of [read_vol_sheet] *)

Module ExcelBridgeFacts.
Import Fetcher FetcherFacts ExcelBridge.

Section SheetFacts.

Variable Cell : Type.
Variable is_None : Cell -> bool.
Variable str : Cell -> string.
Variable float : Cell -> outcome R.

(** An exception that [float_or_zero] lets through. *)
Definition escapes (e : error) : Prop :=
  e <> TypeError /\ (forall msg, e <> ValueError msg)
  /\ exists c : Cell, float c = Raises e.

Lemma row_values_cases (cells : list Cell) :
  match row_values Cell float cells with
  | Returns vs => length vs = length cells
  | Raises e => escapes e
  end.
Proof.
  induction cells as [|c cells IH]; cbn [row_values]; [reflexivity|].
  unfold float_or_zero.
  destruct (float c) as [x|e] eqn:Ec; cbn [obind].
  - destruct (row_values Cell float cells); cbn [obind];
      [cbn; congruence | exact IH].
  - destruct e; cbn [obind];
      try (destruct (row_values Cell float cells); cbn [obind];
           [cbn; congruence | exact IH]);
      (split; [discriminate|]; split; [discriminate|]; exists c; exact Ec).
Qed.

Lemma filter_length_le {A} (f : A -> bool) (l : list A) :
  (length (filter f l) <= length l)%nat.
Proof.
  induction l as [|a l IH]; cbn; [lia|]. destruct (f a); cbn; lia.
Qed.

Lemma data_rows_cases (n width : nat) : forall rows,
  (n < width)%nat ->
  Forall (fun row => length row = width) rows ->
  match data_rows Cell is_None str float n rows with
  | Returns (labels, values) =>
      VolInterp.shaped values (length labels) n
      /\ length labels
         = length (filter (fun row => match row with
                                      | c0 :: _ => negb (is_None c0)
                                      | [] => false
                                      end) rows)
  | Raises e => escapes e
  end.
Proof.
  intros rows Hn Hrows.
  induction Hrows as [|row rows Hrow _ IH]; cbn [data_rows filter].
  - split; [split; [reflexivity | constructor] | reflexivity].
  - destruct row as [|c0 row]; [cbn in Hrow; lia|].
    destruct (is_None c0); cbn [negb]; [exact IH|].
    cbn [tl].
    pose proof (row_values_cases (firstn n row)) as Hv.
    destruct (row_values Cell float (firstn n row)) as [vals|e];
      cbn [obind]; [|exact Hv].
    destruct (data_rows Cell is_None str float n rows) as [[labels values]|e];
      cbn [obind]; [|exact IH].
    cbn [fst snd]. destruct IH as [[Hlen Hall] Hcount].
    split; [split|].
    + cbn. congruence.
    + constructor; [|exact Hall].
      rewrite Hv, length_firstn. cbn in Hrow. lia.
    + cbn. congruence.
Qed.

(** The surface read from a sheet is rectangular.  On a sheet whose rows
    all have the width of the header row, as openpyxl yields them,
    [read_vol_sheet] returns a matrix with one row per expiry label and
    one column per tenor label: a tenor label per non-empty header cell
    after the first, an expiry label per row whose first cell is not
    empty, and 0.0 where a cell is not a number.  [TypeError] and
    [ValueError] never escape, and no index is out of range. *)
Theorem read_vol_sheet_is_rectangular (header : list Cell)
    (rest : list (list Cell)) :
  header <> [] ->
  Forall (fun row => length row = length header) rest ->
  match read_vol_sheet Cell is_None str float (Some (header :: rest)) with
  | Returns (Some (values, expiry_labels, tenor_labels)) =>
      VolInterp.shaped values (length expiry_labels) (length tenor_labels)
      /\ length tenor_labels
         = length (filter (fun c => negb (is_None c)) (tl header))
      /\ length expiry_labels
         = length (filter (fun row => match row with
                                      | c0 :: _ => negb (is_None c0)
                                      | [] => false
                                      end) rest)
  | Returns None => False
  | Raises e => escapes e
  end.
Proof.
  intros Hh Hrect. unfold read_vol_sheet. cbv zeta.
  set (cells := filter (fun c => negb (is_None c)) (tl header)).
  rewrite length_map.
  assert (Hn : (length cells < length header)%nat).
  { pose proof (filter_length_le (fun c => negb (is_None c)) (tl header)).
    fold cells in H. destruct header; [congruence|]. cbn in *. lia. }
  pose proof (data_rows_cases (length cells) (length header) rest Hn Hrect)
    as Hd.
  destruct (data_rows Cell is_None str float (length cells) rest)
    as [[labels values]|e]; cbn [obind fst snd]; [|exact Hd].
  destruct Hd as [Hs Hc]. rewrite length_map.
  split; [exact Hs|]. split; [reflexivity | exact Hc].
Qed.

End SheetFacts.

(** A sheet of two tenors and two expiries, with a blank row, a blank
    cell and a cell of text among the values. *)
Inductive toy_cell : Type :=
| Blank
| Number (x : R)
| Text (s : string).

Definition toy_is_None (c : toy_cell) : bool :=
  match c with Blank => true | _ => false end.

Definition toy_str (c : toy_cell) : string :=
  match c with
  | Blank => "None"
  | Number _ => "0.0"
  | Text s => s
  end.

Definition toy_float (c : toy_cell) : outcome R :=
  match c with
  | Blank => Raises TypeError
  | Number x => Returns x
  | Text _ => Raises (ValueError "could not convert string to float")
  end.

Definition toy_sheet : list (list toy_cell) :=
  [ [Blank;       Text " 1Y"; Text "2Y "];
    [Text "1Yr";  Number 50;  Text "n/a"];
    [Blank;       Number 1;   Number 2];
    [Text "2Yr "; Blank;      Number 60] ]%string.

Lemma read_vol_sheet_is_rectangular_witness :
  read_vol_sheet toy_cell toy_is_None toy_str toy_float (Some toy_sheet)
  = Returns (Some ([[50; 0]; [0; 60]], ["1Yr"; "2Yr"], ["1Y"; "2Y"])%string)
  /\ VolInterp.shaped [[50; 0]; [0; 60]] 2 2.
Proof.
  split; [reflexivity|].
  pose proof (read_vol_sheet_is_rectangular toy_cell toy_is_None toy_str
                toy_float (hd [] toy_sheet) (tl toy_sheet)) as H.
  cbn [hd tl toy_sheet] in H.
  assert (Hh : [Blank; Text " 1Y"; Text "2Y "]%string <> []) by discriminate.
  specialize (H Hh).
  assert (Hr : Forall (fun row : list toy_cell => length row = 3%nat)
                 (tl toy_sheet)) by (repeat constructor).
  specialize (H Hr).
  exact (proj1 H).
Defined.

End ExcelBridgeFacts.
